(** * Coffee Log: the offline synchronisation engine and its backend

    A shallow embedding of
    - [frontend/src/data/types.ts]   (the data model),
    - [frontend/src/data/api.ts]     (the Remote Client adapter),
    - [frontend/src/data/storage.ts] (the Local Store, two IndexedDB object stores),
    - [frontend/src/CoffeeLog.tsx]   (refreshOutbox, syncFromServer, processOutbox,
                                      runSync, handleAuthSubmit, handleLogout),
    - [backend/main.go]              (the JSON-file [Store] and the SQL entry queries).

    JavaScript strings are [string]s, numbers that the code only copies are
    [Z], an IndexedDB object store with [keyPath: 'id'] is a [gmap] from the
    id to the record.  Every [await] of the TypeScript code is a place where
    the event loop may run another task; the functions of section [Engine]
    run one task alone, the machine of section [Tasks] makes the suspension
    points explicit. *)

From Stdlib Require Import ZArith List Ascii String Sorting.Sorted.
From stdpp Require Import base option list gmap strings pretty.
Import ListNotations.

Local Open Scope string_scope.
Local Open Scope list_scope.
Local Open Scope Z_scope.

(** ** Data model ([types.ts]) *)

Inductive SyncStatus := synced | pending.

Inductive OutboxAction := create | update | delete_.

#[global] Instance SyncStatus_eq_dec : EqDecision SyncStatus.
Proof. solve_decision. Defined.

#[global] Instance OutboxAction_eq_dec : EqDecision OutboxAction.
Proof. solve_decision. Defined.

Module Entry.
Record t := mk {
  id : string;
  beans : string;
  brewMethod : string;
  notes : string;
  rating : Z;
  brewedAt : string;
  createdAt : string;
  updatedAt : string;
  syncStatus : option SyncStatus
}.

(** [{ ...e, syncStatus: s }] *)
Definition with_syncStatus (e : t) (s : SyncStatus) : t :=
  mk (id e) (beans e) (brewMethod e) (notes e) (rating e)
     (brewedAt e) (createdAt e) (updatedAt e) (Some s).
End Entry.

Module EntryPayload.
Record t := mk {
  id : option string;
  beans : string;
  brew_method : string;
  notes : string;
  rating : Z;
  brewed_at : string
}.
End EntryPayload.

Module OutboxItem.
Record t := mk {
  id : string;
  action : OutboxAction;
  entryId : string;
  payload : option EntryPayload.t;
  queuedAt : string
}.
End OutboxItem.

#[global] Instance Entry_eq_dec : EqDecision Entry.t.
Proof. solve_decision. Defined.

#[global] Instance EntryPayload_eq_dec : EqDecision EntryPayload.t.
Proof. solve_decision. Defined.

#[global] Instance OutboxItem_eq_dec : EqDecision OutboxItem.t.
Proof. solve_decision. Defined.

(** A thrown [Error] is its message; [Ok]/[Err] is a settled promise. *)
Inductive Result (A : Type) :=
| Ok (a : A)
| Err (message : string).
Arguments Ok {A} a.
Arguments Err {A} message.

Definition is_ok {A} (r : Result A) : bool :=
  match r with Ok _ => true | Err _ => false end.

(** ** The wire ([api.ts]) *)

Module ServerEntry.
Record t := mk {
  id : string;
  beans : string;
  brew_method : string;
  notes : string;
  rating : Z;
  brewed_at : string;
  created_at : string;
  updated_at : string
}.
End ServerEntry.

(** The requests that the entry and sign-in functions of [api.ts] send.
    The [Authorization] header is not part of the model. *)
Inductive Request :=
| GET_entries
| POST_entries (body : EntryPayload.t)
| PUT_entry (id : string) (body : EntryPayload.t)
| DELETE_entry (id : string)
| POST_register (email password : string)
| POST_login (email password : string).

#[global] Instance Request_eq_dec : EqDecision Request.
Proof. solve_decision. Defined.

(** What [response.json()] resolves to, at the shapes the adapter looks at:
    one server entry, an array of them, an object with a string [token]
    field, an object with a string [error] field, or anything else. *)
Inductive Json :=
| JEntry (e : ServerEntry.t)
| JEntries (l : list ServerEntry.t)
| JToken (token : string)
| JError (error : string)
| JOther.

(** A [Response]: its [status], and the outcome of [response.json()]
    ([Err] when the body is not JSON: the promise rejects). *)
Record Response := mkResponse {
  status : Z;
  json : Result Json
}.

(** [response.ok] *)
Definition ok (r : Response) : bool :=
  (200 <=? status r) && (status r <=? 299).

(** [ensureOk]: passes a 2xx reply, otherwise throws the [error] field of the
    body when it is a string and ["Request failed (<status>)"] when not. *)
Definition ensureOk (r : Response) : Result Response :=
  if ok r then Ok r
  else
    let message := "Request failed (" +:+ pretty (status r) +:+ ")" in
    match json r with
    | Ok (JError e) => Err e
    | _ => Err message
    end.

(** The object literal that [fetchEntries], [createEntry] and [updateEntry]
    build from a server entry. *)
Definition toEntry (entry : ServerEntry.t) : Entry.t :=
  Entry.mk (ServerEntry.id entry) (ServerEntry.beans entry)
    (ServerEntry.brew_method entry) (ServerEntry.notes entry)
    (ServerEntry.rating entry) (ServerEntry.brewed_at entry)
    (ServerEntry.created_at entry) (ServerEntry.updated_at entry)
    (Some synced).

(** [parseJSON<ServerEntry>] and [parseJSON<ServerEntry[]>]: the cast is
    unchecked in TypeScript; a 2xx body of another shape is outside the
    typed model and is mapped to a rejection. *)
Definition shape_error : string := "unexpected response body".

Definition parseEntry (r : Response) : Result ServerEntry.t :=
  match json r with
  | Ok (JEntry e) => Ok e
  | Ok _ => Err shape_error
  | Err m => Err m
  end.

Definition parseEntries (r : Response) : Result (list ServerEntry.t) :=
  match json r with
  | Ok (JEntries l) => Ok l
  | Ok _ => Err shape_error
  | Err m => Err m
  end.

Definition parseToken (r : Response) : Result string :=
  match json r with
  | Ok (JToken t) => Ok t
  | Ok _ => Err shape_error
  | Err m => Err m
  end.

#[global] Instance Result_ret : MRet Result := fun A a => Ok a.

#[global] Instance Result_bind : MBind Result := fun A B f r =>
  match r with
  | Ok a => f a
  | Err m => Err m
  end.

(** ** [Array.prototype.sort]

    The sort of the language is stable; with a comparator [cmp] it puts [x]
    before [y] when [cmp x y <= 0] and keeps the order of the elements that
    the comparator does not separate. *)
Section Sort.
Context {A : Type} (cmp : A → A → Z).

Fixpoint sort_insert (x : A) (l : list A) : list A :=
  match l with
  | [] => [x]
  | y :: l' => if cmp x y <=? 0 then x :: l else y :: sort_insert x l'
  end.

Fixpoint sort (l : list A) : list A :=
  match l with
  | [] => []
  | x :: l' => sort_insert x (sort l')
  end.
End Sort.

(** Comparison of strings by their characters: the order of the keys of an
    object store, and the order of [localeCompare] on the timestamps that
    [toISOString] makes. *)
Definition compareCodes (a b : string) : Z :=
  match String.compare a b with
  | Lt => -1
  | Eq => 0
  | Gt => 1
  end.

(** ** The Local Store ([storage.ts])

    Two object stores keyed by the [id] of the record.  Each function of
    [storage.ts] opens one transaction of its own.  The engine uses the store
    as an opaque keyed table: its operations are total here.  [getAll()]
    gives the records in the order of their keys. *)

Record LocalStore := mkStore {
  entries : gmap string Entry.t;
  outbox : gmap string OutboxItem.t
}.

(** [store.getAll()] *)
Definition getAll {V} (m : gmap string V) : list V :=
  (sort (fun a b : string * V => compareCodes a.1 b.1) (map_to_list m)).*2.

Module storage.
Definition getAllEntries (s : LocalStore) : list Entry.t :=
  getAll (entries s).

Definition putEntry (entry : Entry.t) (s : LocalStore) : LocalStore :=
  mkStore (<[Entry.id entry := entry]> (entries s)) (outbox s).

(** [entries.forEach((entry) => store.put(entry))], one transaction *)
Definition putEntries (l : list Entry.t) (s : LocalStore) : LocalStore :=
  mkStore (foldl (fun m entry => <[Entry.id entry := entry]> m) (entries s) l)
          (outbox s).

Definition deleteEntry (id : string) (s : LocalStore) : LocalStore :=
  mkStore (base.delete id (entries s)) (outbox s).

Definition clearEntries (s : LocalStore) : LocalStore :=
  mkStore ∅ (outbox s).

Definition getOutboxItems (s : LocalStore) : list OutboxItem.t :=
  getAll (outbox s).

Definition putOutboxItem (item : OutboxItem.t) (s : LocalStore) : LocalStore :=
  mkStore (entries s) (<[OutboxItem.id item := item]> (outbox s)).

Definition deleteOutboxItem (id : string) (s : LocalStore) : LocalStore :=
  mkStore (entries s) (base.delete id (outbox s)).

(** Modelled from the spec: [clearOutbox], which [CoffeeLog.tsx] imports
    from [storage.ts] and which the [storage.ts] at hand does not define.
    The spec gives the Local Store "get-all, put, delete, clear per
    collection"; this is [clearEntries] on the [outbox] store. *)
Definition clearOutbox (s : LocalStore) : LocalStore :=
  mkStore (entries s) ∅.
End storage.

(** The store keeps every record under its own id. *)
Definition entries_keyed (m : gmap string Entry.t) : Prop :=
  ∀ k e, m !! k = Some e → Entry.id e = k.

Definition outbox_keyed (m : gmap string OutboxItem.t) : Prop :=
  ∀ k i, m !! k = Some i → OutboxItem.id i = k.


Inductive SyncState := idle | syncing | offline.

#[global] Instance SyncState_eq_dec : EqDecision SyncState.
Proof. solve_decision. Defined.

(** One call of the Remote Client, as the drain sees it: the request and
    whether the adapter function returned or threw. *)
Record Call := mkCall {
  request : Request;
  succeeded : bool
}.

#[global] Instance Call_eq_dec : EqDecision Call.
Proof. solve_decision. Defined.

(** ** [Map] of the language, as [syncFromServer] uses it

    Keys are kept in the order of their first insertion; setting a key again
    replaces its value in place. *)
Fixpoint Map_set {V} (k : string) (v : V) (m : list (string * V)) : list (string * V) :=
  match m with
  | [] => [(k, v)]
  | (k', v') :: m' =>
      if decide (k' = k) then (k, v) :: m' else (k', v') :: Map_set k v m'
  end.

Definition Map_new {V} (kvs : list (string * V)) : list (string * V) :=
  foldl (fun m kv => Map_set kv.1 kv.2 m) [] kvs.

Fixpoint Map_get {V} (k : string) (m : list (string * V)) : option V :=
  match m with
  | [] => None
  | (k', v) :: m' => if decide (k' = k) then Some v else Map_get k m'
  end.

(** ** The merge of [syncFromServer]

    [localEntries] is what [getAllEntries] returned, [remoteEntries] what
    [fetchEntries] returned. *)
Definition is_pending (entry : Entry.t) : bool :=
  bool_decide (Entry.syncStatus entry = Some pending).

Definition pendingMap (localEntries : list Entry.t) : list (string * Entry.t) :=
  Map_new (map (fun entry => (Entry.id entry, entry)) (filter is_pending localEntries)).

(** [merged.find((item) => item.id === entry.id)] is truthy *)
Definition has_id (id : string) (merged : list Entry.t) : bool :=
  existsb (fun item => bool_decide (Entry.id item = id)) merged.

Definition merge (localEntries remoteEntries : list Entry.t) : list Entry.t :=
  let pending := pendingMap localEntries in
  let merged :=
    map (fun entry => default entry (Map_get (Entry.id entry) pending)) remoteEntries in
  foldl (fun merged kv =>
           if has_id (Entry.id kv.2) merged then merged else merged ++ [kv.2])
        merged pending.

(** The entry that the first loop of the merge pushes for a remote entry:
    [pendingEntry ?? entry]. *)
Definition chosen (store : LocalStore) (entry : Entry.t) : Entry.t :=
  default entry
    (Map_get (Entry.id entry) (pendingMap (storage.getAllEntries store))).

(** [!token] is false *)
Definition has_token (token : option string) : bool :=
  match token with
  | Some t => negb (bool_decide (t = ""))
  | None => false
  end.

(** ** The Remote Client adapter and the engine

    [fetch] is the network: it takes the request and the state of the world
    outside the device and gives the reply, or the message of the rejection
    when the server cannot be reached.  [localeCompare] is the string
    comparison of the platform. *)
Section Engine.
Context {W : Type}.
Variable fetch : Request → W → W * Result Response.
Variable localeCompare : string → string → Z.

Definition fetchEntries (w : W) : W * Result (list Entry.t) :=
  let '(w', r) := fetch GET_entries w in
  (w', response ← r; response ← ensureOk response;
       data ← parseEntries response; mret (map toEntry data)).

Definition createEntry (payload : EntryPayload.t) (w : W) : W * Result Entry.t :=
  let '(w', r) := fetch (POST_entries payload) w in
  (w', response ← r; response ← ensureOk response;
       entry ← parseEntry response; mret (toEntry entry)).

Definition updateEntry (id : string) (payload : EntryPayload.t) (w : W)
  : W * Result Entry.t :=
  let '(w', r) := fetch (PUT_entry id payload) w in
  (w', response ← r; response ← ensureOk response;
       entry ← parseEntry response; mret (toEntry entry)).

(** [deleteEntry] of [api.ts], which [CoffeeLog.tsx] imports as
    [deleteEntryRemote] *)
Definition deleteEntryRemote (id : string) (w : W) : W * Result unit :=
  let '(w', r) := fetch (DELETE_entry id) w in
  (w', response ← r;
       if status response =? 404 then mret tt
       else (_ ← ensureOk response; mret tt)).

Definition registerUser (email password : string) (w : W) : W * Result string :=
  let '(w', r) := fetch (POST_register email password) w in
  (w', response ← r; response ← ensureOk response; parseToken response).

Definition loginUser (email password : string) (w : W) : W * Result string :=
  let '(w', r) := fetch (POST_login email password) w in
  (w', response ← r; response ← ensureOk response; parseToken response).

(** The state that the engine reads and writes: the Local Store, the
    [syncState] and [error] of the component, and the world behind [fetch].
    [calls] is a history of the Remote Client calls made so far, oldest
    first; no code reads it.  The [entries] and [outbox] lists that the
    component keeps for display are not part of the model. *)
Record State := mkState {
  local : LocalStore;
  syncState : SyncState;
  error : option string;
  net : W;
  calls : list Call
}.

Definition setSyncState (v : SyncState) (s : State) : State :=
  mkState (local s) v (error s) (net s) (calls s).

Definition setError (v : option string) (s : State) : State :=
  mkState (local s) (syncState s) v (net s) (calls s).

Definition onStore (f : LocalStore → LocalStore) (s : State) : State :=
  mkState (f (local s)) (syncState s) (error s) (net s) (calls s).

(** One awaited call of an adapter function. *)
Definition remote {A} (req : Request) (call : W → W * Result A) (s : State)
  : State * Result A :=
  let '(w', r) := call (net s) in
  (mkState (local s) (syncState s) (error s) w'
           (calls s ++ [mkCall req (is_ok r)]), r).

Definition compareQueuedAt (a b : OutboxItem.t) : Z :=
  localeCompare (OutboxItem.queuedAt a) (OutboxItem.queuedAt b).

(** [refreshOutbox]: the items it returns *)
Definition refreshOutbox (s : State) : list OutboxItem.t :=
  sort compareQueuedAt (storage.getOutboxItems (local s)).

(** The request that the drain sends for an item, if it sends one. *)
Definition requestOf (item : OutboxItem.t) : option Request :=
  match OutboxItem.action item, OutboxItem.payload item with
  | create, Some payload => Some (POST_entries payload)
  | update, Some payload => Some (PUT_entry (OutboxItem.entryId item) payload)
  | delete_, _ => Some (DELETE_entry (OutboxItem.entryId item))
  | _, _ => None
  end.

(** The remote part of the [try] block of [processOutbox] for one item:
    the call, and the entry to put into the Local Store when there is one. *)
Definition callRemote (item : OutboxItem.t) (s : State)
  : State * Result (option Entry.t) :=
  match OutboxItem.action item, OutboxItem.payload item with
  | create, Some payload =>
      let '(s', r) := remote (POST_entries payload) (createEntry payload) s in
      (s', created ← r; mret (Some (Entry.with_syncStatus created synced)))
  | update, Some payload =>
      let '(s', r) :=
        remote (PUT_entry (OutboxItem.entryId item) payload)
               (updateEntry (OutboxItem.entryId item) payload) s in
      (s', updated ← r; mret (Some (Entry.with_syncStatus updated synced)))
  | delete_, _ =>
      let '(s', r) :=
        remote (DELETE_entry (OutboxItem.entryId item))
               (deleteEntryRemote (OutboxItem.entryId item)) s in
      (s', _ ← r; mret None)
  | _, _ => (s, Ok None)
  end.

Definition putResult (written : option Entry.t) (s : State) : State :=
  match written with
  | Some entry => onStore (storage.putEntry entry) s
  | None => s
  end.

(** The [try] block of [processOutbox] for one item. *)
Definition drainItem (item : OutboxItem.t) (s : State) : State * Result unit :=
  let '(s1, r) := callRemote item s in
  match r with
  | Ok written =>
      (onStore (storage.deleteOutboxItem (OutboxItem.id item)) (putResult written s1),
       Ok tt)
  | Err m => (s1, Err m)
  end.

(** The [for] loop of [processOutbox] *)
Fixpoint drain (items : list OutboxItem.t) (s : State) : State :=
  match items with
  | [] => s
  | item :: rest =>
      match drainItem item s with
      | (s', Ok _) => drain rest s'
      | (s', Err m) => setError (Some m) s'
      end
  end.

Definition processOutbox (token : option string) (s : State) : State :=
  if negb (has_token token) then s
  else drain (refreshOutbox s) s.

Definition syncFromServer (s : State) : State * Result unit :=
  let localEntries := storage.getAllEntries (local s) in
  let '(s1, r) := remote GET_entries fetchEntries s in
  match r with
  | Ok remoteEntries =>
      let merged := merge localEntries remoteEntries in
      (onStore (storage.putEntries merged) (onStore storage.clearEntries s1), Ok tt)
  | Err m => (s1, Err m)
  end.

(** [runSync], with the [token] of the render that made the callback and
    the [navigator.onLine] of the moment of the call. *)
Definition runSync (token : option string) (onLine : bool) (s : State) : State :=
  if negb (has_token token) then s
  else if negb onLine then setSyncState offline s
  else
    let s := setError None (setSyncState syncing s) in
    let s := processOutbox token s in
    match syncFromServer s with
    | (s', Ok _) => setSyncState idle s'
    | (s', Err m) => setSyncState offline (setError (Some m) s')
    end.

(** [handleLogout] *)
Definition handleLogout (s : State) : State :=
  onStore storage.clearOutbox (onStore storage.clearEntries s).

(** [handleAuthSubmit]; [register] is [authMode === 'register'], [token] the
    token of the render in which the form was submitted. *)
Definition handleAuthSubmit (register : bool) (email password : string)
    (token : option string) (onLine : bool) (s : State) : State :=
  let s := setError None s in
  let '(s1, r) :=
    if register
    then remote (POST_register email password) (registerUser email password) s
    else remote (POST_login email password) (loginUser email password) s in
  match r with
  | Ok _ =>
      runSync token onLine
        (onStore storage.clearOutbox (onStore storage.clearEntries s1))
  | Err m => setError (Some m) s1
  end.

End Engine.

Arguments State : clear implicits.

(** ** One pass as a task of the event loop

    [runSync] is an [async] function: it runs until its next [await], and
    the event loop may run other tasks before it resumes.  A [Task] is the
    point at which a pass is suspended, with the values that it holds in
    local variables; [step] runs it up to the next suspension point.  An
    awaited call of the network or of the Local Store takes effect in the
    step that resumes from it. *)
Inductive Task :=
| TStart
    (* [runSync] is called *)
| TRefresh
    (* [processOutbox]: [await refreshOutbox()] *)
| TItem (items : list OutboxItem.t)
    (* head of the [for] loop, [items] still to do *)
| TPut (written : Entry.t) (item : OutboxItem.t) (rest : list OutboxItem.t)
    (* [await putEntry(...)] *)
| TRemove (item : OutboxItem.t) (rest : list OutboxItem.t)
    (* [await deleteOutboxItem(item.id)] *)
| TRead
    (* [syncFromServer]: [await getAllEntries()] *)
| TFetch (localEntries : list Entry.t)
    (* [await fetchEntries()] *)
| TClear (merged : list Entry.t)
    (* [await clearEntries()] *)
| TPutAll (merged : list Entry.t)
    (* [await putEntries(merged)] *)
| TRefreshEnd
    (* [runSync]: [await refreshOutbox()], then [setSyncState('idle')] *)
| TDone.

Section Tasks.
Context {W : Type}.
Variable fetch : Request → W → W * Result Response.
Variable localeCompare : string → string → Z.
Variable token : option string.
Variable onLine : bool.

Definition step (t : Task) (s : State W) : Task * State W :=
  match t with
  | TStart =>
      if negb (has_token token) then (TDone, s)
      else if negb onLine then (TDone, setSyncState offline s)
      else (TRefresh, setError None (setSyncState syncing s))
  | TRefresh => (TItem (refreshOutbox localeCompare s), s)
  | TItem [] => (TRead, s)
  | TItem (item :: rest) =>
      match callRemote fetch item s with
      | (s', Ok (Some written)) => (TPut written item rest, s')
      | (s', Ok None) => (TRemove item rest, s')
      | (s', Err m) => (TRead, setError (Some m) s')
      end
  | TPut written item rest =>
      (TRemove item rest, onStore (storage.putEntry written) s)
  | TRemove item rest =>
      (TItem rest, onStore (storage.deleteOutboxItem (OutboxItem.id item)) s)
  | TRead => (TFetch (storage.getAllEntries (local s)), s)
  | TFetch localEntries =>
      match remote GET_entries (fetchEntries fetch) s with
      | (s', Ok remoteEntries) => (TClear (merge localEntries remoteEntries), s')
      | (s', Err m) => (TDone, setSyncState offline (setError (Some m) s'))
      end
  | TClear merged => (TPutAll merged, onStore storage.clearEntries s)
  | TPutAll merged => (TRefreshEnd, onStore (storage.putEntries merged) s)
  | TRefreshEnd => (TDone, setSyncState idle s)
  | TDone => (TDone, s)
  end.

(** [n] steps of one task, nothing else running. *)
Fixpoint run (n : nat) (t : Task) (s : State W) : Task * State W :=
  match n with
  | O => (t, s)
  | S n' => let '(t', s') := step t s in run n' t' s'
  end.

(** The states in which the task is suspended during its next [n] steps:
    what another task can observe. *)
Fixpoint observed (n : nat) (t : Task) (s : State W) : list (State W) :=
  match n with
  | O => []
  | S n' => let '(t', s') := step t s in s' :: observed n' t' s'
  end.

(** Two passes on one event loop.  The schedule says which of the two takes
    the next step ([false] the first, [true] the second). *)
Fixpoint interleave (schedule : list bool) (t1 t2 : Task) (s : State W)
  : Task * Task * State W :=
  match schedule with
  | [] => (t1, t2, s)
  | false :: schedule' =>
      let '(t1', s') := step t1 s in interleave schedule' t1' t2 s'
  | true :: schedule' =>
      let '(t2', s') := step t2 s in interleave schedule' t1 t2' s'
  end.

End Tasks.

(** ** A network that replays a script

    The replies are taken in order from a list, whatever the request; when
    the list is used up the server cannot be reached. *)
Definition scripted (req : Request) (w : list (Result Response))
  : list (Result Response) * Result Response :=
  match w with
  | r :: w' => (w', r)
  | [] => ([], Err "Failed to fetch")
  end.


(** ** The backend ([backend/main.go])

    [main.go] holds two servers for the same routes: one keeps the entries in
    a [Store] that it saves to a JSON file, the other keeps them in the SQL
    table [entries].  A Go [error] is its message, [nil] is [None]. *)
Module backend.

Module Entry.
Record t := mk {
  ID : string;
  Beans : string;
  BrewMethod : string;
  Notes : string;
  Rating : Z;
  BrewedAt : string;
  CreatedAt : string;
  UpdatedAt : string
}.
(** [Entry{}] *)
Definition zero : t := mk "" "" "" "" 0 "" "" "".
End Entry.

Module EntryInput.
Record t := mk {
  ID : string;
  Beans : string;
  BrewMethod : string;
  Notes : string;
  Rating : Z;
  BrewedAt : string
}.
End EntryInput.

(** [Store]; the mutex makes each method one step. *)
Record Store := mkStore {
  path : string;
  entries : list Entry.t
}.

(** A row of the table [entries]; the three [timestamptz] columns are
    instants, in seconds. *)
Record Row := mkRow {
  id : string;
  user_id : string;
  beans : string;
  brew_method : string;
  notes : string;
  rating : Z;
  brewed_at : Z;
  created_at : Z;
  updated_at : Z
}.

(** The zero [time.Time], January 1 of year 1, in Unix seconds. *)
Definition zeroTime : Z := -62135596800.

(** What the database does around the two statements of the SQL
    [updateEntry] besides running them.  [execErr] is the error of
    [ExecContext], when it fails; [meanwhile] is what the statements of
    other requests make of the table between the [UPDATE] and the [SELECT]
    (the handlers run side by side and the two statements are in no
    transaction); [scanErr] says that the [SELECT] fails. *)
Record Run := mkRun {
  execErr : option string;
  meanwhile : list Row → list Row;
  scanErr : bool
}.

(** Both statements succeed and no other request comes between them. *)
Definition quiet : Run := mkRun None (fun db => db) false.

Section Handlers.
(** [strings.TrimSpace], [unicode.IsLetter] and [unicode.IsDigit]; runes are
    the characters of the string. *)
Variable TrimSpace : string → string.
Variable IsLetter : ascii → bool.
Variable IsDigit : ascii → bool.
(** [time.Parse(time.RFC3339, _)] and [t.UTC().Format(time.RFC3339)] *)
Variable parseRFC3339 : string → option Z.
Variable formatRFC3339 : Z → string.

Definition validRune (r : ascii) : bool :=
  IsLetter r || IsDigit r || bool_decide (r = "-"%char) || bool_decide (r = "_"%char).

Definition normalizeID (raw : string) : string * option string :=
  let id := TrimSpace raw in
  if decide (id = "") then ("", None)
  else if forallb validRune (list_ascii_of_string id) then (id, None)
  else ("", Some "id contains invalid characters").

(** *** The JSON-file store

    [now] is [time.Now().UTC().Format(time.RFC3339)], [fresh] what [newID()]
    returns, [saveErr] the error of [s.save()]. *)
Definition Store_List (s : Store) : list Entry.t := entries s.

Definition Store_Create (now fresh : string) (saveErr : option string)
    (input : EntryInput.t) (s : Store) : Store * (Entry.t * option string) :=
  match normalizeID (EntryInput.ID input) with
  | (_, Some err) => (s, (Entry.zero, Some err))
  | (id, None) =>
      let id := if decide (id = "") then fresh else id in
      let entry :=
        Entry.mk id (EntryInput.Beans input) (EntryInput.BrewMethod input)
          (EntryInput.Notes input) (EntryInput.Rating input)
          (EntryInput.BrewedAt input) now now in
      let s' := mkStore (path s) (entries s ++ [entry]) in
      match saveErr with
      | Some err => (s', (Entry.zero, Some err))
      | None => (s', (entry, None))
      end
  end.

(** The body of the loop of [Store.Update] for the entry that has the id. *)
Definition rewritten (now : string) (input : EntryInput.t) (entry : Entry.t) : Entry.t :=
  Entry.mk (Entry.ID entry) (EntryInput.Beans input) (EntryInput.BrewMethod input)
    (EntryInput.Notes input) (EntryInput.Rating input) (EntryInput.BrewedAt input)
    (Entry.CreatedAt entry) now.

(** The loop of [Store.Update]: the slice with the first entry of that id
    rewritten, and that entry; [None] when the loop ends without a match. *)
Fixpoint update_first (now id : string) (input : EntryInput.t) (l : list Entry.t)
  : option (list Entry.t * Entry.t) :=
  match l with
  | [] => None
  | entry :: l' =>
      if decide (Entry.ID entry = id)
      then Some (rewritten now input entry :: l', rewritten now input entry)
      else '(l'', e) ← update_first now id input l'; Some (entry :: l'', e)
  end.

Definition Store_Update (now : string) (saveErr : option string)
    (id : string) (input : EntryInput.t) (s : Store)
  : Store * (Entry.t * bool * option string) :=
  match update_first now id input (entries s) with
  | Some (l, entry) =>
      let s' := mkStore (path s) l in
      match saveErr with
      | Some err => (s', (Entry.zero, true, Some err))
      | None => (s', (entry, true, None))
      end
  | None => (s, (Entry.zero, false, None))
  end.

(** *** The SQL table

    The table is the list of its rows.  [listEntries] is what the query
    gives when it succeeds; the statements of [updateEntry] run under the
    conditions of its [Run]. *)
Definition rowEntry (r : Row) : Entry.t :=
  Entry.mk (id r) (beans r) (brew_method r) (notes r) (rating r)
    (formatRFC3339 (brewed_at r)) (formatRFC3339 (created_at r))
    (formatRFC3339 (updated_at r)).

(** [ORDER BY brewed_at DESC] *)
Definition brewedDesc (a b : Row) : Z := brewed_at b - brewed_at a.

Definition listEntries (db : list Row) (userID : string) : list Entry.t :=
  map rowEntry
    (sort brewedDesc (filter (fun r => bool_decide (user_id r = userID)) db)).

(** [WHERE user_id = $7 AND id = $8] *)
Definition selected (userID id' : string) (r : Row) : bool :=
  bool_decide (user_id r = userID) && bool_decide (id r = id').

(** [UPDATE entries SET beans = $1, ..., updated_at = $6 WHERE ...] *)
Definition sqlUpdate (input : EntryInput.t) (brewed updated : Z)
    (userID id' : string) (db : list Row) : list Row :=
  map (fun r =>
         if selected userID id' r
         then mkRow (id r) (user_id r) (EntryInput.Beans input)
                (EntryInput.BrewMethod input) (EntryInput.Notes input)
                (EntryInput.Rating input) brewed (created_at r) updated
         else r) db.

(** [res.RowsAffected()] *)
Definition rowsAffected (userID id' : string) (db : list Row) : Z :=
  Z.of_nat (length (filter (selected userID id') db)).

(** [SELECT created_at FROM entries WHERE ...], scanned with [QueryRow] *)
Definition selectCreatedAt (userID id' : string) (db : list Row) : option Z :=
  created_at <$> find (selected userID id') db.

(** [updateEntry]; [now] is [time.Now().UTC()].  A statement that fails
    changes nothing.  [RowsAffected] of the driver at hand does not fail.
    The [SELECT] reads the table as the other requests have left it, and
    when it fails or finds no row, [created] is [updated]. *)
Definition updateEntry (now : Z) (run : Run) (db : list Row) (userID : string)
    (id0 : string) (input : EntryInput.t)
  : list Row * (Entry.t * bool * option string) :=
  match normalizeID id0 with
  | (_, Some err) => (db, (Entry.zero, false, Some err))
  | (id', None) =>
      let brewed := default zeroTime (parseRFC3339 (EntryInput.BrewedAt input)) in
      let updated := now in
      match execErr run with
      | Some err => (db, (Entry.zero, false, Some err))
      | None =>
          let affected := rowsAffected userID id' db in
          let db' := sqlUpdate input brewed updated userID id' db in
          if affected =? 0 then (db', (Entry.zero, false, None))
          else
            let db'' := meanwhile run db' in
            let created :=
              if scanErr run then updated
              else default updated (selectCreatedAt userID id' db'') in
            (db'',
             (Entry.mk id' (EntryInput.Beans input)
                (EntryInput.BrewMethod input) (EntryInput.Notes input)
                (EntryInput.Rating input) (formatRFC3339 brewed)
                (formatRFC3339 created) (formatRFC3339 updated),
              true, None))
      end
  end.

End Handlers.

(** The library functions on ASCII text, for running the handlers. *)
Definition asciiIsSpace (c : ascii) : bool :=
  let n := nat_of_ascii c in ((9 <=? n) && (n <=? 13))%nat || (n =? 32)%nat.

Fixpoint trimLeft (s : string) : string :=
  match s with
  | String c s' => if asciiIsSpace c then trimLeft s' else s
  | EmptyString => EmptyString
  end.

Definition asciiTrimSpace (s : string) : string :=
  String.rev (trimLeft (String.rev (trimLeft s))).

Definition asciiIsLetter (c : ascii) : bool :=
  let n := nat_of_ascii c in
  ((65 <=? n) && (n <=? 90))%nat || ((97 <=? n) && (n <=? 122))%nat.

Definition asciiIsDigit (c : ascii) : bool :=
  let n := nat_of_ascii c in ((48 <=? n) && (n <=? 57))%nat.

End backend.

(** ** The outcome of a drain

    [drained items s] splits [items] as the loop of [processOutbox] does when
    it starts in [s]: the items whose [try] block ran to its end, and the
    items from the failing one on (none when no call fails). *)
Section Outcome.
Context {W : Type}.
Variable fetch : Request → W → W * Result Response.

Fixpoint drained (items : list OutboxItem.t) (s : State W)
  : list OutboxItem.t * list OutboxItem.t :=
  match items with
  | [] => ([], [])
  | item :: rest =>
      match drainItem fetch item s with
      | (s', Ok _) => let '(ran, kept) := drained rest s' in (item :: ran, kept)
      | (_, Err _) => ([], item :: rest)
      end
  end.

(** The entry of the history for the call that the drain makes for [item]. *)
Definition callsOf (ok : bool) (item : OutboxItem.t) : list Call :=
  match requestOf item with
  | Some req => [mkCall req ok]
  | None => []
  end.

End Outcome.

(** The keys that a drain removes from the outbox store. *)
Definition removeAll (items : list OutboxItem.t) (m : gmap string OutboxItem.t)
  : gmap string OutboxItem.t :=
  foldl (fun m i => base.delete (OutboxItem.id i) m) m items.

(** ** Sample data

    An entry made on the device and not yet confirmed, the outbox item that
    records its creation, the same entry as the server holds it, and a stale
    delete of an entry that the server no longer has. *)
Definition entry_e1 : Entry.t :=
  Entry.mk "e1" "Yirgacheffe" "pour_over" "local" 4 "2024-05-01T08:00:00.000Z"
    "2024-05-01T08:00:00.000Z" "2024-05-01T08:00:00.000Z" (Some pending).

Definition payload_e1 : EntryPayload.t :=
  EntryPayload.mk (Some "e1") "Yirgacheffe" "pour_over" "local" 4
    "2024-05-01T08:00:00.000Z".

Definition create_e1 : OutboxItem.t :=
  OutboxItem.mk "o1" create "e1" (Some payload_e1) "2024-05-01T08:00:00.000Z".

Definition server_e1 : ServerEntry.t :=
  ServerEntry.mk "e1" "Yirgacheffe" "pour_over" "remote-old" 4
    "2024-05-01T08:00:00Z" "2024-05-01T08:00:05Z" "2024-05-01T08:00:05Z".

Definition server_e2 : ServerEntry.t :=
  ServerEntry.mk "e2" "Kenya AA" "espresso" "" 3
    "2024-04-01T08:00:00Z" "2024-04-01T08:00:00Z" "2024-04-01T08:00:00Z".

Definition delete_e9 : OutboxItem.t :=
  OutboxItem.mk "o9" delete_ "e9" None "2024-05-02T10:00:00.000Z".

Definition delete_e8 : OutboxItem.t :=
  OutboxItem.mk "o8" delete_ "e8" None "2024-05-02T10:00:00.000Z".

Definition reply (status : Z) (body : Json) : Result Response :=
  Ok (mkResponse status (Ok body)).

Definition not_found : Result Response := reply 404 (JError "entry not found").

Definition no_content : Result Response :=
  Ok (mkResponse 204 (Err "Unexpected end of JSON input")).

(** A device with [store] on it, idle, in front of a network that will give
    the [replies]. *)
Definition device (store : LocalStore) (replies : list (Result Response))
  : State (list (Result Response)) :=
  mkState store idle None replies [].

(** Two deletes queued in the same millisecond. *)
Definition tied_outbox : LocalStore :=
  mkStore ∅ (<["o8" := delete_e8]> (<["o9" := delete_e9]> ∅)).

(** The pending entry [e1] with the item that creates it, and a later
    delete. *)
Definition unsynced_store : LocalStore :=
  mkStore (<["e1" := entry_e1]> ∅)
          (<["o1" := create_e1]> (<["o9" := delete_e9]> ∅)).

(** The server rejects the first request and answers the listing. *)
Definition rejected_then_listing : list (Result Response) :=
  [reply 400 (JError "beans is required"); reply 200 (JEntries [server_e2])].

(** The Local Store holds [e1] with a pending edit; the server lists its
    older version of [e1]. *)
Definition edited_store : LocalStore := mkStore (<["e1" := entry_e1]> ∅) ∅.

Definition listing_old_e1 : list (Result Response) :=
  [reply 200 (JEntries [server_e1])].

(** Only the stale delete is queued. *)
Definition stale_store : LocalStore := mkStore ∅ (<["o9" := delete_e9]> ∅).

(** The server lists the entry [e2] alone. *)
Definition listing_e2 : list (Result Response) :=
  [reply 200 (JEntries [server_e2])].

(** The pending entry [e1] with the item that creates it, nothing else
    queued; the server accepts the create as often as it is sent and lists
    the entry. *)
Definition single_store : LocalStore :=
  mkStore (<["e1" := entry_e1]> ∅) (<["o1" := create_e1]> ∅).

Definition server_e1_created : ServerEntry.t :=
  ServerEntry.mk "e1" "Yirgacheffe" "pour_over" "local" 4
    "2024-05-01T08:00:00Z" "2024-05-01T08:00:07Z" "2024-05-01T08:00:07Z".

Definition accepted_twice : list (Result Response) :=
  [reply 201 (JEntry server_e1_created); reply 201 (JEntry server_e1_created);
   reply 200 (JEntries [server_e1_created]);
   reply 200 (JEntries [server_e1_created])].

Definition accepted_once : list (Result Response) :=
  [reply 201 (JEntry server_e1_created);
   reply 200 (JEntries [server_e1_created]);
   reply 200 (JEntries [server_e1_created])].

(** The first pass reads the outbox; the second pass is requested and reads
    the outbox too; each sends its create; then each runs to its end. *)
Definition overlapping : list bool :=
  [false; false; true; true; false; true] ++ repeat false 8 ++ repeat true 8.

(** Two brews posted to the JSON-file server, the older one first. *)
Definition brew_january : backend.EntryInput.t :=
  backend.EntryInput.mk "" "Yirgacheffe" "pour_over" "" 4 "2024-01-01T08:00:00Z".

Definition brew_february : backend.EntryInput.t :=
  backend.EntryInput.mk "" "Kenya AA" "espresso" "" 3 "2024-02-01T08:00:00Z".

Definition empty_Store : backend.Store :=
  backend.mkStore "./data/entries.json" [].

Definition Store_after_two_posts : backend.Store :=
  (backend.Store_Create backend.asciiTrimSpace backend.asciiIsLetter
     backend.asciiIsDigit "2024-03-01T10:00:05Z" "0b" None brew_february
     (backend.Store_Create backend.asciiTrimSpace backend.asciiIsLetter
        backend.asciiIsDigit "2024-03-01T10:00:00Z" "0a" None brew_january
        empty_Store).1).1.

(** A table with one row of user [u1]. *)
Definition row_x1 : backend.Row :=
  backend.mkRow "x1" "u1" "Yirgacheffe" "pour_over" "" 4 1714550400 1714550460
    1714550460.

Definition edit_x1 : backend.EntryInput.t :=
  backend.EntryInput.mk "x1" "Yirgacheffe" "pour_over" "sweeter" 5
    "2024-05-01T08:00:00Z".

(** The entries that the two posts make. *)
Definition january_entry : backend.Entry.t :=
  backend.Entry.mk "0a" "Yirgacheffe" "pour_over" "" 4 "2024-01-01T08:00:00Z"
    "2024-03-01T10:00:00Z" "2024-03-01T10:00:00Z".

Definition february_entry : backend.Entry.t :=
  backend.Entry.mk "0b" "Kenya AA" "espresso" "" 3 "2024-02-01T08:00:00Z"
    "2024-03-01T10:00:05Z" "2024-03-01T10:00:05Z".

Definition edit_january : backend.EntryInput.t :=
  backend.EntryInput.mk "" "Yirgacheffe" "pour_over" "sweeter" 5
    "2024-01-01T08:00:00Z".

(** A queued create that carries no payload (the type makes [payload]
    optional). *)
Definition create_without_payload : OutboxItem.t :=
  OutboxItem.mk "o7" create "e7" None "2024-05-03T09:00:00.000Z".

Definition orphan_store : LocalStore :=
  mkStore ∅ (<["o7" := create_without_payload]> ∅).

(** ** The mutations of the component ([CoffeeLog.tsx])

    [handleSubmit] and [handleDelete] write to the Local Store, queue an
    outbox item and call [runSync]. *)

(** The [form] state *)
Module Form.
Record t := mk {
  beans : string;
  brewMethod : string;
  notes : string;
  rating : Z;
  brewedAt : string
}.
End Form.

Definition toPayload (entry : Entry.t) : EntryPayload.t :=
  EntryPayload.mk (Some (Entry.id entry)) (Entry.beans entry)
    (Entry.brewMethod entry) (Entry.notes entry) (Entry.rating entry)
    (Entry.brewedAt entry).

Section Mutations.
Context {W : Type}.
Variable fetch : Request → W → W * Result Response.
Variable localeCompare : string → string → Z.
(** [String.prototype.trim] *)
Variable trim : string → string.
(** [fromLocalInput]: [new Date(value).toISOString()], which throws a
    [RangeError] when the value is no date. *)
Variable fromLocalInput : string → Result string.

(** The entry that the edit branch of [handleSubmit] makes:
    [{ ...previous, ...payloadBase, updatedAt, syncStatus: 'pending' }]. *)
Definition edited (previous : Entry.t) (beans brewMethod notes : string)
    (rating : Z) (brewedAt updatedAt : string) : Entry.t :=
  Entry.mk (Entry.id previous) beans brewMethod notes rating brewedAt
    (Entry.createdAt previous) updatedAt (Some pending).

(** [handleSubmit].  [requiredError] is [text.requiredError]; [form],
    [editingId] and [shown] (the [entries] list) are the state of the render;
    [id1], [id2] are what the calls of [createId()] return and [now1], [now2]
    what the calls of [new Date().toISOString()] return, in the order of the
    calls.  When [fromLocalInput] throws, the handler ends there. *)
Definition handleSubmit (requiredError : string) (form : Form.t)
    (editingId : option string) (shown : list Entry.t)
    (id1 id2 now1 now2 : string) (token : option string) (onLine : bool)
    (s : State W) : State W :=
  let s := setError None s in
  match fromLocalInput (Form.brewedAt form) with
  | Err _ => s
  | Ok brewedAt =>
      let beans := trim (Form.beans form) in
      let brewMethod := trim (Form.brewMethod form) in
      let notes := trim (Form.notes form) in
      if bool_decide (beans = "") || bool_decide (brewMethod = "")
      then setError (Some requiredError) s
      else
        match editingId with
        | Some eid =>
            if bool_decide (eid = "") then
              let newEntry :=
                Entry.mk id1 beans brewMethod notes (Form.rating form) brewedAt
                  now1 now1 (Some pending) in
              runSync fetch localeCompare token onLine
                (onStore
                   (storage.putOutboxItem
                      (OutboxItem.mk id2 create (Entry.id newEntry)
                         (Some (toPayload newEntry)) now1))
                   (onStore (storage.putEntry newEntry) s))
            else
              match find (fun entry => bool_decide (Entry.id entry = eid)) shown with
              | None => s
              | Some previous =>
                  let updated :=
                    edited previous beans brewMethod notes (Form.rating form)
                      brewedAt now1 in
                  runSync fetch localeCompare token onLine
                    (onStore
                       (storage.putOutboxItem
                          (OutboxItem.mk id1 update eid
                             (Some (toPayload updated)) now2))
                       (onStore (storage.putEntry updated) s))
              end
        | None =>
            let newEntry :=
              Entry.mk id1 beans brewMethod notes (Form.rating form) brewedAt
                now1 now1 (Some pending) in
            runSync fetch localeCompare token onLine
              (onStore
                 (storage.putOutboxItem
                    (OutboxItem.mk id2 create (Entry.id newEntry)
                       (Some (toPayload newEntry)) now1))
                 (onStore (storage.putEntry newEntry) s))
        end
  end.

(** [handleDelete]; [id1] is what [createId()] returns and [now1] what
    [new Date().toISOString()] returns. *)
Definition handleDelete (entry : Entry.t) (id1 now1 : string)
    (token : option string) (onLine : bool) (s : State W) : State W :=
  let s := setError None s in
  runSync fetch localeCompare token onLine
    (onStore
       (storage.putOutboxItem
          (OutboxItem.mk id1 delete_ (Entry.id entry) None now1))
       (onStore (storage.deleteEntry (Entry.id entry)) s)).

End Mutations.

(** ** [sortEntries]

    [getTime] is [new Date(_).getTime()], [None] for [NaN]; a comparator
    that returns [NaN] counts as one that returns 0. *)
Definition compareBrewedAt (getTime : string → option Z) (a b : Entry.t) : Z :=
  match getTime (Entry.brewedAt b), getTime (Entry.brewedAt a) with
  | Some tb, Some ta => tb - ta
  | _, _ => 0
  end.

Definition sortEntries (getTime : string → option Z) (l : list Entry.t)
  : list Entry.t :=
  sort (compareBrewedAt getTime) l.

(** ** [urlBase64ToUint8Array]

    [base64Of] is the string that the function hands to [window.atob];
    [atob] throws when that string is no base64. *)
Definition replaceAll (from to : ascii) (s : string) : string :=
  string_of_list_ascii
    (map (fun c => if bool_decide (c = from) then to else c)
         (list_ascii_of_string s)).

Definition base64Of (base64String : string) : string :=
  let padding :=
    string_of_list_ascii
      (repeat "="%char ((4 - (String.length base64String mod 4)) mod 4)%nat) in
  replaceAll "_" "/" (replaceAll "-" "+" (base64String +:+ padding)).

Definition urlBase64ToUint8Array (atob : string → Result string)
    (base64String : string) : Result (list Z) :=
  rawData ← atob (base64Of base64String);
  mret (map (fun c => Z.of_nat (nat_of_ascii c)) (list_ascii_of_string rawData)).

(** The message with which the adapter function that the drain calls for
    [req] throws on the reply [r] of the network, [None] when it returns
    as far as the status decides. *)
Definition thrown (req : Request) (r : Result Response) : option string :=
  match r with
  | Err m => Some m
  | Ok response =>
      if ok response then None
      else
        match req with
        | DELETE_entry _ =>
            if status response =? 404 then None
            else Some match json response with
                      | Ok (JError e) => e
                      | _ => "Request failed (" +:+ pretty (status response) +:+ ")"
                      end
        | _ => Some match json response with
                    | Ok (JError e) => e
                    | _ => "Request failed (" +:+ pretty (status response) +:+ ")"
                    end
        end
  end.

(** Both object stores keep their records under their ids. *)
Definition keyed (l : LocalStore) : Prop :=
  entries_keyed (entries l) ∧ outbox_keyed (outbox l).

(** The Local Store holds a pending [e1] and a synced [e3] that the server
    no longer lists; the server lists its [e1] and [e2]. *)
Definition entry_e3 : Entry.t :=
  Entry.mk "e3" "Colombia" "drip" "" 2 "2024-03-01T08:00:00Z"
    "2024-03-01T08:00:00Z" "2024-03-01T08:00:00Z" (Some synced).

Definition mixed_store : LocalStore :=
  mkStore (<["e1" := entry_e1]> (<["e3" := entry_e3]> ∅)) ∅.

Definition listing_e1_e2 : list (Result Response) :=
  [reply 200 (JEntries [server_e1; server_e2])].

(** A form for a new brew, and the clock of [new Date(_).getTime()] on the
    sample timestamps. *)
Definition form_kenya : Form.t :=
  Form.mk " Kenya AA " "espresso" "" 3 "2024-04-01T08:00".

Definition sample_getTime (iso : string) : option Z :=
  if bool_decide (iso = "2024-05-01T08:00:00.000Z") then Some 1714550400000
  else if bool_decide (iso = "2024-04-01T08:00:00Z") then Some 1711958400000
  else if bool_decide (iso = "2024-03-01T08:00:00Z") then Some 1709280000000
  else None.

(** ** More of the backend ([backend/main.go])

    [validateEntry], [Store.Delete], the SQL statements of [upsertEntry] and
    [deleteEntry], and the handlers of the routes [/api/entries] and
    [/api/entries/<id>] of the SQL server, behind [withAuth]. *)
Module server.

(** A slice without its first entry of that id; [None] when the loop of
    [Store.Delete] ends without a match. *)
Fixpoint delete_first (id : string) (l : list backend.Entry.t)
  : option (list backend.Entry.t) :=
  match l with
  | [] => None
  | entry :: l' =>
      if decide (backend.Entry.ID entry = id) then Some l'
      else l'' ← delete_first id l'; Some (entry :: l'')
  end.

(** [Store.Delete]; [saveErr] is the error of [s.save()]. *)
Definition Store_Delete (saveErr : option string) (id : string)
    (s : backend.Store) : backend.Store * (bool * option string) :=
  match delete_first id (backend.entries s) with
  | Some l =>
      let s' := backend.mkStore (backend.path s) l in
      match saveErr with
      | Some err => (s', (true, Some err))
      | None => (s', (true, None))
      end
  | None => (s, (false, None))
  end.

(** The key of a row of the table [entries]. *)
Definition key (r : backend.Row) : string * string :=
  (backend.user_id r, backend.id r).

(** The unique index that [ON CONFLICT (user_id, id)] of [upsertEntry]
    names: no two rows under one key. *)
Definition pk_unique (db : list backend.Row) : Prop := NoDup (key <$> db).

(** The requests that the routes of the entries serve. *)
Definition entryRoute (req : Request) : bool :=
  match req with
  | GET_entries | POST_entries _ | PUT_entry _ _ | DELETE_entry _ => true
  | POST_register _ _ | POST_login _ _ => false
  end.

(** What the SQL server keeps between requests: the table, and the number
    of requests served so far, which no code reads: it says which reading of
    the clock and which new id the next request gets. *)
Record Server := mkServer {
  table : list backend.Row;
  served : nat
}.

Section Handlers.
Variable TrimSpace : string → string.
Variable IsLetter : ascii → bool.
Variable IsDigit : ascii → bool.
Variable parseRFC3339 : string → option Z.
Variable formatRFC3339 : Z → string.

Definition validateEntry (input : backend.EntryInput.t) : option string :=
  match (backend.normalizeID TrimSpace IsLetter IsDigit
           (backend.EntryInput.ID input)).2 with
  | Some err => Some err
  | None =>
      if decide (TrimSpace (backend.EntryInput.Beans input) = "")
      then Some "beans is required"
      else if decide (TrimSpace (backend.EntryInput.BrewMethod input) = "")
      then Some "brew_method is required"
      else if decide (TrimSpace (backend.EntryInput.BrewedAt input) = "")
      then Some "brewed_at is required"
      else
        match parseRFC3339 (backend.EntryInput.BrewedAt input) with
        | None => Some "brewed_at must be RFC3339 (e.g. 2024-05-01T08:30:00Z)"
        | Some _ =>
            if (backend.EntryInput.Rating input <? 0)
               || (5 <? backend.EntryInput.Rating input)
            then Some "rating must be between 0 and 5"
            else None
        end
  end.

(** What [validateEntry] asks of the columns of a row. *)
Definition valid_row (r : backend.Row) : Prop :=
  TrimSpace (backend.beans r) ≠ ""
  ∧ TrimSpace (backend.brew_method r) ≠ ""
  ∧ 0 <= backend.rating r <= 5.

(** [upsertEntry]: [INSERT ... ON CONFLICT (user_id, id) DO UPDATE SET ...
    RETURNING ...].  [now] is [time.Now().UTC()], [fresh] what [newID()]
    returns. *)
Definition upsertEntry (now : Z) (fresh : string) (db : list backend.Row)
    (userID : string) (input : backend.EntryInput.t)
  : list backend.Row * (backend.Entry.t * option string) :=
  match backend.normalizeID TrimSpace IsLetter IsDigit
          (backend.EntryInput.ID input) with
  | (_, Some err) => (db, (backend.Entry.zero, Some err))
  | (id0, None) =>
      let id := if decide (id0 = "") then fresh else id0 in
      let brewed :=
        default backend.zeroTime
          (parseRFC3339 (backend.EntryInput.BrewedAt input)) in
      let updated := now in
      match find (backend.selected userID id) db with
      | Some old =>
          let row :=
            backend.mkRow (backend.id old) (backend.user_id old)
              (backend.EntryInput.Beans input)
              (backend.EntryInput.BrewMethod input)
              (backend.EntryInput.Notes input)
              (backend.EntryInput.Rating input) brewed
              (backend.created_at old) updated in
          (backend.sqlUpdate input brewed updated userID id db,
           (backend.rowEntry formatRFC3339 row, None))
      | None =>
          let row :=
            backend.mkRow id userID (backend.EntryInput.Beans input)
              (backend.EntryInput.BrewMethod input)
              (backend.EntryInput.Notes input)
              (backend.EntryInput.Rating input) brewed updated updated in
          (db ++ [row], (backend.rowEntry formatRFC3339 row, None))
      end
  end.

(** [deleteEntry]: [DELETE FROM entries WHERE user_id = $1 AND id = $2] *)
Definition deleteEntry (db : list backend.Row) (userID id0 : string)
  : list backend.Row * (bool * option string) :=
  match backend.normalizeID TrimSpace IsLetter IsDigit id0 with
  | (_, Some err) => (db, (false, Some err))
  | (id, None) =>
      (filter (fun r => negb (backend.selected userID id r)) db,
       (0 <? backend.rowsAffected userID id db, None))
  end.

(** The body of a request, decoded into [EntryInput] ([id] is [omitempty]),
    and an [Entry], encoded. *)
Definition decode (payload : EntryPayload.t) : backend.EntryInput.t :=
  backend.EntryInput.mk (default "" (EntryPayload.id payload))
    (EntryPayload.beans payload) (EntryPayload.brew_method payload)
    (EntryPayload.notes payload) (EntryPayload.rating payload)
    (EntryPayload.brewed_at payload).

Definition encode (entry : backend.Entry.t) : ServerEntry.t :=
  ServerEntry.mk (backend.Entry.ID entry) (backend.Entry.Beans entry)
    (backend.Entry.BrewMethod entry) (backend.Entry.Notes entry)
    (backend.Entry.Rating entry) (backend.Entry.BrewedAt entry)
    (backend.Entry.CreatedAt entry) (backend.Entry.UpdatedAt entry).

(** The entry of the device for a row that the server sends. *)
Definition onDevice (r : backend.Row) : Entry.t :=
  toEntry (encode (backend.rowEntry formatRFC3339 r)).

(** [writeJSON(w, status, map[string]string{"error": message})] *)
Definition failure (status : Z) (message : string) : Response :=
  mkResponse status (Ok (JError message)).

(** The handlers of [/api/entries] and [/api/entries/<id>] for the requests
    of the adapter, after [withAuth] has found the user [userID] in the
    token.  [Now n] is what [time.Now().UTC()] gives and [newID n] what
    [newID()] returns while the request number [n] is served.  The
    statements succeed and no two requests are served at once
    ([backend.quiet]), so of the answers 500 only those for an error of
    [normalizeID] are there.  The routes of [/api/auth/] are
    [authRoutes]. *)
Variable Now : nat → Z.
Variable newID : nat → string.
Variable authRoutes : Request → Server → Server * Response.
(** The error of [readJSON] for the body that carries a payload: a body
    over the limit of 1 MiB; the fields of a payload decode. *)
Variable readJSON : EntryPayload.t → option string.
(** The way of an entry id from the adapter to the handler.  The adapter
    writes the id into the URL as it is and the handler reads
    [r.URL.Path] without its prefix.  An id that [normalizeID] accepts is
    made of letters, digits, [-] and [_], with white space around them at
    most: it reaches the handler of [/api/entries/], and [normalizeID]
    gives there what it gives for the id (a blank id may arrive empty; it
    is answered 404 either way).  For every other id, [arrives] is what
    the URL parses to: the id that the handler of [/api/entries/] reads, or
    [None] when the request goes to another route, which answers
    [otherRoutes]; no other route writes the table [entries] on a [PUT] or
    a [DELETE]. *)
Variable arrives : string → option string.
Variable otherRoutes : Request → Response.

Definition pathId (id : string) : option string :=
  match (backend.normalizeID TrimSpace IsLetter IsDigit id).2 with
  | None => Some id
  | Some _ => arrives id
  end.

Definition answered (db : list backend.Row) (srv : Server) : Server :=
  mkServer db (S (served srv)).

Definition serve (userID : string) (req : Request) (srv : Server)
  : Server * Response :=
  match req with
  | GET_entries =>
      (answered (table srv) srv,
       mkResponse 200
         (Ok (JEntries
                (map encode
                   (backend.listEntries formatRFC3339 (table srv) userID)))))
  | POST_entries body =>
      match readJSON body with
      | Some err => (answered (table srv) srv, failure 400 err)
      | None =>
          let input := decode body in
          match validateEntry input with
          | Some err => (answered (table srv) srv, failure 400 err)
          | None =>
              match upsertEntry (Now (served srv)) (newID (served srv))
                      (table srv) userID input with
              | (db, (_, Some _)) =>
                  (answered db srv, failure 500 "failed to save entry")
              | (db, (entry, None)) =>
                  (answered db srv,
                   mkResponse 201 (Ok (JEntry (encode entry))))
              end
          end
      end
  | PUT_entry sent body =>
      match pathId sent with
      | None => (answered (table srv) srv, otherRoutes req)
      | Some id =>
          if decide (id = "")
          then (answered (table srv) srv, failure 404 "not found")
          else
            match readJSON body with
            | Some err => (answered (table srv) srv, failure 400 err)
            | None =>
                let input := decode body in
                match validateEntry input with
                | Some err => (answered (table srv) srv, failure 400 err)
                | None =>
                    match backend.updateEntry TrimSpace IsLetter IsDigit
                            parseRFC3339 formatRFC3339 (Now (served srv))
                            backend.quiet (table srv) userID id input with
                    | (db, (_, _, Some _)) =>
                        (answered db srv,
                         failure 500 "failed to update entry")
                    | (db, (_, false, None)) =>
                        (answered db srv, failure 404 "entry not found")
                    | (db, (entry, true, None)) =>
                        (answered db srv,
                         mkResponse 200 (Ok (JEntry (encode entry))))
                    end
                end
            end
      end
  | DELETE_entry sent =>
      match pathId sent with
      | None => (answered (table srv) srv, otherRoutes req)
      | Some id =>
          if decide (id = "")
          then (answered (table srv) srv, failure 404 "not found")
          else
            match deleteEntry (table srv) userID id with
            | (db, (_, Some _)) =>
                (answered db srv, failure 500 "failed to delete entry")
            | (db, (false, None)) =>
                (answered db srv, failure 404 "entry not found")
            | (db, (true, None)) =>
                (answered db srv,
                 mkResponse 204 (Err "Unexpected end of JSON input"))
            end
      end
  | POST_register _ _ | POST_login _ _ => authRoutes req srv
  end.

(** The network in front of a server that answers every request. *)
Definition reachable (userID : string) (req : Request) (srv : Server)
  : Server * Result Response :=
  let '(srv', response) := serve userID req srv in (srv', Ok response).

End Handlers.
End server.

(** A server that holds the row of [u1] and has served no request, the
    answer of the routes that the samples do not use, and a device in front
    of a server. *)
Definition server_x1 : server.Server := server.mkServer [row_x1] 0.

Definition no_route (req : Request) (srv : server.Server)
  : server.Server * Response :=
  (srv, server.failure 404 "not found").

(** The part of an id before its first [?] or [#]: what the path of the
    URL keeps of an id that holds one. *)
Fixpoint beforeQuery (id : string) : string :=
  match id with
  | String c id' =>
      if bool_decide (c = "?"%char) || bool_decide (c = "#"%char) then ""
      else String c (beforeQuery id')
  | EmptyString => ""
  end.

Definition sample_arrives (id : string) : option string :=
  Some (beforeQuery id).

Definition method_not_allowed (req : Request) : Response :=
  server.failure 405 "method not allowed".

Definition sample_network (userID : string) (req : Request)
    (srv : server.Server) : server.Server * Result Response :=
  server.reachable backend.asciiTrimSpace backend.asciiIsLetter
    backend.asciiIsDigit (fun _ => Some 1714550400) (fun t => pretty t)
    (fun _ => 1714636800) (fun _ => "0c") no_route (fun _ => None)
    sample_arrives method_not_allowed userID req srv.

(** A delete queued for an id that holds a query. *)
Definition delete_x1_query : OutboxItem.t :=
  OutboxItem.mk "o10" delete_ "x1?v=2" None "2024-05-05T10:00:00.000Z".

(** Another device deletes the entry [x1] of [u1] between the two
    statements of an update; and a [SELECT] that fails. *)
Definition deleted_meanwhile : backend.Run :=
  backend.mkRun None
    (fun db =>
       (server.deleteEntry backend.asciiTrimSpace backend.asciiIsLetter
          backend.asciiIsDigit db "u1" "x1").1)
    false.

Definition select_fails : backend.Run :=
  backend.mkRun None (fun db => db) true.

Definition on_server (store : LocalStore) (srv : server.Server)
  : State server.Server :=
  mkState store idle None srv [].

(** The row of [u1] as the device shows it. *)
Definition entry_x1 : Entry.t :=
  Entry.mk "x1" "Yirgacheffe" "pour_over" "" 4 "2024-05-01T08:00:00Z"
    "2024-05-01T08:01:00Z" "2024-05-01T08:01:00Z" (Some synced).

Definition update_e7 : OutboxItem.t :=
  OutboxItem.mk "o7" update "e7"
    (Some (EntryPayload.mk (Some "e7") "Kenya AA" "espresso" "" 3
             "2024-04-01T08:00:00.000Z"))
    "2024-05-03T10:00:00.000Z".

(** * Properties *)

(** ** The sort *)
Section SortFacts.
Context {A : Type} (cmp : A → A → Z).

Lemma sort_insert_perm (x : A) (l : list A) : sort_insert cmp x l ≡ₚ x :: l.
Proof.
  induction l as [|y l IH]; simpl; [done|].
  destruct (cmp x y <=? 0); [done|].
  rewrite IH. apply Permutation_swap.
Qed.

Lemma sort_perm (l : list A) : sort cmp l ≡ₚ l.
Proof.
  induction l as [|x l IH]; simpl; [done|].
  by rewrite sort_insert_perm, IH.
Qed.

Lemma sort_elem_of (x : A) (l : list A) : x ∈ sort cmp l ↔ x ∈ l.
Proof. by rewrite sort_perm. Qed.

Lemma sort_nil_inv (l : list A) : sort cmp l = [] → l = [].
Proof.
  intros H. apply Permutation_nil_r. rewrite <- H. by rewrite sort_perm.
Qed.

Hypothesis cmp_total : ∀ a b, cmp a b <= 0 ∨ cmp b a <= 0.

Lemma sort_insert_sorted (x : A) (l : list A) :
  Sorted (fun a b => cmp a b <= 0) l →
  Sorted (fun a b => cmp a b <= 0) (sort_insert cmp x l).
Proof.
  induction l as [|y l IH]; simpl; intros Hs.
  - repeat constructor.
  - destruct (Z.leb_spec (cmp x y) 0) as [Hle|Hgt].
    + constructor; [done|]. by constructor.
    + apply Sorted_inv in Hs as [Hs Hhd].
      constructor; [by apply IH|].
      destruct l as [|z l]; simpl.
      * constructor. destruct (cmp_total x y); lia.
      * destruct (cmp x z <=? 0); constructor.
        -- destruct (cmp_total x y); lia.
        -- by inversion Hhd.
Qed.

Lemma sort_sorted (l : list A) : Sorted (fun a b => cmp a b <= 0) (sort cmp l).
Proof.
  induction l as [|x l IH]; simpl; [constructor|].
  by apply sort_insert_sorted.
Qed.
End SortFacts.

(** ** The adapter *)
Section AdapterFacts.
Context {W : Type}.
Variable fetch : Request → W → W * Result Response.

Lemma bind_Ok_inv {A B} (r : Result A) (f : A → Result B) (b : B) :
  r ≫= f = Ok b → ∃ a, r = Ok a ∧ f a = Ok b.
Proof. destruct r as [a|m]; simpl; [eauto|done]. Qed.

Lemma toEntry_synced (entry : ServerEntry.t) :
  Entry.syncStatus (toEntry entry) = Some synced.
Proof. reflexivity. Qed.

Lemma fetchEntries_synced (w w' : W) (l : list Entry.t) :
  fetchEntries fetch w = (w', Ok l) →
  ∀ e, e ∈ l → Entry.syncStatus e = Some synced.
Proof.
  unfold fetchEntries. destruct (fetch GET_entries w) as [w1 r].
  intros [= _ H] e He.
  apply bind_Ok_inv in H as (resp & _ & H).
  apply bind_Ok_inv in H as (resp' & _ & H).
  apply bind_Ok_inv in H as (data & _ & [= <-]).
  apply list_elem_of_fmap in He as (x & -> & _). apply toEntry_synced.
Qed.

Lemma createEntry_synced (payload : EntryPayload.t) (w w' : W) (e : Entry.t) :
  createEntry fetch payload w = (w', Ok e) → Entry.syncStatus e = Some synced.
Proof.
  unfold createEntry. destruct (fetch _ w) as [w1 r].
  intros [= _ H].
  apply bind_Ok_inv in H as (resp & _ & H).
  apply bind_Ok_inv in H as (resp' & _ & H).
  apply bind_Ok_inv in H as (data & _ & [= <-]). apply toEntry_synced.
Qed.

Lemma updateEntry_synced (id : string) (payload : EntryPayload.t) (w w' : W)
    (e : Entry.t) :
  updateEntry fetch id payload w = (w', Ok e) → Entry.syncStatus e = Some synced.
Proof.
  unfold updateEntry. destruct (fetch _ w) as [w1 r].
  intros [= _ H].
  apply bind_Ok_inv in H as (resp & _ & H).
  apply bind_Ok_inv in H as (resp' & _ & H).
  apply bind_Ok_inv in H as (data & _ & [= <-]). apply toEntry_synced.
Qed.

(** A 404 reply to the delete request makes the adapter return. *)
Lemma deleteEntryRemote_404 (id : string) (w w' : W) (response : Response) :
  fetch (DELETE_entry id) w = (w', Ok response) →
  status response = 404 →
  deleteEntryRemote fetch id w = (w', Ok tt).
Proof.
  intros Hf Hs. unfold deleteEntryRemote. rewrite Hf. simpl.
  rewrite Hs. reflexivity.
Qed.
End AdapterFacts.

(** ** The Local Store keeps its records under their ids *)
Lemma entries_keyed_insert (m : gmap string Entry.t) (e : Entry.t) :
  entries_keyed m → entries_keyed (<[Entry.id e := e]> m).
Proof.
  intros Hm k e' Hk. destruct (decide (Entry.id e = k)) as [<-|Hne].
  - rewrite lookup_insert_eq in Hk. by injection Hk as <-.
  - rewrite lookup_insert_ne in Hk by done. by apply Hm.
Qed.

Lemma entries_keyed_delete (m : gmap string Entry.t) (k : string) :
  entries_keyed m → entries_keyed (base.delete k m).
Proof.
  intros Hm k' e Hk. apply lookup_delete_Some in Hk as [_ Hk]. by apply Hm.
Qed.

Lemma entries_keyed_empty : entries_keyed ∅.
Proof. intros k e H. by rewrite lookup_empty in H. Qed.

Lemma outbox_keyed_empty : outbox_keyed ∅.
Proof. intros k i H. by rewrite lookup_empty in H. Qed.

Lemma outbox_keyed_insert (m : gmap string OutboxItem.t) (i : OutboxItem.t) :
  outbox_keyed m → outbox_keyed (<[OutboxItem.id i := i]> m).
Proof.
  intros Hm k i' Hk. destruct (decide (OutboxItem.id i = k)) as [<-|Hne].
  - rewrite lookup_insert_eq in Hk. by injection Hk as <-.
  - rewrite lookup_insert_ne in Hk by done. by apply Hm.
Qed.

Lemma compareCodes_total (a b : string) :
  compareCodes a b <= 0 ∨ compareCodes b a <= 0.
Proof.
  unfold compareCodes. rewrite (String.compare_antisym a b).
  destruct (String.compare b a); simpl; lia.
Qed.

Lemma outbox_keyed_delete (m : gmap string OutboxItem.t) (k : string) :
  outbox_keyed m → outbox_keyed (base.delete k m).
Proof.
  intros Hm k' i Hk. apply lookup_delete_Some in Hk as [_ Hk]. by apply Hm.
Qed.

Lemma getAll_perm {V} (m : gmap string V) : getAll m ≡ₚ (map_to_list m).*2.
Proof. unfold getAll. by rewrite sort_perm. Qed.

Lemma getAll_elem_of {V} (m : gmap string V) (x : V) :
  x ∈ getAll m ↔ ∃ k, m !! k = Some x.
Proof.
  rewrite getAll_perm, list_elem_of_fmap. split.
  - intros ([k i] & -> & H). exists k. by apply elem_of_map_to_list in H.
  - intros [k H]. exists (k, x). split; [done|]. by apply elem_of_map_to_list.
Qed.

(** The keys of the listed records are pairwise distinct. *)
Lemma getAll_NoDup {V} (m : gmap string V) (key : V → string) :
  (∀ k x, m !! k = Some x → key x = k) →
  NoDup (map key (getAll m)).
Proof.
  intros Hk. rewrite getAll_perm.
  assert (map key (map_to_list m).*2 = (map_to_list m).*1) as ->.
  { rewrite <- list_fmap_compose. apply list_fmap_ext.
    intros i [k it] Hi. simpl. apply Hk.
    apply elem_of_map_to_list. eapply list_elem_of_lookup_2, Hi. }
  apply NoDup_fst_map_to_list.
Qed.

Lemma getOutboxItems_elem_of (l : LocalStore) (item : OutboxItem.t) :
  item ∈ storage.getOutboxItems l ↔ ∃ k, outbox l !! k = Some item.
Proof. apply getAll_elem_of. Qed.

Lemma getAllEntries_elem_of (l : LocalStore) (e : Entry.t) :
  e ∈ storage.getAllEntries l ↔ ∃ k, entries l !! k = Some e.
Proof. apply getAll_elem_of. Qed.

Lemma getOutboxItems_NoDup (l : LocalStore) :
  outbox_keyed (outbox l) →
  NoDup (map OutboxItem.id (storage.getOutboxItems l)).
Proof. apply getAll_NoDup. Qed.

Lemma getAllEntries_NoDup (l : LocalStore) :
  entries_keyed (entries l) →
  NoDup (map Entry.id (storage.getAllEntries l)).
Proof. apply getAll_NoDup. Qed.

(** ** The drain *)
Section DrainFacts.
Context {W : Type}.
Variable fetch : Request → W → W * Result Response.
Variable localeCompare : string → string → Z.

Lemma remote_eq {A} (req : Request) (call : W → W * Result A) (s : State W) :
  remote req call s
  = (mkState (local s) (syncState s) (error s) (call (net s)).1
       (calls s ++ [mkCall req (is_ok (call (net s)).2)]),
     (call (net s)).2).
Proof. unfold remote. by destruct (call (net s)). Qed.

(** What the remote part of the [try] block does to the state: it adds the
    call to the history and changes the world behind the network, nothing
    else; an entry that it hands on for [putEntry] is [synced]. *)
Lemma callRemote_spec (item : OutboxItem.t) (s : State W) :
  ∃ w' r,
    callRemote fetch item s
    = (mkState (local s) (syncState s) (error s) w'
         (calls s ++ callsOf (is_ok r) item), r)
    ∧ (∀ e, r = Ok (Some e) → Entry.syncStatus e = Some synced)
    ∧ (requestOf item = None → w' = net s ∧ r = Ok None).
Proof.
  unfold callRemote, callsOf, requestOf.
  destruct (OutboxItem.action item), (OutboxItem.payload item) as [payload|];
    try rewrite remote_eq; simpl.
  - destruct (createEntry _ _ _) as [w' [e|m]]; simpl.
    + exists w', (Ok (Some (Entry.with_syncStatus e synced))).
      repeat split; try done. by intros e' [= <-].
    + exists w', (Err m). repeat split; done.
  - exists (net s), (Ok None). destruct s; simpl. by rewrite app_nil_r.
  - destruct (updateEntry _ _ _ _) as [w' [e|m]]; simpl.
    + exists w', (Ok (Some (Entry.with_syncStatus e synced))).
      repeat split; try done. by intros e' [= <-].
    + exists w', (Err m). repeat split; done.
  - exists (net s), (Ok None). destruct s; simpl. by rewrite app_nil_r.
  - destruct (deleteEntryRemote _ _ _) as [w' [[]|m]]; simpl.
    + exists w', (Ok None). repeat split; done.
    + exists w', (Err m). repeat split; done.
  - destruct (deleteEntryRemote _ _ _) as [w' [[]|m]]; simpl.
    + exists w', (Ok None). repeat split; done.
    + exists w', (Err m). repeat split; done.
Qed.

Lemma drainItem_Ok (item : OutboxItem.t) (s s' : State W) (u : unit) :
  drainItem fetch item s = (s', Ok u) →
  outbox (local s') = base.delete (OutboxItem.id item) (outbox (local s))
  ∧ calls s' = calls s ++ callsOf true item
  ∧ syncState s' = syncState s
  ∧ error s' = error s
  ∧ (entries (local s') = entries (local s)
     ∨ ∃ e, Entry.syncStatus e = Some synced
            ∧ entries (local s') = <[Entry.id e := e]> (entries (local s))).
Proof.
  unfold drainItem.
  destruct (callRemote_spec item s) as (w' & r & -> & Hsynced & _).
  destruct r as [[e|]|m]; intros [= <-]; simpl; repeat split; eauto.
Qed.

Lemma drainItem_Err (item : OutboxItem.t) (s s' : State W) (m : string) :
  drainItem fetch item s = (s', Err m) →
  local s' = local s
  ∧ calls s' = calls s ++ callsOf false item
  ∧ syncState s' = syncState s
  ∧ error s' = error s
  ∧ is_Some (requestOf item).
Proof.
  unfold drainItem.
  destruct (callRemote_spec item s) as (w' & r & -> & _ & Hnone).
  destruct r as [written|m']; intros [= <- <-]; simpl; repeat split.
  destruct (requestOf item); [eauto|]. by destruct Hnone.
Qed.

Lemma removeAll_lookup (items : list OutboxItem.t) (m : gmap string OutboxItem.t)
    (k : string) :
  removeAll items m !! k
  = if decide (k ∈ map OutboxItem.id items) then None else m !! k.
Proof.
  revert m. induction items as [|i items IH]; intros m; simpl.
  - destruct (decide (k ∈ [])) as [H|H]; [|done]. by apply elem_of_nil in H.
  - unfold removeAll in *. rewrite IH.
    destruct (decide (k ∈ map OutboxItem.id items)) as [Hin|Hout].
    + rewrite decide_True; [done|]. by right.
    + destruct (decide (k = OutboxItem.id i)) as [->|Hne].
      * rewrite decide_True by (by left). apply lookup_delete_eq.
      * rewrite decide_False.
        -- by rewrite lookup_delete_ne.
        -- intros [->|H]%elem_of_cons; done.
Qed.

(** The drain, item by item: it runs the [try] block of the items before the
    first failing one, in order, and of no other; the history gets one
    successful call for each of them that has a request, then the failed
    call; the outbox store loses the items that were run and no other; the
    sync state is not touched; the error is set exactly when a call failed. *)
Lemma drain_spec (items ran kept : list OutboxItem.t) (s : State W) :
  drained fetch items s = (ran, kept) →
  items = ran ++ kept
  ∧ calls (drain fetch items s)
    = calls s ++ concat (map (callsOf true) ran)
        ++ match kept with failing :: _ => callsOf false failing | [] => [] end
  ∧ outbox (local (drain fetch items s)) = removeAll ran (outbox (local s))
  ∧ syncState (drain fetch items s) = syncState s
  ∧ match kept with
    | failing :: _ =>
        is_Some (error (drain fetch items s)) ∧ is_Some (requestOf failing)
    | [] => error (drain fetch items s) = error s
    end.
Proof.
  revert ran kept s. induction items as [|item rest IH]; intros ran kept s; simpl.
  - intros [= <- <-]. simpl. by rewrite app_nil_r.
  - destruct (drainItem fetch item s) as [s' [u|m]] eqn:Hitem.
    + destruct (drained fetch rest s') as [ran' kept'] eqn:Hrest.
      intros [= <- <-].
      apply drainItem_Ok in Hitem as (Hout & Hcalls & Hsync & Herr & _).
      destruct (IH _ _ _ Hrest) as (-> & Hc & Ho & Hs & He).
      repeat split.
      * rewrite Hc, Hcalls. simpl. by rewrite <- !app_assoc.
      * rewrite Ho, Hout. done.
      * congruence.
      * destruct kept'; [|done]. congruence.
    + intros [= <- <-].
      apply drainItem_Err in Hitem as (Hloc & Hcalls & Hsync & Herr & Hreq).
      simpl. repeat split; try done.
      by rewrite Hloc.
Qed.

(** Every entry that a drain leaves in the entries store was there before
    or is [synced]. *)
Lemma drain_entries (items : list OutboxItem.t) (s : State W) (k : string)
    (e : Entry.t) :
  entries (local (drain fetch items s)) !! k = Some e →
  entries (local s) !! k = Some e ∨ Entry.syncStatus e = Some synced.
Proof.
  revert s. induction items as [|item rest IH]; intros s; simpl; [eauto|].
  destruct (drainItem fetch item s) as [s' [u|m]] eqn:Hitem.
  - intros H. apply IH in H as [H|H]; [|by right].
    apply drainItem_Ok in Hitem as (_ & _ & _ & _ & [Heq|(e' & Hs & Heq)]).
    + left. by rewrite <- Heq.
    + rewrite Heq in H. destruct (decide (Entry.id e' = k)) as [<-|Hne].
      * rewrite lookup_insert_eq in H. injection H as <-. by right.
      * rewrite lookup_insert_ne in H by done. by left.
  - apply drainItem_Err in Hitem as (Hloc & _). simpl. rewrite Hloc. eauto.
Qed.
End DrainFacts.

(** ** Claims about the drain *)
Section DrainClaims.
Context {W : Type}.
Variable fetch : Request → W → W * Result Response.
Variable localeCompare : string → string → Z.

(** C10.  Every entry that the Remote Client adapter produces, by
    [fetchEntries], [createEntry] or [updateEntry], has [syncStatus]
    [synced]; every entry that the drain hands to [putEntry] after a remote
    create or update is [synced]; and every entry found in the Local Store
    after [processOutbox] was there before with the same value or is
    [synced]: a drain writes no pending entry. *)
Theorem adapter_and_drain_write_synced :
  (∀ w w' l e,
     fetchEntries fetch w = (w', Ok l) → e ∈ l →
     Entry.syncStatus e = Some synced)
  ∧ (∀ payload w w' e,
       createEntry fetch payload w = (w', Ok e) →
       Entry.syncStatus e = Some synced)
  ∧ (∀ id payload w w' e,
       updateEntry fetch id payload w = (w', Ok e) →
       Entry.syncStatus e = Some synced)
  ∧ (∀ item s s' e,
       callRemote fetch item s = (s', Ok (Some e)) →
       Entry.syncStatus e = Some synced)
  ∧ (∀ token s k e,
       entries (local (processOutbox fetch localeCompare token s)) !! k = Some e →
       entries (local s) !! k = Some e ∨ Entry.syncStatus e = Some synced).
Proof.
  repeat split.
  - intros w w' l e H He. by eapply fetchEntries_synced.
  - intros payload w w' e H. by eapply createEntry_synced.
  - intros id payload w w' e H. by eapply updateEntry_synced.
  - intros item s s' e H.
    destruct (callRemote_spec fetch item s) as (w' & r & Heq & Hs & _).
    rewrite Heq in H. injection H as _ ->. by apply Hs.
  - intros token s k e. unfold processOutbox.
    destruct (has_token token); simpl; [|eauto]. apply drain_entries.
Qed.

(** C7.  A queued delete whose entry the server no longer has: the reply to
    the delete request is a 404, the adapter returns instead of throwing,
    and the drain counts the call as a success, removes the outbox item and
    reports no error.  With that item alone in the outbox, the outbox is
    empty afterwards. *)
Theorem stale_delete_is_drained (token : option string) (s : State W)
    (item : OutboxItem.t) (w' : W) (response : Response) :
  has_token token = true →
  outbox (local s) = {[ OutboxItem.id item := item ]} →
  OutboxItem.action item = delete_ →
  fetch (DELETE_entry (OutboxItem.entryId item)) (net s) = (w', Ok response) →
  status response = 404 →
  let s' := processOutbox fetch localeCompare token s in
  deleteEntryRemote fetch (OutboxItem.entryId item) (net s) = (w', Ok tt)
  ∧ outbox (local s') = ∅
  ∧ entries (local s') = entries (local s)
  ∧ error s' = error s
  ∧ calls s' = calls s ++ [mkCall (DELETE_entry (OutboxItem.entryId item)) true].
Proof.
  intros Htok Hout Hact Hfetch H404 s'.
  pose proof (deleteEntryRemote_404 fetch _ _ _ _ Hfetch H404) as Hdel.
  split; [done|].
  subst s'. unfold processOutbox. rewrite Htok. simpl.
  unfold refreshOutbox, storage.getOutboxItems, getAll.
  rewrite Hout, map_to_list_singleton. simpl.
  unfold drainItem, callRemote. rewrite Hact.
  assert (remote (DELETE_entry (OutboxItem.entryId item))
            (deleteEntryRemote fetch (OutboxItem.entryId item)) s
          = (mkState (local s) (syncState s) (error s) w'
               (calls s ++ [mkCall (DELETE_entry (OutboxItem.entryId item)) true]),
             Ok tt)) as Hrem.
  { rewrite remote_eq, Hdel. done. }
  destruct (OutboxItem.payload item); rewrite Hrem; simpl;
    rewrite Hout, delete_singleton_eq; done.
Qed.

End DrainClaims.

Lemma adapter_and_drain_write_synced_witness :
  createEntry scripted payload_e1 [reply 201 (JEntry server_e1_created)]
  = ([], Ok (toEntry server_e1_created))
  ∧ Entry.syncStatus (toEntry server_e1_created) = Some synced
  ∧ ∀ k e,
      entries (local (processOutbox scripted compareCodes (Some "token")
                        (device single_store accepted_once))) !! k = Some e →
      entries single_store !! k = Some e ∨ Entry.syncStatus e = Some synced.
Proof.
  split; [reflexivity|]. split.
  - exact (proj1 (proj2 (adapter_and_drain_write_synced scripted compareCodes))
             payload_e1 [reply 201 (JEntry server_e1_created)] []
             (toEntry server_e1_created) eq_refl).
  - exact (proj2 (proj2 (proj2 (proj2
             (adapter_and_drain_write_synced scripted compareCodes))))
             (Some "token") (device single_store accepted_once)).
Defined.

Lemma stale_delete_is_drained_witness :
  has_token (Some "token") = true
  ∧ status (mkResponse 404 (Ok (JError "entry not found"))) = 404
  ∧ outbox (local (processOutbox scripted compareCodes (Some "token")
                     (device (mkStore ∅ {[ "o9" := delete_e9 ]}) [not_found])))
    = ∅.
Proof.
  split; [reflexivity|]. split; [reflexivity|].
  exact (proj1 (proj2
    (stale_delete_is_drained scripted compareCodes (Some "token")
       (device (mkStore ∅ {[ "o9" := delete_e9 ]}) [not_found])
       delete_e9 [] (mkResponse 404 (Ok (JError "entry not found")))
       eq_refl eq_refl eq_refl eq_refl eq_refl))).
Defined.

Section OrderClaims.
Context {W : Type}.
Variable fetch : Request → W → W * Result Response.
Variable localeCompare : string → string → Z.

Lemma refreshOutbox_perm (s : State W) :
  refreshOutbox localeCompare s ≡ₚ storage.getOutboxItems (local s).
Proof. apply sort_perm. Qed.

Lemma refreshOutbox_NoDup (s : State W) :
  outbox_keyed (outbox (local s)) →
  NoDup (map OutboxItem.id (refreshOutbox localeCompare s)).
Proof.
  intros Hk. rewrite refreshOutbox_perm. by apply getOutboxItems_NoDup.
Qed.

Lemma refreshOutbox_lookup (s : State W) (item : OutboxItem.t) :
  outbox_keyed (outbox (local s)) →
  item ∈ refreshOutbox localeCompare s →
  outbox (local s) !! OutboxItem.id item = Some item.
Proof.
  intros Hk Hin. rewrite refreshOutbox_perm in Hin.
  apply getOutboxItems_elem_of in Hin as [k Hin].
  by rewrite (Hk _ _ Hin).
Qed.

(** What [processOutbox] leaves: the history and the outbox store after the
    drain of the sorted items. *)
Lemma processOutbox_outcome (token : option string) (s : State W) :
  outbox_keyed (outbox (local s)) →
  has_token token = true →
  let items := refreshOutbox localeCompare s in
  let ran := (drained fetch items s).1 in
  let kept := (drained fetch items s).2 in
  let s' := processOutbox fetch localeCompare token s in
  items = ran ++ kept
  ∧ calls s'
    = calls s ++ concat (map (callsOf true) ran)
        ++ match kept with failing :: _ => callsOf false failing | [] => [] end
  ∧ (∀ item, item ∈ kept → outbox (local s') !! OutboxItem.id item = Some item)
  ∧ (∀ item, item ∈ ran → outbox (local s') !! OutboxItem.id item = None)
  ∧ outbox (local s') = removeAll ran (outbox (local s))
  ∧ syncState s' = syncState s
  ∧ match kept with
    | failing :: _ => is_Some (error s') ∧ is_Some (requestOf failing)
    | [] => error s' = error s
    end.
Proof.
  intros Hk Htok items ran kept s'.
  destruct (drained fetch items s) as [ran0 kept0] eqn:Hd.
  simpl in ran, kept. subst ran kept.
  destruct (drain_spec fetch _ _ _ _ Hd) as (Hsplit & Hcalls & Hout & Hsync & Herr).
  assert (s' = drain fetch items s) as Hs'.
  { subst s'. unfold processOutbox. by rewrite Htok. }
  split; [done|]. split; [by rewrite Hs'|].
  pose proof (refreshOutbox_NoDup s Hk) as Hnd. fold items in Hnd.
  rewrite Hsplit, map_app in Hnd. apply NoDup_app in Hnd as (_ & Hdisj & _).
  rewrite Hs', Hout. repeat split; try done.
  - intros item Hin. rewrite removeAll_lookup, decide_False.
    + apply refreshOutbox_lookup; [done|]. fold items. rewrite Hsplit.
      apply elem_of_app. by right.
    + intros Hran. apply (Hdisj _ Hran). by apply list_elem_of_fmap_2.
  - intros item Hin. rewrite removeAll_lookup, decide_True; [done|].
    by apply list_elem_of_fmap_2.
Qed.

(** C5, as the code has it.  The drain takes the outbox items in
    non-decreasing [queuedAt] order (the list is the stored items, sorted;
    items with the same [queuedAt] are all taken).  It stops at the first
    item whose call fails: the history gets the calls of the items before
    it, in order, then the failed call, and no call of a later item; the
    failing item and every later one are still in the outbox store with
    their value, and the items before it are gone. *)
Theorem drain_in_order_stops_at_failure (token : option string) (s : State W) :
  (∀ a b, localeCompare a b <= 0 ∨ localeCompare b a <= 0) →
  outbox_keyed (outbox (local s)) →
  has_token token = true →
  let items := refreshOutbox localeCompare s in
  let ran := (drained fetch items s).1 in
  let kept := (drained fetch items s).2 in
  let s' := processOutbox fetch localeCompare token s in
  items ≡ₚ storage.getOutboxItems (local s)
  ∧ Sorted (fun a b =>
              localeCompare (OutboxItem.queuedAt a) (OutboxItem.queuedAt b) <= 0)
           items
  ∧ items = ran ++ kept
  ∧ calls s'
    = calls s ++ concat (map (callsOf true) ran)
        ++ match kept with failing :: _ => callsOf false failing | [] => [] end
  ∧ (∀ item, item ∈ kept → outbox (local s') !! OutboxItem.id item = Some item)
  ∧ (∀ item, item ∈ ran → outbox (local s') !! OutboxItem.id item = None).
Proof.
  intros Htotal Hk Htok items ran kept s'.
  destruct (processOutbox_outcome token s Hk Htok) as (H1 & H2 & H3 & H4 & _).
  split; [apply refreshOutbox_perm|].
  split; [apply (sort_sorted (compareQueuedAt localeCompare));
          intros a b; apply Htotal|].
  done.
Qed.

End OrderClaims.

Lemma tied_outbox_keyed : outbox_keyed (outbox tied_outbox).
Proof.
  apply (outbox_keyed_insert _ delete_e8), (outbox_keyed_insert _ delete_e9),
    outbox_keyed_empty.
Defined.

Lemma unsynced_store_keyed : outbox_keyed (outbox unsynced_store).
Proof.
  apply (outbox_keyed_insert _ create_e1), (outbox_keyed_insert _ delete_e9),
    outbox_keyed_empty.
Defined.

Lemma drain_in_order_stops_at_failure_witness :
  has_token (Some "token") = true
  ∧ (drained scripted
       (refreshOutbox compareCodes (device unsynced_store rejected_then_listing))
       (device unsynced_store rejected_then_listing)).2
    = [create_e1; delete_e9]
  ∧ ∀ item,
      item ∈ (drained scripted
                (refreshOutbox compareCodes
                   (device unsynced_store rejected_then_listing))
                (device unsynced_store rejected_then_listing)).2 →
      outbox (local (processOutbox scripted compareCodes (Some "token")
                       (device unsynced_store rejected_then_listing)))
        !! OutboxItem.id item = Some item.
Proof.
  split; [reflexivity|]. split; [vm_compute; reflexivity|].
  exact (proj1 (proj2 (proj2 (proj2 (proj2
    (drain_in_order_stops_at_failure scripted compareCodes (Some "token")
       (device unsynced_store rejected_then_listing)
       compareCodes_total unsynced_store_keyed eq_refl)))))).
Defined.

(** C5, as the claim states it, fails: two items queued in the same
    millisecond are both drained, one after the other, so the order in which
    the drain takes the items is not strictly ascending in [queuedAt]. *)
Lemma equal_queuedAt_not_strictly_ascending :
  map OutboxItem.queuedAt
    (refreshOutbox compareCodes (device tied_outbox [no_content; no_content]))
  = ["2024-05-02T10:00:00.000Z"; "2024-05-02T10:00:00.000Z"]
  ∧ calls (processOutbox scripted compareCodes (Some "token")
             (device tied_outbox [no_content; no_content]))
    = [mkCall (DELETE_entry "e8") true; mkCall (DELETE_entry "e9") true]
  ∧ ¬ Sorted (fun a b =>
                compareCodes (OutboxItem.queuedAt a) (OutboxItem.queuedAt b) < 0)
        (refreshOutbox compareCodes (device tied_outbox [no_content; no_content])).
Proof.
  split; [vm_compute; reflexivity|]. split; [vm_compute; reflexivity|].
  intros H.
  assert (refreshOutbox compareCodes (device tied_outbox [no_content; no_content])
          = [delete_e8; delete_e9]) as Heq by (vm_compute; reflexivity).
  rewrite Heq in H. apply Sorted_inv in H as [_ H].
  apply HdRel_inv in H. vm_compute in H. discriminate H.
Qed.

(** ** Claims about a pass *)
Section PassClaims.
Context {W : Type}.
Variable fetch : Request → W → W * Result Response.
Variable localeCompare : string → string → Z.

Lemma syncFromServer_eq (s : State W) :
  syncFromServer fetch s
  = match (fetchEntries fetch (net s)).2 with
    | Ok remoteEntries =>
        (mkState
           (storage.putEntries
              (merge (storage.getAllEntries (local s)) remoteEntries)
              (storage.clearEntries (local s)))
           (syncState s) (error s) (fetchEntries fetch (net s)).1
           (calls s ++ [mkCall GET_entries true]),
         Ok tt)
    | Err m =>
        (mkState (local s) (syncState s) (error s) (fetchEntries fetch (net s)).1
           (calls s ++ [mkCall GET_entries false]),
         Err m)
    end.
Proof.
  unfold syncFromServer. rewrite remote_eq.
  by destruct (fetchEntries fetch (net s)) as [w' [l|m]].
Qed.

(** [runSync] with a token and the browser on line, in terms of its two
    steps. *)
Lemma runSync_eq (token : option string) (s : State W) :
  has_token token = true →
  runSync fetch localeCompare token true s
  = let s1 :=
      processOutbox fetch localeCompare token
        (setError None (setSyncState syncing s)) in
    match syncFromServer fetch s1 with
    | (s', Ok _) => setSyncState idle s'
    | (s', Err m) => setSyncState offline (setError (Some m) s')
    end.
Proof. intros Htok. unfold runSync. by rewrite Htok. Qed.

(** C1, as the code has it.  When a call of the drain fails, the drain
    stops and records the failure, and the failing item and every later one
    stay in the outbox store with their value through the whole pass.  The
    pass goes on to the reconcile step.  If the listing succeeds, the entries
    store is replaced by the merged set, the sync state becomes [idle] and
    the message of the drain's failure is kept; if the listing fails, the
    Local Store is left as the drain left it, the sync state becomes
    [offline] and the message is that of the listing. *)
Theorem drain_failure_does_not_abort_pass (token : option string) (s : State W) :
  has_token token = true →
  outbox_keyed (outbox (local s)) →
  let s0 := setError None (setSyncState syncing s) in
  let kept := (drained fetch (refreshOutbox localeCompare s0) s0).2 in
  let s1 := processOutbox fetch localeCompare token s0 in
  let s' := runSync fetch localeCompare token true s in
  kept ≠ [] →
  is_Some (error s1)
  ∧ (∀ item, item ∈ kept → outbox (local s') !! OutboxItem.id item = Some item)
  ∧ match (fetchEntries fetch (net s1)).2 with
    | Ok remoteEntries =>
        syncState s' = idle
        ∧ error s' = error s1
        ∧ local s'
          = storage.putEntries
              (merge (storage.getAllEntries (local s1)) remoteEntries)
              (storage.clearEntries (local s1))
    | Err m =>
        syncState s' = offline ∧ error s' = Some m ∧ local s' = local s1
    end.
Proof.
  intros Htok Hk s0 kept s1 s' Hkept.
  assert (outbox_keyed (outbox (local s0))) as Hk0 by done.
  destruct (processOutbox_outcome fetch localeCompare token s0 Hk0 Htok)
    as (_ & _ & Hstay & _ & _ & _ & Herr).
  fold kept s1 in Hstay, Herr.
  assert (outbox (local s') = outbox (local s1)
          ∧ match (fetchEntries fetch (net s1)).2 with
            | Ok remoteEntries =>
                syncState s' = idle
                ∧ error s' = error s1
                ∧ local s'
                  = storage.putEntries
                      (merge (storage.getAllEntries (local s1)) remoteEntries)
                      (storage.clearEntries (local s1))
            | Err m =>
                syncState s' = offline ∧ error s' = Some m ∧ local s' = local s1
            end) as [Hout Hrest].
  { subst s'. rewrite runSync_eq by done. simpl. fold s0. fold s1.
    rewrite syncFromServer_eq.
    destruct (fetchEntries fetch (net s1)).2 as [l|m]; simpl; done. }
  split; [|split; [|done]].
  - destruct kept; [done|]. by destruct Herr.
  - intros item Hin. rewrite Hout. by apply Hstay.
Qed.

End PassClaims.

Lemma drain_failure_does_not_abort_pass_witness :
  has_token (Some "token") = true
  ∧ (drained scripted
       (refreshOutbox compareCodes
          (setError None
             (setSyncState syncing (device unsynced_store rejected_then_listing))))
       (setError None
          (setSyncState syncing (device unsynced_store rejected_then_listing)))).2
    ≠ []
  ∧ is_Some
      (error
         (processOutbox scripted compareCodes (Some "token")
            (setError None
               (setSyncState syncing
                  (device unsynced_store rejected_then_listing))))).
Proof.
  split; [reflexivity|].
  assert ((drained scripted
       (refreshOutbox compareCodes
          (setError None
             (setSyncState syncing (device unsynced_store rejected_then_listing))))
       (setError None
          (setSyncState syncing (device unsynced_store rejected_then_listing)))).2
    ≠ []) as Hkept by (vm_compute; discriminate).
  split; [exact Hkept|].
  exact (proj1
    (drain_failure_does_not_abort_pass scripted compareCodes (Some "token")
       (device unsynced_store rejected_then_listing)
       eq_refl unsynced_store_keyed Hkept)).
Defined.

(** C1, as the claim states it, fails: the server rejects the create of the
    first outbox item and answers the listing; the pass does run the
    reconcile step (the listing is requested, the entry [e2] of the server
    arrives in the Local Store) and ends [idle], not [offline]. *)
Lemma failed_drain_still_reconciles :
  calls (runSync scripted compareCodes (Some "token") true
           (device unsynced_store rejected_then_listing))
  = [mkCall (POST_entries payload_e1) false; mkCall GET_entries true]
  ∧ syncState (runSync scripted compareCodes (Some "token") true
                 (device unsynced_store rejected_then_listing))
    = idle
  ∧ entries unsynced_store !! "e2" = None
  ∧ entries (local (runSync scripted compareCodes (Some "token") true
                      (device unsynced_store rejected_then_listing))) !! "e2"
    = Some (toEntry server_e2).
Proof. repeat split; vm_compute; reflexivity. Qed.

(** ** The merge *)
Lemma Map_get_set {V} (k k' : string) (v : V) (m : list (string * V)) :
  Map_get k (Map_set k' v m) = if decide (k' = k) then Some v else Map_get k m.
Proof.
  induction m as [|[k0 v0] m IH]; simpl.
  - done.
  - destruct (decide (k0 = k')) as [->|Hne]; simpl.
    + destruct (decide (k' = k)); done.
    + rewrite IH. destruct (decide (k0 = k)) as [->|]; [|done].
      by rewrite decide_False.
Qed.

Lemma Map_set_fresh {V} (k : string) (v : V) (m : list (string * V)) :
  k ∉ m.*1 → Map_set k v m = m ++ [(k, v)].
Proof.
  induction m as [|[k0 v0] m IH]; simpl; intros Hk; [done|].
  apply not_elem_of_cons in Hk as [Hne Hk].
  rewrite decide_False by done. by rewrite IH.
Qed.

(** With pairwise distinct keys the map lists its pairs as they were given. *)
Lemma Map_new_NoDup {V} (kvs : list (string * V)) :
  NoDup kvs.*1 → Map_new kvs = kvs.
Proof.
  unfold Map_new. intros Hnd.
  enough (∀ acc, NoDup (acc ++ kvs).*1 →
            foldl (fun m kv => Map_set kv.1 kv.2 m) acc kvs = acc ++ kvs) as H.
  { apply (H []). done. }
  clear Hnd. induction kvs as [|[k v] kvs IH]; intros acc Hnd; simpl.
  - by rewrite app_nil_r.
  - rewrite Map_set_fresh.
    + rewrite IH; rewrite <- app_assoc; done.
    + rewrite fmap_app in Hnd. apply NoDup_app in Hnd as (_ & Hd & _).
      intros Hin. apply (Hd _ Hin). simpl. by left.
Qed.

Lemma Map_get_Some {V} (k : string) (v : V) (kvs : list (string * V)) :
  NoDup kvs.*1 → Map_get k kvs = Some v ↔ (k, v) ∈ kvs.
Proof.
  induction kvs as [|[k0 v0] kvs IH]; simpl; intros Hnd.
  - split; [done|]. intros H. by apply elem_of_nil in H.
  - apply NoDup_cons in Hnd as [Hk0 Hnd].
    destruct (decide (k0 = k)) as [->|Hne].
    + split.
      * intros [= ->]. by left.
      * intros [[= ->]|Hin]%elem_of_cons; [done|].
        exfalso. apply Hk0. by apply (list_elem_of_fmap_2 fst _ (k, v)).
    + rewrite IH by done. split.
      * intros H. by right.
      * intros [[= -> ->]|Hin]%elem_of_cons; done.
Qed.

Lemma Map_get_None {V} (k : string) (kvs : list (string * V)) :
  Map_get k kvs = None ↔ k ∉ kvs.*1.
Proof.
  induction kvs as [|[k0 v0] kvs IH]; simpl.
  - split; [|done]. intros _ H. by apply elem_of_nil in H.
  - destruct (decide (k0 = k)) as [->|Hne].
    + split; [done|]. intros H. exfalso. apply H. by left.
    + rewrite IH. split.
      * intros H [->|Hin]%elem_of_cons; done.
      * intros H Hin. apply H. by right.
Qed.

(** The second loop of the merge, as a function of the pending entries. *)
Lemma merge_foldl (ps : list Entry.t) (acc : list Entry.t) :
  foldl (fun merged (kv : string * Entry.t) =>
           if has_id (Entry.id kv.2) merged then merged else merged ++ [kv.2])
        acc (map (fun entry => (Entry.id entry, entry)) ps)
  = foldl (fun merged entry =>
             if has_id (Entry.id entry) merged then merged else merged ++ [entry])
          acc ps.
Proof. revert acc. induction ps as [|p ps IH]; intros acc; simpl; [done|apply IH]. Qed.

Lemma has_id_true (id : string) (l : list Entry.t) :
  has_id id l = true ↔ ∃ x, x ∈ l ∧ Entry.id x = id.
Proof.
  unfold has_id. rewrite existsb_exists. split.
  - intros (x & Hin & Hx). exists x. split; [by apply list_elem_of_In|].
    by apply bool_decide_eq_true_1 in Hx.
  - intros (x & Hin & Hx). exists x. split; [by apply list_elem_of_In|].
    by apply bool_decide_eq_true_2.
Qed.

Lemma appended_elem_of (ps acc : list Entry.t) (x : Entry.t) :
  x ∈ foldl (fun merged entry =>
               if has_id (Entry.id entry) merged then merged else merged ++ [entry])
            acc ps
  → x ∈ acc ∨ x ∈ ps.
Proof.
  revert acc. induction ps as [|p ps IH]; intros acc; simpl; [eauto|].
  intros H. apply IH in H as [H|H]; [|right; by right].
  destruct (has_id (Entry.id p) acc); [by left|].
  apply elem_of_app in H as [H|H]; [by left|].
  apply list_elem_of_singleton in H as ->. right. by left.
Qed.

Lemma appended_incl (ps acc : list Entry.t) (x : Entry.t) :
  x ∈ acc →
  x ∈ foldl (fun merged entry =>
               if has_id (Entry.id entry) merged then merged else merged ++ [entry])
            acc ps.
Proof.
  revert acc. induction ps as [|p ps IH]; intros acc Hin; simpl; [done|].
  apply IH. destruct (has_id (Entry.id p) acc); [done|].
  apply elem_of_app. by left.
Qed.

Lemma appended_has_id (ps acc : list Entry.t) (p : Entry.t) :
  p ∈ ps →
  ∃ x, x ∈ foldl (fun merged entry =>
                    if has_id (Entry.id entry) merged then merged
                    else merged ++ [entry])
                 acc ps
       ∧ Entry.id x = Entry.id p.
Proof.
  revert acc. induction ps as [|q ps IH]; intros acc Hin; simpl.
  - by apply elem_of_nil in Hin.
  - apply elem_of_cons in Hin as [->|Hin]; [|by apply IH].
    destruct (has_id (Entry.id q) acc) eqn:Hq.
    + apply has_id_true in Hq as (x & Hx & Hid).
      exists x. split; [by apply appended_incl|done].
    + exists q. split; [|done]. apply appended_incl, elem_of_app. right.
      by apply list_elem_of_singleton.
Qed.

Section MergeFacts.
Variable store : LocalStore.
Hypothesis Hkeyed : entries_keyed (entries store).

Lemma pending_NoDup :
  NoDup (map Entry.id (filter is_pending (storage.getAllEntries store))).
Proof.
  eapply sublist_NoDup; [by apply getAllEntries_NoDup|].
  apply fmap_sublist, sublist_filter.
Qed.

Lemma pendingMap_eq :
  pendingMap (storage.getAllEntries store)
  = map (fun entry => (Entry.id entry, entry))
        (filter is_pending (storage.getAllEntries store)).
Proof.
  unfold pendingMap. apply Map_new_NoDup.
  rewrite <- list_fmap_compose. apply pending_NoDup.
Qed.

Lemma pending_elem_of (p : Entry.t) :
  p ∈ filter is_pending (storage.getAllEntries store)
  ↔ entries store !! Entry.id p = Some p ∧ is_pending p = true.
Proof.
  rewrite list_elem_of_filter, getAllEntries_elem_of. split.
  - intros [Hp [k Hk]]. rewrite <- (Hkeyed _ _ Hk) in Hk.
    split; [done|]. by apply Is_true_true.
  - intros [Hk Hp]. split; [by apply Is_true_true|eauto].
Qed.

(** [pending.get(id)] is the entry that the Local Store has under that id
    when that entry is pending, and [undefined] otherwise. *)
Lemma pendingMap_get (k : string) :
  Map_get k (pendingMap (storage.getAllEntries store))
  = match entries store !! k with
    | Some p => if is_pending p then Some p else None
    | None => None
    end.
Proof.
  rewrite pendingMap_eq.
  assert (NoDup
            (map (fun entry => (Entry.id entry, entry))
               (filter is_pending (storage.getAllEntries store))).*1) as Hnd.
  { rewrite <- list_fmap_compose. apply pending_NoDup. }
  destruct (entries store !! k) as [p|] eqn:Hk.
  - destruct (is_pending p) eqn:Hp.
    + apply Map_get_Some; [done|].
      apply (list_elem_of_fmap_2' _ _ p); [|by rewrite (Hkeyed _ _ Hk)].
      apply pending_elem_of. by rewrite (Hkeyed _ _ Hk).
    + apply Map_get_None. rewrite <- list_fmap_compose.
      intros (q & Hq & Hin)%list_elem_of_fmap. simpl in Hq. subst k.
      apply pending_elem_of in Hin as [Hin Hpq]. congruence.
  - apply Map_get_None. rewrite <- list_fmap_compose.
    intros (q & Hq & Hin)%list_elem_of_fmap. simpl in Hq. subst k.
    apply pending_elem_of in Hin as [Hin Hpq]. congruence.
Qed.

Variable remoteEntries : list Entry.t.

Lemma merge_eq :
  merge (storage.getAllEntries store) remoteEntries
  = foldl (fun merged entry =>
             if has_id (Entry.id entry) merged then merged else merged ++ [entry])
          (map (chosen store) remoteEntries)
          (filter is_pending (storage.getAllEntries store)).
Proof.
  unfold merge. rewrite <- merge_foldl. by rewrite <- pendingMap_eq.
Qed.

Lemma chosen_id (entry : Entry.t) :
  Entry.id (chosen store entry) = Entry.id entry.
Proof.
  unfold chosen. rewrite pendingMap_get.
  destruct (entries store !! Entry.id entry) as [p|] eqn:Hk; [|done].
  destruct (is_pending p); [|done]. simpl. by apply Hkeyed.
Qed.

(** Every element of the merged list is a pending entry of the Local Store,
    or a remote entry whose id has no pending entry in the Local Store. *)
Lemma merge_elem_of (x : Entry.t) :
  x ∈ merge (storage.getAllEntries store) remoteEntries →
  (entries store !! Entry.id x = Some x ∧ is_pending x = true)
  ∨ (x ∈ remoteEntries
     ∧ ∀ p, entries store !! Entry.id x = Some p → is_pending p = false).
Proof.
  rewrite merge_eq. intros [H|H]%appended_elem_of.
  - apply list_elem_of_fmap in H as (r & -> & Hr).
    unfold chosen. rewrite pendingMap_get.
    destruct (entries store !! Entry.id r) as [p|] eqn:Hk; simpl.
    + destruct (is_pending p) eqn:Hp; simpl.
      * left. by rewrite (Hkeyed _ _ Hk).
      * right. split; [done|]. rewrite Hk. by intros p' [= <-].
    + right. split; [done|]. by rewrite Hk.
  - left. by apply pending_elem_of.
Qed.

Lemma merge_remote (r : Entry.t) :
  r ∈ remoteEntries →
  chosen store r ∈ merge (storage.getAllEntries store) remoteEntries.
Proof.
  intros Hr. rewrite merge_eq. apply appended_incl.
  by apply list_elem_of_fmap_2.
Qed.

Lemma merge_pending (p : Entry.t) :
  entries store !! Entry.id p = Some p → is_pending p = true →
  p ∈ merge (storage.getAllEntries store) remoteEntries.
Proof.
  intros Hk Hp.
  assert (p ∈ filter is_pending (storage.getAllEntries store)) as Hin
    by (by apply pending_elem_of).
  destruct (appended_has_id _ (map (chosen store) remoteEntries) _ Hin) as (x & Hx & Hid).
  rewrite <- merge_eq in Hx.
  destruct (merge_elem_of x Hx) as [[Hxk _]|[_ Hno]].
  - rewrite Hid, Hk in Hxk. by injection Hxk as ->.
  - rewrite Hid in Hno. specialize (Hno _ Hk). congruence.
Qed.

End MergeFacts.

Lemma putEntries_lookup_other (l : list Entry.t) (m : gmap string Entry.t)
    (k : string) :
  (∀ x, x ∈ l → Entry.id x ≠ k) →
  foldl (fun m entry => <[Entry.id entry := entry]> m) m l !! k = m !! k.
Proof.
  revert m. induction l as [|x l IH]; intros m Hl; simpl; [done|].
  rewrite IH.
  - apply lookup_insert_ne, Hl. by left.
  - intros y Hy. apply Hl. by right.
Qed.

(** [putEntries] leaves under a key the entry of that id, when the list has
    only one. *)
Lemma putEntries_lookup_unique (l : list Entry.t) (m : gmap string Entry.t)
    (k : string) (p : Entry.t) :
  p ∈ l → Entry.id p = k →
  (∀ x, x ∈ l → Entry.id x = k → x = p) →
  foldl (fun m entry => <[Entry.id entry := entry]> m) m l !! k = Some p.
Proof.
  revert m. induction l as [|x l IH]; intros m Hin Hid Huniq; simpl.
  - by apply elem_of_nil in Hin.
  - destruct (decide (p ∈ l)) as [Hpl|Hpl].
    + apply IH; [done..|]. intros y Hy. apply Huniq. by right.
    + apply elem_of_cons in Hin as [->|Hin]; [|done].
      rewrite putEntries_lookup_other.
      * rewrite Hid. apply lookup_insert_eq.
      * intros y Hy Hyk. apply Hpl.
        rewrite <- (Huniq y); [done| by right |done].
Qed.

Section MergeClaim.
Context {W : Type}.
Variable fetch : Request → W → W * Result Response.

(** C4.  The merge of the reconcile step is pending-wins.  For every entry
    of the remote listing, the merged list has the entry that the Local
    Store holds under that id when that entry is pending, and the remote
    entry otherwise; every pending entry of the Local Store is in the merged
    list, whether or not the listing has its id; the merged list has nothing
    else.  After [syncFromServer] the Local Store holds every pending entry
    unchanged under its id, so its fields override those of the remote entry
    of the same id. *)
Theorem pending_wins_merge (s : State W) (remoteEntries : list Entry.t) (w' : W) :
  entries_keyed (entries (local s)) →
  fetchEntries fetch (net s) = (w', Ok remoteEntries) →
  let merged := merge (storage.getAllEntries (local s)) remoteEntries in
  let s' := (syncFromServer fetch s).1 in
  (∀ r, r ∈ remoteEntries →
     match entries (local s) !! Entry.id r with
     | Some p => if is_pending p then p ∈ merged else r ∈ merged
     | None => r ∈ merged
     end)
  ∧ (∀ k p, entries (local s) !! k = Some p → is_pending p = true → p ∈ merged)
  ∧ (∀ x, x ∈ merged →
       (entries (local s) !! Entry.id x = Some x ∧ is_pending x = true)
       ∨ (x ∈ remoteEntries
          ∧ ∀ p, entries (local s) !! Entry.id x = Some p → is_pending p = false))
  ∧ (∀ k p, entries (local s) !! k = Some p → is_pending p = true →
       entries (local s') !! k = Some p).
Proof.
  intros Hk Hfetch merged s'.
  assert (∀ k p, entries (local s) !! k = Some p → is_pending p = true →
            p ∈ merged) as Hpending.
  { intros k p Hp Hpend. apply merge_pending; [done| |done].
    by rewrite (Hk _ _ Hp). }
  split; [|split; [done|split]].
  - intros r Hr. pose proof (merge_remote (local s) Hk remoteEntries r Hr) as H.
    unfold chosen in H. rewrite pendingMap_get in H by done.
    destruct (entries (local s) !! Entry.id r) as [p|]; [|done].
    by destruct (is_pending p).
  - intros x Hx. by apply merge_elem_of.
  - intros k p Hp Hpend. subst s'. rewrite syncFromServer_eq, Hfetch. simpl.
    apply putEntries_lookup_unique.
    + by eapply Hpending.
    + by apply Hk.
    + intros x Hx Hid.
      destruct (merge_elem_of (local s) Hk remoteEntries x Hx) as [[Hxk _]|[_ Hno]].
      * rewrite Hid, Hp in Hxk. by injection Hxk.
      * rewrite Hid in Hno. specialize (Hno _ Hp). congruence.
Qed.

End MergeClaim.

Lemma edited_store_keyed : entries_keyed (entries edited_store).
Proof. apply (entries_keyed_insert _ entry_e1), entries_keyed_empty. Defined.

Lemma pending_wins_merge_witness :
  entries edited_store !! "e1" = Some entry_e1
  ∧ is_pending entry_e1 = true
  ∧ fetchEntries scripted listing_old_e1 = ([], Ok [toEntry server_e1])
  ∧ entries (local (syncFromServer scripted (device edited_store listing_old_e1)).1)
      !! "e1" = Some entry_e1
  ∧ Entry.notes entry_e1 = "local"
  ∧ Entry.notes (toEntry server_e1) = "remote-old".
Proof.
  split; [reflexivity|]. split; [reflexivity|].
  split; [reflexivity|].
  split; [|split; reflexivity].
  exact (proj2 (proj2 (proj2
    (pending_wins_merge scripted (device edited_store listing_old_e1)
       [toEntry server_e1] [] edited_store_keyed eq_refl)))
    "e1" entry_e1 eq_refl eq_refl).
Defined.

(** ** Claims about the removal of outbox items *)
Section RemovalClaim.
Context {W : Type}.
Variable fetch : Request → W → W * Result Response.
Variable localeCompare : string → string → Z.

Lemma callsOf_ran (item : OutboxItem.t) (ran : list OutboxItem.t) (req : Request) :
  item ∈ ran → requestOf item = Some req →
  mkCall req true ∈ concat (map (callsOf true) ran).
Proof.
  intros Hin Hreq. apply list_elem_of_In, in_concat.
  exists (callsOf true item). split.
  - apply in_map. by apply list_elem_of_In.
  - unfold callsOf. rewrite Hreq. by left.
Qed.

(** C6, as the code has it.  The drain removes an outbox item only after
    the call that it makes for the item has returned: when an item that was
    in the outbox store is gone after [processOutbox], the calls that
    [processOutbox] added to the history contain a successful call with the
    request of that item (an item for which the drain has no request, a
    create or update without payload, is removed without a call).  Signing
    out clears the outbox store without any call, and signing in clears it
    after the sign-in call alone. *)
Theorem outbox_items_leave_on_success_or_sign_in_out :
  (∀ token (s : State W) k item,
     outbox_keyed (outbox (local s)) →
     outbox (local s) !! k = Some item →
     outbox (local (processOutbox fetch localeCompare token s)) !! k = None →
     ∃ new,
       calls (processOutbox fetch localeCompare token s) = calls s ++ new
       ∧ ∀ req, requestOf item = Some req → mkCall req true ∈ new)
  ∧ (∀ s : State W,
       outbox (local (handleLogout s)) = ∅
       ∧ calls (handleLogout s) = calls s)
  ∧ (∀ register email password onLine (s : State W),
       let s' :=
         handleAuthSubmit fetch localeCompare register email password None
           onLine s in
       error s' = None →
       outbox (local s') = ∅
       ∧ ∃ ok,
           calls s'
           = calls s
               ++ [mkCall (if register then POST_register email password
                           else POST_login email password) ok]).
Proof.
  split; [|split].
  - intros token s k item Hk Hin Hgone.
    destruct (has_token token) eqn:Htok.
    2:{ unfold processOutbox in Hgone. rewrite Htok in Hgone. simpl in Hgone.
        congruence. }
    destruct (processOutbox_outcome fetch localeCompare token s Hk Htok)
      as (Hsplit & Hcalls & _ & _ & Hout & _).
    eexists. split; [exact Hcalls|].
    intros req Hreq. apply elem_of_app. left.
    rewrite Hout, removeAll_lookup in Hgone.
    destruct (decide (k ∈ map OutboxItem.id
                (drained fetch (refreshOutbox localeCompare s) s).1))
      as [Hran|Hran]; [|congruence].
    apply list_elem_of_fmap in Hran as (it & -> & Hit).
    assert (outbox (local s) !! OutboxItem.id it = Some it) as Hlook.
    { apply (refreshOutbox_lookup localeCompare); [done|].
      rewrite Hsplit. apply elem_of_app. by left. }
    rewrite Hlook in Hin. injection Hin as ->.
    by apply (callsOf_ran item).
  - intros s. done.
  - intros register email password onLine s s'. subst s'.
    unfold handleAuthSubmit.
    destruct register; rewrite remote_eq; simpl.
    + destruct (registerUser fetch email password (net s)) as [w' [t|m]]; simpl;
        [|done]. intros _. split; [done|]. by exists true.
    + destruct (loginUser fetch email password (net s)) as [w' [t|m]]; simpl;
        [|done]. intros _. split; [done|]. by exists true.
Qed.

End RemovalClaim.

Lemma stale_store_keyed : outbox_keyed (outbox stale_store).
Proof. apply (outbox_keyed_insert _ delete_e9), outbox_keyed_empty. Defined.

Lemma outbox_items_leave_on_success_or_sign_in_out_witness :
  outbox stale_store !! "o9" = Some delete_e9
  ∧ outbox (local (processOutbox scripted compareCodes (Some "token")
                     (device stale_store [not_found]))) !! "o9" = None
  ∧ ∃ new,
      calls (processOutbox scripted compareCodes (Some "token")
               (device stale_store [not_found])) = [] ++ new
      ∧ ∀ req, requestOf delete_e9 = Some req → mkCall req true ∈ new.
Proof.
  split; [reflexivity|]. split; [vm_compute; reflexivity|].
  refine (proj1 (outbox_items_leave_on_success_or_sign_in_out scripted compareCodes)
            (Some "token") (device stale_store [not_found]) "o9" delete_e9
            stale_store_keyed eq_refl _).
  vm_compute. reflexivity.
Defined.

(** C6, as the claim states it, fails.  Signing out removes the queued
    create of [e1] (and the queued delete) from the outbox store, and no call
    of the Remote Client was made.  The drain itself removes a create that
    carries no payload without a call. *)
Lemma outbox_items_removed_without_call :
  (outbox unsynced_store !! "o1" = Some create_e1
   ∧ requestOf create_e1 = Some (POST_entries payload_e1)
   ∧ outbox (local (handleLogout (device unsynced_store []))) !! "o1" = None
   ∧ calls (handleLogout (device unsynced_store [])) = [])
  ∧ (outbox orphan_store !! "o7" = Some create_without_payload
     ∧ outbox (local (processOutbox scripted compareCodes (Some "token")
                        (device orphan_store []))) !! "o7" = None
     ∧ calls (processOutbox scripted compareCodes (Some "token")
                (device orphan_store [])) = []).
Proof. repeat split; vm_compute; reflexivity. Qed.

(** ** The task machine and the functions agree *)
Section TaskFacts.
Context {W : Type}.
Variable fetch : Request → W → W * Result Response.
Variable localeCompare : string → string → Z.
Variable token : option string.

Local Abbreviation step' := (step fetch localeCompare token).
Local Abbreviation run' := (run fetch localeCompare token).
Local Abbreviation observed' := (observed fetch localeCompare token).

Lemma run_add (onLine : bool) (n m : nat) (t : Task) (s : State W) :
  run' onLine (n + m) t s
  = run' onLine m (run' onLine n t s).1 (run' onLine n t s).2.
Proof.
  revert t s. induction n as [|n IH]; intros t s; simpl; [done|].
  destruct (step' onLine t s) as [t' s']. apply IH.
Qed.

(** The loop of the task is the loop of [processOutbox]. *)
Lemma run_drain (onLine : bool) (items : list OutboxItem.t) (s : State W) :
  ∃ n, run' onLine n (TItem items) s = (TRead, drain fetch items s).
Proof.
  revert s. induction items as [|item rest IH]; intros s.
  - by exists 1%nat.
  - simpl. unfold drainItem.
    destruct (callRemote fetch item s) as [s1 [[written|]|m]] eqn:Hcall.
    + destruct (IH (onStore (storage.deleteOutboxItem (OutboxItem.id item))
                      (putResult (Some written) s1))) as [n Hn].
      exists (3 + n)%nat. rewrite run_add. simpl. by rewrite Hcall.
    + destruct (IH (onStore (storage.deleteOutboxItem (OutboxItem.id item))
                      (putResult None s1))) as [n Hn].
      exists (2 + n)%nat. rewrite run_add. simpl. by rewrite Hcall.
    + exists 1%nat. simpl. by rewrite Hcall.
Qed.

(** The reconcile steps of the task are [syncFromServer]. *)
Lemma run_reconcile (onLine : bool) (s : State W) :
  run' onLine 5 TRead s
  = (TDone,
     match syncFromServer fetch s with
     | (s', Ok _) => setSyncState idle s'
     | (s', Err m) => setSyncState offline (setError (Some m) s')
     end).
Proof.
  simpl. unfold syncFromServer.
  by destruct (remote GET_entries (fetchEntries fetch) s) as [s1 [l|m]].
Qed.

(** A pass that runs alone ends in the state that [runSync] computes. *)
Lemma run_alone (onLine : bool) (s : State W) :
  ∃ n, run' onLine n TStart s
       = (TDone, runSync fetch localeCompare token onLine s).
Proof.
  unfold runSync. destruct (has_token token) eqn:Htok; simpl.
  2:{ exists 1%nat. simpl. by rewrite Htok. }
  destruct onLine; simpl.
  2:{ exists 1%nat. simpl. by rewrite Htok. }
  unfold processOutbox. rewrite Htok. simpl.
  destruct (run_drain true
              (refreshOutbox localeCompare (setError None (setSyncState syncing s)))
              (setError None (setSyncState syncing s))) as [n Hn].
  exists (2 + (n + 5))%nat. rewrite run_add. simpl. rewrite Htok. simpl.
  rewrite run_add, Hn. simpl fst. simpl snd. apply run_reconcile.
Qed.

Lemma observed_TDone (onLine : bool) (n : nat) (s mid : State W) :
  mid ∈ observed' onLine n TDone s → mid = s.
Proof.
  revert s. induction n as [|n IH]; intros s; simpl.
  - intros H. by apply elem_of_nil in H.
  - intros [->|H]%elem_of_cons; [done|]. by apply IH.
Qed.

End TaskFacts.

(** ** Claims about what other tasks can see *)
Section ObservationClaims.
Context {W : Type}.
Variable fetch : Request → W → W * Result Response.
Variable localeCompare : string → string → Z.
Variable token : option string.

(** C2, as the code has it.  The reconcile step replaces the entries store
    in two transactions, [clearEntries] and then [putEntries], with a
    suspension point between them.  A task that reads the entries store
    while the reconcile step is under way sees the set from before the
    merge, the empty set, or the merged set, and nothing else; when the
    listing succeeds the suspension points of the step show, in this order,
    the old set twice, the empty set, and the merged set. *)
Theorem reconcile_replaces_in_two_transactions (onLine : bool) (s : State W) :
  (∀ n mid,
     mid ∈ observed fetch localeCompare token onLine n TRead s →
     entries (local mid) = entries (local s)
     ∨ entries (local mid) = ∅
     ∨ entries (local mid) = entries (local (syncFromServer fetch s).1))
  ∧ (∀ remoteEntries w',
       fetchEntries fetch (net s) = (w', Ok remoteEntries) →
       map (fun st => entries (local st))
           (observed fetch localeCompare token onLine 4 TRead s)
       = [entries (local s); entries (local s); ∅;
          entries (local (syncFromServer fetch s).1)]).
Proof.
  split.
  - intros n mid H. rewrite syncFromServer_eq.
    destruct n as [|n]; simpl in H; [by apply elem_of_nil in H|].
    apply elem_of_cons in H as [->|H]; [by left|].
    destruct n as [|n]; simpl in H; [by apply elem_of_nil in H|].
    rewrite remote_eq in H.
    destruct (fetchEntries fetch (net s)) as [w1 [l|m]]; simpl in H.
    + apply elem_of_cons in H as [->|H]; [by left|].
      destruct n as [|n]; simpl in H; [by apply elem_of_nil in H|].
      apply elem_of_cons in H as [->|H]; [right; by left|].
      destruct n as [|n]; simpl in H; [by apply elem_of_nil in H|].
      apply elem_of_cons in H as [->|H]; [right; by right|].
      destruct n as [|n]; simpl in H; [by apply elem_of_nil in H|].
      apply elem_of_cons in H as [->|H]; [right; by right|].
      apply observed_TDone in H as ->. right; by right.
    + apply elem_of_cons in H as [->|H]; [by left|].
      apply observed_TDone in H as ->. by left.
  - intros remoteEntries w' Hf. rewrite syncFromServer_eq. simpl.
    rewrite remote_eq, Hf. done.
Qed.

End ObservationClaims.

Lemma reconcile_replaces_in_two_transactions_witness :
  fetchEntries scripted listing_e2 = ([], Ok [toEntry server_e2])
  ∧ map (fun st => entries (local st))
        (observed scripted compareCodes (Some "token") true 4 TRead
           (device unsynced_store listing_e2))
    = [entries unsynced_store; entries unsynced_store; ∅;
       entries (local (syncFromServer scripted
                         (device unsynced_store listing_e2)).1)].
Proof.
  split; [reflexivity|].
  exact (proj2
    (reconcile_replaces_in_two_transactions scripted compareCodes (Some "token")
       true (device unsynced_store listing_e2))
    [toEntry server_e2] [] eq_refl).
Defined.

(** C2, as the claim states it, fails: the Local Store holds [e1], the
    server lists [e2]; after the third step of the reconcile step the
    entries store is empty, and it is empty neither before the merge (it
    holds [e1]) nor after it (it holds [e1] and [e2]). *)
Lemma reconcile_exposes_empty_store :
  map (fun st => storage.getAllEntries (local st))
      (observed scripted compareCodes (Some "token") true 4 TRead
         (device unsynced_store listing_e2))
  = [ [entry_e1]; [entry_e1]; []; [entry_e1; toEntry server_e2] ]
  ∧ storage.getAllEntries unsynced_store = [entry_e1]
  ∧ storage.getAllEntries
      (local (syncFromServer scripted (device unsynced_store listing_e2)).1)
    = [entry_e1; toEntry server_e2].
Proof. repeat split; vm_compute; reflexivity. Qed.

(** ** Claims about two sync requests *)
Lemma removeAll_all (items : list OutboxItem.t) (l : LocalStore) :
  outbox_keyed (outbox l) →
  items ≡ₚ storage.getOutboxItems l →
  removeAll items (outbox l) = ∅.
Proof.
  intros Hk Hperm. apply map_eq. intros k.
  rewrite removeAll_lookup, lookup_empty.
  destruct (decide (k ∈ map OutboxItem.id items)) as [|Hout]; [done|].
  destruct (outbox l !! k) as [it|] eqn:Hit; [|done].
  exfalso. apply Hout. rewrite <- (Hk _ _ Hit).
  apply list_elem_of_fmap_2. rewrite Hperm.
  apply getOutboxItems_elem_of. eauto.
Qed.

Section ReentrancyClaim.
Context {W : Type}.
Variable fetch : Request → W → W * Result Response.
Variable localeCompare : string → string → Z.
Variable token : option string.

Lemma runSync_empty_outbox (s : State W) :
  has_token token = true →
  outbox (local s) = ∅ →
  ∃ ok, calls (runSync fetch localeCompare token true s)
        = calls s ++ [mkCall GET_entries ok].
Proof.
  intros Htok Hempty. rewrite runSync_eq by done. simpl.
  unfold processOutbox. rewrite Htok. simpl.
  unfold refreshOutbox, storage.getOutboxItems, getAll. simpl.
  rewrite Hempty, map_to_list_empty. simpl.
  rewrite syncFromServer_eq. simpl.
  destruct (fetchEntries fetch (net s)).2 as [l|m]; simpl; eauto.
Qed.

(** C3, as the code has it.  [runSync] has no reentrancy guard: the first
    step of a pass is the same whatever the sync state is, so a request
    that arrives while a pass is in flight starts a pass of its own.  The
    items are drained exactly once when the passes do not overlap: a pass
    whose drain fails nowhere sends one call for each item of the outbox, in
    [queuedAt] order, then the listing, and leaves the outbox store empty;
    the next pass then sends the listing and nothing else. *)
Theorem passes_are_not_coalesced (onLine : bool) (s : State W) :
  has_token token = true →
  outbox_keyed (outbox (local s)) →
  let s0 := setError None (setSyncState syncing s) in
  let items := refreshOutbox localeCompare s0 in
  let s1 := runSync fetch localeCompare token true s in
  (drained fetch items s0).2 = [] →
  (∀ v, (step fetch localeCompare token onLine TStart (setSyncState v s)).1
        = (step fetch localeCompare token onLine TStart s).1)
  ∧ items ≡ₚ storage.getOutboxItems (local s)
  ∧ (∃ ok, calls s1
           = calls s ++ concat (map (callsOf true) items)
               ++ [mkCall GET_entries ok])
  ∧ outbox (local s1) = ∅
  ∧ (∃ ok, calls (runSync fetch localeCompare token true s1)
           = calls s1 ++ [mkCall GET_entries ok]).
Proof.
  intros Htok Hk s0 items s1 Hall.
  assert (outbox_keyed (outbox (local s0))) as Hk0 by done.
  destruct (processOutbox_outcome fetch localeCompare token s0 Hk0 Htok)
    as (Hsplit & Hcalls & _ & _ & Hout & _).
  fold items in Hsplit, Hcalls, Hout.
  rewrite Hall in Hsplit, Hcalls. rewrite app_nil_r in Hsplit, Hcalls.
  rewrite <- Hsplit in Hcalls, Hout.
  set (sd := processOutbox fetch localeCompare token s0) in *.
  assert (outbox (local sd) = ∅) as Hempty.
  { rewrite Hout. apply removeAll_all; [done|]. apply refreshOutbox_perm. }
  assert (outbox (local s1) = outbox (local sd)
          ∧ ∃ ok, calls s1 = calls sd ++ [mkCall GET_entries ok]) as [Hout1 Hcalls1].
  { subst s1. rewrite runSync_eq by done. simpl. fold s0. fold sd.
    rewrite syncFromServer_eq.
    destruct (fetchEntries fetch (net sd)).2 as [l|m]; simpl; eauto. }
  split; [|split; [|split; [|split]]].
  - intros v. simpl. by destruct (has_token token), onLine.
  - exact (refreshOutbox_perm localeCompare s0).
  - destruct Hcalls1 as [ok Hc]. exists ok. rewrite Hc, Hcalls.
    simpl. by rewrite <- app_assoc.
  - by rewrite Hout1.
  - apply runSync_empty_outbox; [done|]. by rewrite Hout1.
Qed.

End ReentrancyClaim.

Lemma single_store_keyed : outbox_keyed (outbox single_store).
Proof. apply (outbox_keyed_insert _ create_e1), outbox_keyed_empty. Defined.

Lemma passes_are_not_coalesced_witness :
  has_token (Some "token") = true
  ∧ (drained scripted
       (refreshOutbox compareCodes
          (setError None (setSyncState syncing (device single_store accepted_once))))
       (setError None (setSyncState syncing (device single_store accepted_once)))).2
    = []
  ∧ outbox (local (runSync scripted compareCodes (Some "token") true
                     (device single_store accepted_once))) = ∅.
Proof.
  split; [reflexivity|].
  assert ((drained scripted
       (refreshOutbox compareCodes
          (setError None (setSyncState syncing (device single_store accepted_once))))
       (setError None (setSyncState syncing (device single_store accepted_once)))).2
    = []) as Hall by (vm_compute; reflexivity).
  split; [exact Hall|].
  exact (proj1 (proj2 (proj2 (proj2
    (passes_are_not_coalesced scripted compareCodes (Some "token") true
       (device single_store accepted_once)
       eq_refl single_store_keyed Hall))))).
Defined.

(** C3, as the claim states it, fails: the outbox holds one item; a second
    sync request arrives while the first pass is [syncing] and has not yet
    removed the item; both passes send the create of that item. *)
Lemma overlapping_passes_replay_the_item :
  storage.getOutboxItems single_store = [create_e1]
  ∧ syncState
      (interleave scripted compareCodes (Some "token") true [false; false]
         TStart TStart (device single_store accepted_twice)).2
    = syncing
  ∧ (interleave scripted compareCodes (Some "token") true overlapping
       TStart TStart (device single_store accepted_twice)).1
    = (TDone, TDone)
  ∧ calls
      (interleave scripted compareCodes (Some "token") true overlapping
         TStart TStart (device single_store accepted_twice)).2
    = [mkCall (POST_entries payload_e1) true;
       mkCall (POST_entries payload_e1) true;
       mkCall GET_entries true; mkCall GET_entries true].
Proof. repeat split; vm_compute; reflexivity. Qed.

(** ** The backend *)
Section BackendFacts.
Variable TrimSpace : string → string.
Variable IsLetter : ascii → bool.
Variable IsDigit : ascii → bool.
Variable parseRFC3339 : string → option Z.
Variable formatRFC3339 : Z → string.

Lemma update_first_split (now id : string) (input : backend.EntryInput.t)
    (before after : list backend.Entry.t) (old : backend.Entry.t) :
  (∀ e, e ∈ before → backend.Entry.ID e ≠ id) →
  backend.Entry.ID old = id →
  backend.update_first now id input (before ++ old :: after)
  = Some (before ++ backend.rewritten now input old :: after,
          backend.rewritten now input old).
Proof.
  intros Hbefore Hold. induction before as [|e before IH]; simpl.
  - by rewrite decide_True.
  - rewrite decide_False by (apply Hbefore; by left).
    rewrite IH; [done|]. intros e' He'. apply Hbefore. by right.
Qed.

(** The [UPDATE] leaves [id], [user_id] and [created_at] of every row. *)
Lemma sqlUpdate_created_at (input : backend.EntryInput.t) (brewed updated : Z)
    (userID id' : string) (db : list backend.Row) :
  map backend.created_at (backend.sqlUpdate input brewed updated userID id' db)
  = map backend.created_at db.
Proof.
  unfold backend.sqlUpdate. rewrite map_map. apply map_ext.
  intros r. by destruct (backend.selected userID id' r).
Qed.

Lemma sqlUpdate_find (input : backend.EntryInput.t) (brewed updated : Z)
    (userID id' : string) (db : list backend.Row) (old : backend.Row) :
  find (backend.selected userID id') db = Some old →
  backend.selectCreatedAt userID id'
    (backend.sqlUpdate input brewed updated userID id' db)
  = Some (backend.created_at old).
Proof.
  unfold backend.selectCreatedAt, backend.sqlUpdate.
  induction db as [|r db IH]; simpl; [done|].
  destruct (backend.selected userID id' r) eqn:Hr.
  - intros [= ->]. unfold backend.selected in *. simpl. by rewrite Hr.
  - rewrite Hr. apply IH.
Qed.

Lemma rowsAffected_find (userID id' : string) (db : list backend.Row)
    (old : backend.Row) :
  find (backend.selected userID id') db = Some old →
  (backend.rowsAffected userID id' db =? 0) = false.
Proof.
  intros Hfind. apply Z.eqb_neq. unfold backend.rowsAffected.
  apply find_some in Hfind as [Hin Hsel].
  assert (old ∈ filter (backend.selected userID id') db) as Hf.
  { apply list_elem_of_filter. split; [by apply Is_true_true|].
    by apply list_elem_of_In. }
  destruct (filter (backend.selected userID id') db); simpl; [|lia].
  by apply elem_of_nil in Hf.
Qed.

(** The listing of the SQL server is in [brewed_at] order, latest first. *)
Lemma listEntries_sorted (db : list backend.Row) (userID : string) :
  ∃ rows,
    backend.listEntries formatRFC3339 db userID
    = map (backend.rowEntry formatRFC3339) rows
    ∧ rows ≡ₚ filter (fun r => bool_decide (backend.user_id r = userID)) db
    ∧ Sorted (fun a b => backend.brewed_at b <= backend.brewed_at a) rows.
Proof.
  eexists. split; [reflexivity|]. split; [apply sort_perm|].
  eapply Sorted_ind with
    (P := Sorted (fun a b => backend.brewed_at b <= backend.brewed_at a)).
  3:{ apply (sort_sorted backend.brewedDesc).
      intros a b. unfold backend.brewedDesc. lia. }
  - constructor.
  - intros a l _ IH Hhd. constructor; [done|].
    destruct Hhd as [|b l' Hab]; constructor.
    unfold backend.brewedDesc in Hab. lia.
Qed.

(** C9, as the code has it.  An update never rewrites a stored
    [createdAt].  In the JSON-file store, the first entry with the id is
    rewritten: the entry returned and stored has the id and [CreatedAt] of
    the old one, the fields of the input, and [UpdatedAt] set to the time of
    the call; no other entry changes.  In the SQL server, when the [UPDATE]
    runs and the user has a row under the id, the update succeeds; the
    [UPDATE] rewrites the columns of that row from the input, sets its
    [updated_at] to the time of the call and leaves its [created_at], and
    leaves every other row as it is; the entry returned has the fields of
    the input and that [UpdatedAt].  Its [CreatedAt] is the [created_at]
    that the [SELECT] reads when the [SELECT] succeeds and finds the row:
    the [created_at] from before the call when no other request has come
    between the two statements. *)
Theorem update_preserves_createdAt :
  (∀ now id input path before after old,
     (∀ e, e ∈ before → backend.Entry.ID e ≠ id) →
     backend.Entry.ID old = id →
     ∃ e,
       backend.Store_Update now None id input
         (backend.mkStore path (before ++ old :: after))
       = (backend.mkStore path (before ++ e :: after), (e, true, None))
       ∧ backend.Entry.CreatedAt e = backend.Entry.CreatedAt old
       ∧ backend.Entry.ID e = backend.Entry.ID old
       ∧ backend.Entry.Beans e = backend.EntryInput.Beans input
       ∧ backend.Entry.BrewMethod e = backend.EntryInput.BrewMethod input
       ∧ backend.Entry.Notes e = backend.EntryInput.Notes input
       ∧ backend.Entry.Rating e = backend.EntryInput.Rating input
       ∧ backend.Entry.BrewedAt e = backend.EntryInput.BrewedAt input
       ∧ backend.Entry.UpdatedAt e = now)
  ∧ (∀ now run db userID id0 id' input old,
       backend.normalizeID TrimSpace IsLetter IsDigit id0 = (id', None) →
       backend.execErr run = None →
       find (backend.selected userID id') db = Some old →
       let brewed :=
         default backend.zeroTime
           (parseRFC3339 (backend.EntryInput.BrewedAt input)) in
       let written (r : backend.Row) :=
         backend.mkRow (backend.id r) (backend.user_id r)
           (backend.EntryInput.Beans input)
           (backend.EntryInput.BrewMethod input)
           (backend.EntryInput.Notes input) (backend.EntryInput.Rating input)
           brewed (backend.created_at r) now in
       ∃ db' e,
         backend.updateEntry TrimSpace IsLetter IsDigit parseRFC3339
           formatRFC3339 now run db userID id0 input
         = (backend.meanwhile run db', (e, true, None))
         ∧ length db' = length db
         ∧ (∀ i r,
              db !! i = Some r →
              db' !! i
              = Some (if backend.selected userID id' r then written r else r))
         ∧ map backend.created_at db' = map backend.created_at db
         ∧ backend.Entry.ID e = id'
         ∧ backend.Entry.Beans e = backend.EntryInput.Beans input
         ∧ backend.Entry.BrewMethod e = backend.EntryInput.BrewMethod input
         ∧ backend.Entry.Notes e = backend.EntryInput.Notes input
         ∧ backend.Entry.Rating e = backend.EntryInput.Rating input
         ∧ backend.Entry.BrewedAt e = formatRFC3339 brewed
         ∧ backend.Entry.UpdatedAt e = formatRFC3339 now
         ∧ (backend.scanErr run = false →
            ∀ row,
              find (backend.selected userID id') (backend.meanwhile run db')
              = Some row →
              backend.Entry.CreatedAt e
              = formatRFC3339 (backend.created_at row))
         ∧ (backend.scanErr run = false →
            backend.meanwhile run db' = db' →
            backend.Entry.CreatedAt e
            = backend.Entry.CreatedAt (backend.rowEntry formatRFC3339 old))).
Proof.
  split.
  - intros now id input path before after old Hbefore Hold.
    exists (backend.rewritten now input old).
    unfold backend.Store_Update. simpl.
    rewrite update_first_split by done. done.
  - intros now run db userID id0 id' input old Hid Hexec Hfind brewed written.
    unfold backend.updateEntry. rewrite Hid, Hexec.
    rewrite (rowsAffected_find _ _ _ _ Hfind). cbv zeta. fold brewed.
    eexists _, _. split; [reflexivity|].
    split; [unfold backend.sqlUpdate; apply length_map|].
    split.
    { intros i r Hr. unfold backend.sqlUpdate.
      match goal with
      | |- map ?f db !! i = _ => change (map f db) with (f <$> db)
      end.
      by rewrite list_lookup_fmap, Hr. }
    split; [apply sqlUpdate_created_at|].
    cbn [backend.Entry.ID backend.Entry.Beans backend.Entry.BrewMethod
         backend.Entry.Notes backend.Entry.Rating backend.Entry.BrewedAt
         backend.Entry.UpdatedAt backend.Entry.CreatedAt].
    do 7 (split; [done|]). split.
    + intros Hscan row Hrow. rewrite Hscan. unfold backend.selectCreatedAt.
      by rewrite Hrow.
    + intros Hscan Hquiet. rewrite Hscan, Hquiet.
      by rewrite (sqlUpdate_find _ _ _ _ _ _ _ Hfind).
Qed.

End BackendFacts.

Lemma update_preserves_createdAt_witness :
  (backend.Entry.ID january_entry = "0a"
   ∧ ∃ e,
       backend.Store_Update "2024-03-02T09:00:00Z" None "0a" edit_january
         Store_after_two_posts
       = (backend.mkStore "./data/entries.json" ([] ++ e :: [february_entry]),
          (e, true, None))
       ∧ backend.Entry.CreatedAt e = backend.Entry.CreatedAt january_entry)
  ∧ ∃ db' e,
      backend.updateEntry backend.asciiTrimSpace backend.asciiIsLetter
        backend.asciiIsDigit (fun _ => Some 1714550400) (fun t => pretty t)
        1714560000 backend.quiet [row_x1] "u1" " x1 " edit_x1
      = (db', (e, true, None))
      ∧ backend.Entry.CreatedAt e
        = backend.Entry.CreatedAt
            (backend.rowEntry (fun t => pretty t) row_x1).
Proof.
  split.
  - split; [reflexivity|].
    destruct (proj1 (update_preserves_createdAt backend.asciiTrimSpace
                       backend.asciiIsLetter backend.asciiIsDigit
                       (fun _ => None) (fun t => pretty t))
                "2024-03-02T09:00:00Z" "0a" edit_january "./data/entries.json"
                [] [february_entry] january_entry
                (fun e H => False_ind _ (proj1 (elem_of_nil e) H)) eq_refl)
      as (e & Heq & Hcreated & _).
    exists e. split; [exact Heq|exact Hcreated].
  - destruct (proj2 (update_preserves_createdAt backend.asciiTrimSpace
                       backend.asciiIsLetter backend.asciiIsDigit
                       (fun _ => Some 1714550400) (fun t => pretty t))
                1714560000 backend.quiet [row_x1] "u1" " x1 " "x1" edit_x1
                row_x1 eq_refl eq_refl eq_refl)
      as (db' & e & Heq & _ & _ & _ & _ & _ & _ & _ & _ & _ & _ & _ & Hquiet).
    exists db', e. split; [exact Heq|]. exact (Hquiet eq_refl eq_refl).
Defined.

(** C9, the claim as stated, at a failing input.  The user [u1] has the
    entry [x1], created at 1714550460.  An update of it runs its [UPDATE];
    then another device deletes the entry; then the [SELECT] finds no row.
    The update answers with success, and the entry that it returns has the
    time of the call, 1714560000, as [CreatedAt].  The same entry is
    returned when the row stays and the [SELECT] fails. *)
Lemma update_reports_updatedAt_as_createdAt :
  find (backend.selected "u1" "x1") [row_x1] = Some row_x1
  ∧ backend.updateEntry backend.asciiTrimSpace backend.asciiIsLetter
      backend.asciiIsDigit (fun _ => Some 1714550400) (fun t => pretty t)
      1714560000 deleted_meanwhile [row_x1] "u1" "x1" edit_x1
    = ([],
       (backend.Entry.mk "x1" "Yirgacheffe" "pour_over" "sweeter" 5
          "1714550400" "1714560000" "1714560000", true, None))
  ∧ backend.updateEntry backend.asciiTrimSpace backend.asciiIsLetter
      backend.asciiIsDigit (fun _ => Some 1714550400) (fun t => pretty t)
      1714560000 select_fails [row_x1] "u1" "x1" edit_x1
    = ([backend.mkRow "x1" "u1" "Yirgacheffe" "pour_over" "sweeter" 5
          1714550400 1714550460 1714560000],
       (backend.Entry.mk "x1" "Yirgacheffe" "pour_over" "sweeter" 5
          "1714550400" "1714560000" "1714560000", true, None))
  ∧ backend.Entry.CreatedAt (backend.rowEntry (fun t => pretty t) row_x1)
    = "1714550460".
Proof. repeat split; vm_compute; reflexivity. Qed.

(** C8, the code at the failing input.  The JSON-file server gets a post
    of a brew of January and then a post of a brew of February.  [Store.List]
    returns the entries in the order of the posts, the January brew first:
    the listing is in ascending and not in descending [brewedAt] order.  In
    general [Store.List] returns the slice as it is, and [Store.Create]
    appends to it. *)
Lemma Store_List_keeps_insertion_order :
  backend.Store_List Store_after_two_posts = [january_entry; february_entry]
  ∧ compareCodes (backend.Entry.BrewedAt january_entry)
      (backend.Entry.BrewedAt february_entry) = -1
  ∧ ¬ Sorted (fun a b =>
                compareCodes (backend.Entry.BrewedAt b) (backend.Entry.BrewedAt a)
                <= 0)
        (backend.Store_List Store_after_two_posts)
  ∧ (∀ s, backend.Store_List s = backend.entries s)
  ∧ (∀ TrimSpace IsLetter IsDigit now fresh input s id,
       backend.normalizeID TrimSpace IsLetter IsDigit
         (backend.EntryInput.ID input) = (id, None) →
       ∃ entry,
         backend.Store_List
           (backend.Store_Create TrimSpace IsLetter IsDigit now fresh None
              input s).1
         = backend.Store_List s ++ [entry]
         ∧ backend.Entry.BrewedAt entry = backend.EntryInput.BrewedAt input).
Proof.
  split; [vm_compute; reflexivity|]. split; [vm_compute; reflexivity|].
  split; [|split].
  - intros H.
    assert (backend.Store_List Store_after_two_posts
            = [january_entry; february_entry]) as Heq by (vm_compute; reflexivity).
    rewrite Heq in H. apply Sorted_inv in H as [_ H].
    apply HdRel_inv in H. vm_compute in H. by apply H.
  - done.
  - intros TrimSpace IsLetter IsDigit now fresh input s id Hid.
    unfold backend.Store_Create. rewrite Hid. simpl. eauto.
Qed.

(** ** The sample data, run *)

(** The adapter on a reply to a create. *)
Example createEntry_reply :
  createEntry scripted payload_e1 [reply 201 (JEntry server_e1_created)]
  = ([], Ok (toEntry server_e1_created))
  ∧ Entry.syncStatus (toEntry server_e1_created) = Some synced.
Proof. split; reflexivity. Qed.

(** The end-to-end scenario: one queued create, one pass, the server accepts:
    the entry is [synced] in the Local Store, the outbox is empty, the state
    is [idle]. *)
Example pass_end_to_end :
  storage.getAllEntries
    (local (runSync scripted compareCodes (Some "token") true
              (device single_store accepted_once)))
  = [toEntry server_e1_created]
  ∧ outbox (local (runSync scripted compareCodes (Some "token") true
                     (device single_store accepted_once))) = ∅
  ∧ syncState (runSync scripted compareCodes (Some "token") true
                 (device single_store accepted_once)) = idle
  ∧ error (runSync scripted compareCodes (Some "token") true
             (device single_store accepted_once)) = None.
Proof. repeat split; vm_compute; reflexivity. Qed.

(** The browser is off line: the pass does nothing but set the state. *)
Example pass_off_line :
  runSync scripted compareCodes (Some "token") false
    (device single_store accepted_once)
  = setSyncState offline (device single_store accepted_once).
Proof. reflexivity. Qed.

(** The SQL update of the row [x1] of user [u1]. *)
Example updateEntry_x1 :
  backend.updateEntry backend.asciiTrimSpace backend.asciiIsLetter
    backend.asciiIsDigit (fun _ => Some 1714550400) (fun t => pretty t)
    1714560000 backend.quiet [row_x1] "u1" " x1 " edit_x1
  = ([backend.mkRow "x1" "u1" "Yirgacheffe" "pour_over" "sweeter" 5
        1714550400 1714550460 1714560000],
     (backend.Entry.mk "x1" "Yirgacheffe" "pour_over" "sweeter" 5
        "1714550400" "1714550460" "1714560000", true, None)).
Proof. vm_compute. reflexivity. Qed.

(** An update of an id that the table does not have finds nothing and
    changes nothing. *)
Example updateEntry_absent :
  backend.updateEntry backend.asciiTrimSpace backend.asciiIsLetter
    backend.asciiIsDigit (fun _ => Some 1714550400) (fun t => pretty t)
    1714560000 backend.quiet [row_x1] "u1" "x2" edit_x1
  = ([row_x1], (backend.Entry.zero, false, None)).
Proof. vm_compute. reflexivity. Qed.

(** * More of the code *)

(** ** The adapter and the drain when a call fails *)
Section FailureFacts.
Context {W : Type}.
Variable fetch : Request → W → W * Result Response.
Variable localeCompare : string → string → Z.

(** The message with which the adapter throws on a reply that is not 2xx. *)
Lemma ensureOk_Err (response : Response) :
  ok response = false →
  ensureOk response
  = Err match json response with
        | Ok (JError e) => e
        | _ => "Request failed (" +:+ pretty (status response) +:+ ")"
        end.
Proof.
  intros Hok. unfold ensureOk. rewrite Hok.
  by destruct (json response) as [[]|].
Qed.

Lemma ensureOk_Ok_inv (response response' : Response) :
  ensureOk response = Ok response' → ok response = true.
Proof.
  unfold ensureOk. destruct (ok response); [done|].
  by destruct (json response) as [[]|].
Qed.

Lemma callRemote_thrown (item : OutboxItem.t) (s : State W) (req : Request)
    (m : string) :
  requestOf item = Some req →
  thrown req (fetch req (net s)).2 = Some m →
  callRemote fetch item s
  = (mkState (local s) (syncState s) (error s) (fetch req (net s)).1
       (calls s ++ [mkCall req false]), Err m).
Proof.
  unfold requestOf, callRemote, thrown.
  destruct (OutboxItem.action item), (OutboxItem.payload item) as [payload|];
    intros [= <-]; rewrite remote_eq;
    unfold createEntry, updateEntry, deleteEntryRemote;
    destruct (fetch _ (net s)) as [w' [response|m']]; simpl;
    try (by intros [= ->]).
  - destruct (ok response) eqn:Hok; [done|]. intros [= <-].
    by rewrite (ensureOk_Err _ Hok).
  - destruct (ok response) eqn:Hok; [done|]. intros [= <-].
    by rewrite (ensureOk_Err _ Hok).
  - destruct (ok response) eqn:Hok; [done|].
    destruct (status response =? 404); [done|]. intros [= <-].
    by rewrite (ensureOk_Err _ Hok).
  - destruct (ok response) eqn:Hok; [done|].
    destruct (status response =? 404); [done|]. intros [= <-].
    by rewrite (ensureOk_Err _ Hok).
Qed.

End FailureFacts.

Section FailureClaims.
Context {W : Type}.
Variable fetch : Request → W → W * Result Response.
Variable localeCompare : string → string → Z.

(** X1.  The adapter functions return only on a 2xx reply, [deleteEntry]
    also on a 404; on any other reply and when the network rejects they
    throw. *)
Theorem adapters_return_only_on_2xx_or_deleted :
  (∀ w w' l, fetchEntries fetch w = (w', Ok l) →
     ∃ response, fetch GET_entries w = (w', Ok response) ∧ ok response = true)
  ∧ (∀ payload w w' e, createEntry fetch payload w = (w', Ok e) →
       ∃ response,
         fetch (POST_entries payload) w = (w', Ok response)
         ∧ ok response = true)
  ∧ (∀ id payload w w' e, updateEntry fetch id payload w = (w', Ok e) →
       ∃ response,
         fetch (PUT_entry id payload) w = (w', Ok response)
         ∧ ok response = true)
  ∧ (∀ id w w' u,
       deleteEntryRemote fetch id w = (w', Ok u)
       ↔ ∃ response,
           fetch (DELETE_entry id) w = (w', Ok response)
           ∧ (status response = 404 ∨ ok response = true)).
Proof.
  repeat split.
  - intros w w' l. unfold fetchEntries.
    destruct (fetch GET_entries w) as [w1 [response|m]]; [|done].
    intros [= <- H]. simpl in H.
    apply bind_Ok_inv in H as (r2 & H & _). apply ensureOk_Ok_inv in H. eauto.
  - intros payload w w' e. unfold createEntry.
    destruct (fetch _ w) as [w1 [response|m]]; [|done].
    intros [= <- H]. simpl in H.
    apply bind_Ok_inv in H as (r2 & H & _). apply ensureOk_Ok_inv in H. eauto.
  - intros id payload w w' e. unfold updateEntry.
    destruct (fetch _ w) as [w1 [response|m]]; [|done].
    intros [= <- H]. simpl in H.
    apply bind_Ok_inv in H as (r2 & H & _). apply ensureOk_Ok_inv in H. eauto.
  - unfold deleteEntryRemote.
    destruct (fetch _ w) as [w1 [response|m]]; [|done].
    intros [= <- H]. exists response. split; [done|]. simpl in H.
    destruct (Z.eqb_spec (status response) 404) as [H404|_]; [by left|].
    right. apply bind_Ok_inv in H as (r2 & H & _).
    by apply ensureOk_Ok_inv in H.
  - intros (response & Hf & Hs). unfold deleteEntryRemote. rewrite Hf. simpl.
    destruct u. destruct (Z.eqb_spec (status response) 404) as [|Hne]; [done|].
    destruct Hs as [Hs|Hs]; [done|]. unfold ensureOk. by rewrite Hs.
Qed.

(** X2.  When the call for the first item of a drain gets a reply that is
    not 2xx (and, for a delete, not 404), the drain stops there: the message
    shown is the [error] field of the body when the body has one, and
    ["Request failed (<status>)"] when not; the Local Store is not touched,
    the item stays queued, and no later call is made. *)
Theorem rejected_call_is_reported (item : OutboxItem.t) (rest : list OutboxItem.t)
    (s : State W) (req : Request) (w' : W) (response : Response) :
  requestOf item = Some req →
  fetch req (net s) = (w', Ok response) →
  ok response = false →
  (∀ id, req = DELETE_entry id → status response ≠ 404) →
  let s' := drain fetch (item :: rest) s in
  error s'
  = Some match json response with
         | Ok (JError e) => e
         | _ => "Request failed (" +:+ pretty (status response) +:+ ")"
         end
  ∧ local s' = local s
  ∧ calls s' = calls s ++ [mkCall req false].
Proof.
  intros Hreq Hf Hok H404 s'. subst s'. simpl. unfold drainItem.
  rewrite (callRemote_thrown fetch item s req
             match json response with
             | Ok (JError e) => e
             | _ => "Request failed (" +:+ pretty (status response) +:+ ")"
             end Hreq).
  - by rewrite Hf.
  - rewrite Hf. simpl. rewrite Hok. destruct req; try done.
    destruct (Z.eqb_spec (status response) 404) as [H|_]; [|done].
    by destruct (H404 id).
Qed.

End FailureClaims.

Lemma rejected_call_is_reported_witness :
  requestOf create_e1 = Some (POST_entries payload_e1)
  ∧ ok (mkResponse 400 (Ok (JError "beans is required"))) = false
  ∧ error (drain scripted [create_e1; delete_e9]
             (device unsynced_store rejected_then_listing))
    = Some "beans is required".
Proof.
  split; [reflexivity|]. split; [reflexivity|].
  exact (proj1
    (rejected_call_is_reported scripted create_e1 [delete_e9]
       (device unsynced_store rejected_then_listing)
       (POST_entries payload_e1) [reply 200 (JEntries [server_e2])]
       (mkResponse 400 (Ok (JError "beans is required")))
       eq_refl eq_refl eq_refl (fun id H => ltac:(discriminate H)))).
Defined.

(** ** A pass in front of a server that cannot be reached *)
Section UnreachableFacts.
Context {W : Type}.
Variable fetch : Request → W → W * Result Response.
Variable localeCompare : string → string → Z.
Variable w : W.
Hypothesis Hdown : ∀ req, ∃ m, fetch req w = (w, Err m).

Lemma drain_unreachable (items : list OutboxItem.t) (s : State W) :
  net s = w →
  entries (local (drain fetch items s)) = entries (local s)
  ∧ net (drain fetch items s) = w
  ∧ ∀ item, item ∈ (drained fetch items s).1 → requestOf item = None.
Proof.
  revert s. induction items as [|item rest IH]; intros s Hnet; simpl.
  - split; [done|]. split; [done|]. intros item H. by apply elem_of_nil in H.
  - unfold drainItem. destruct (requestOf item) as [req|] eqn:Hreq.
    + destruct (Hdown req) as [m Hm].
      rewrite (callRemote_thrown fetch item s req m Hreq)
        by (rewrite Hnet, Hm; done).
      simpl. rewrite Hnet, Hm. split; [done|]. split; [done|].
      intros it H. by apply elem_of_nil in H.
    + destruct (callRemote_spec fetch item s) as (w' & r & -> & _ & Hnone).
      destruct (Hnone Hreq) as [-> ->]. simpl.
      match goal with
      | |- context [drain fetch rest ?s1] =>
          destruct (IH s1 Hnet) as (He & Hn & Hran);
          destruct (drained fetch rest s1) as [ran kept]
      end.
      simpl in *. split; [exact He|]. split; [exact Hn|].
      intros it [->|Hit]%elem_of_cons; [done|by apply Hran].
Qed.

Lemma fetchEntries_unreachable : ∃ m, fetchEntries fetch w = (w, Err m).
Proof.
  destruct (Hdown GET_entries) as [m Hm]. exists m.
  unfold fetchEntries. by rewrite Hm.
Qed.

End UnreachableFacts.

Section PassFacts.
Context {W : Type}.
Variable fetch : Request → W → W * Result Response.
Variable localeCompare : string → string → Z.

(** X3.  The server cannot be reached (every request is rejected).  A pass
    then leaves the entries store as it is, keeps every outbox item for
    which the drain has a request, and ends [offline] with a message. *)
Theorem unreachable_server_keeps_local_changes (token : option string)
    (s : State W) :
  has_token token = true →
  outbox_keyed (outbox (local s)) →
  (∀ req, ∃ m, fetch req (net s) = (net s, Err m)) →
  let s' := runSync fetch localeCompare token true s in
  entries (local s') = entries (local s)
  ∧ (∀ k item,
       outbox (local s) !! k = Some item → is_Some (requestOf item) →
       outbox (local s') !! k = Some item)
  ∧ syncState s' = offline
  ∧ is_Some (error s').
Proof.
  intros Htok Hk Hdown s'.
  set (s0 := setError None (setSyncState syncing s)).
  assert (outbox_keyed (outbox (local s0))) as Hk0 by done.
  destruct (processOutbox_outcome fetch localeCompare token s0 Hk0 Htok)
    as (Hsplit & _ & Hstay & _ & _ & _ & _).
  destruct (drain_unreachable fetch (net s) Hdown
              (refreshOutbox localeCompare s0) s0 eq_refl) as (Hent & Hnet & Hran).
  set (s1 := processOutbox fetch localeCompare token s0) in *.
  assert (s1 = drain fetch (refreshOutbox localeCompare s0) s0) as Hs1.
  { unfold s1, processOutbox. by rewrite Htok. }
  destruct (fetchEntries_unreachable fetch (net s) Hdown) as [m Hm].
  assert (s' = setSyncState offline
                 (setError (Some m)
                    (mkState (local s1) (syncState s1) (error s1) (net s)
                       (calls s1 ++ [mkCall GET_entries false])))) as ->.
  { subst s'. rewrite runSync_eq by done. simpl. fold s0. fold s1.
    rewrite syncFromServer_eq. rewrite Hs1, Hnet, Hm. simpl. done. }
  simpl. rewrite Hs1, Hent. repeat split; [|eauto].
  intros k item Hin Hreq. rewrite <- Hs1.
  assert (item ∈ refreshOutbox localeCompare s0) as Hitem.
  { rewrite refreshOutbox_perm. apply getOutboxItems_elem_of. eauto. }
  rewrite Hsplit in Hitem. apply elem_of_app in Hitem as [Hitem|Hitem].
  - apply Hran in Hitem. rewrite Hitem in Hreq. by destruct Hreq.
  - rewrite <- (Hk _ _ Hin). by apply Hstay.
Qed.

Lemma callsOf_true_succeeded (ran : list OutboxItem.t) :
  Forall (fun c => succeeded c = true) (concat (map (callsOf true) ran)).
Proof.
  induction ran as [|item ran IH]; simpl; [constructor|].
  apply Forall_app. split; [|done].
  unfold callsOf. destruct (requestOf item); repeat constructor.
Qed.

(** X4.  A pass with a token and the browser on line never ends [syncing]:
    its last call is the listing, and it ends [idle] when the listing
    succeeds and [offline] when it fails.  A pass that starts without error
    message ends without one exactly when every call of the pass succeeded. *)
Theorem pass_ends_idle_or_offline (token : option string) (s : State W) :
  has_token token = true →
  let s' := runSync fetch localeCompare token true s in
  ∃ new listed,
    calls s' = calls s ++ new ++ [mkCall GET_entries listed]
    ∧ syncState s' = (if listed then idle else offline)
    ∧ (error s' = None
       ↔ listed = true ∧ Forall (fun c => succeeded c = true) new).
Proof.
  intros Htok s'.
  set (s0 := setError None (setSyncState syncing s)).
  destruct (drained fetch (refreshOutbox localeCompare s0) s0)
    as [ran kept] eqn:Hd.
  destruct (drain_spec fetch _ _ _ _ Hd) as (_ & Hcalls & _ & Hsync & Herr).
  set (s1 := processOutbox fetch localeCompare token s0).
  assert (s1 = drain fetch (refreshOutbox localeCompare s0) s0) as Hs1.
  { unfold s1, processOutbox. by rewrite Htok. }
  rewrite <- Hs1 in Hcalls, Hsync, Herr.
  exists (concat (map (callsOf true) ran)
          ++ match kept with failing :: _ => callsOf false failing | [] => [] end),
         (is_ok (fetchEntries fetch (net s1)).2).
  subst s'. rewrite runSync_eq by done. simpl. fold s0. fold s1.
  rewrite syncFromServer_eq.
  destruct (fetchEntries fetch (net s1)).2 as [l|m]; simpl.
  - rewrite Hcalls. simpl. split; [by rewrite <- !app_assoc|]. split; [done|].
    destruct kept as [|failing kept].
    + rewrite Herr. simpl. rewrite app_nil_r. split; [|done].
      intros _. split; [done|]. apply callsOf_true_succeeded.
    + destruct Herr as [[e He] [req Hreq]]. rewrite He. split; [done|].
      intros [_ Hall]. apply Forall_app in Hall as [_ Hall].
      unfold callsOf in Hall. rewrite Hreq in Hall.
      by apply Forall_inv in Hall.
  - rewrite Hcalls. simpl. split; [by rewrite <- !app_assoc|]. split; [done|].
    split; [done|]. by intros [? _].
Qed.

End PassFacts.

Lemma unreachable_server_keeps_local_changes_witness :
  has_token (Some "token") = true
  ∧ (∀ req, ∃ m, scripted req [] = ([], Err m))
  ∧ syncState (runSync scripted compareCodes (Some "token") true
                 (device unsynced_store [])) = offline.
Proof.
  split; [reflexivity|].
  assert (∀ req, ∃ m, scripted req [] = ([], Err m)) as Hdown
    by (intros req; by eexists).
  split; [exact Hdown|].
  exact (proj1 (proj2 (proj2
    (unreachable_server_keeps_local_changes scripted compareCodes
       (Some "token") (device unsynced_store [])
       eq_refl unsynced_store_keyed Hdown)))).
Defined.

Lemma pass_ends_idle_or_offline_witness :
  has_token (Some "token") = true
  ∧ ∃ new listed,
      calls (runSync scripted compareCodes (Some "token") true
               (device single_store accepted_once))
      = [] ++ new ++ [mkCall GET_entries listed]
      ∧ syncState (runSync scripted compareCodes (Some "token") true
                     (device single_store accepted_once))
        = (if listed then idle else offline)
      ∧ (error (runSync scripted compareCodes (Some "token") true
                  (device single_store accepted_once)) = None
         ↔ listed = true ∧ Forall (fun c => succeeded c = true) new).
Proof.
  split; [reflexivity|].
  exact (pass_ends_idle_or_offline scripted compareCodes (Some "token")
           (device single_store accepted_once) eq_refl).
Defined.

(** ** One record per id *)
Lemma putEntries_keyed (l : list Entry.t) (m : gmap string Entry.t) :
  entries_keyed m →
  entries_keyed (foldl (fun m entry => <[Entry.id entry := entry]> m) m l).
Proof.
  revert m. induction l as [|e l IH]; intros m Hm; simpl; [done|].
  by apply IH, entries_keyed_insert.
Qed.

Section KeyedFacts.
Context {W : Type}.
Variable fetch : Request → W → W * Result Response.
Variable localeCompare : string → string → Z.
Variable trim : string → string.
Variable fromLocalInput : string → Result string.

Lemma drain_keyed (items : list OutboxItem.t) (s : State W) :
  keyed (local s) → keyed (local (drain fetch items s)).
Proof.
  revert s. induction items as [|item rest IH]; intros s Hk; simpl; [done|].
  destruct (drainItem fetch item s) as [s' [u|m]] eqn:Hitem.
  - apply IH. destruct Hk as [He Ho].
    apply drainItem_Ok in Hitem as (Hout & _ & _ & _ & Hent). split.
    + destruct Hent as [->|(e & _ & ->)]; [done|]. by apply entries_keyed_insert.
    + rewrite Hout. by apply outbox_keyed_delete.
  - apply drainItem_Err in Hitem as (Hloc & _). simpl. by rewrite Hloc.
Qed.

Lemma runSync_keyed (token : option string) (onLine : bool) (s : State W) :
  keyed (local s) → keyed (local (runSync fetch localeCompare token onLine s)).
Proof.
  intros Hk. unfold runSync.
  destruct (has_token token) eqn:Htok; simpl; [|done].
  destruct onLine; simpl; [|done].
  unfold processOutbox. rewrite Htok. simpl.
  match goal with
  | |- context [syncFromServer fetch ?s1] =>
      assert (keyed (local s1)) as [He Ho] by (by apply drain_keyed);
      rewrite (syncFromServer_eq fetch s1);
      destruct (fetchEntries fetch (net s1)).2 as [l|m]; simpl
  end.
  - split; [|done]. apply putEntries_keyed, entries_keyed_empty.
  - done.
Qed.

(** X5.  The Local Store never holds two records under one id, and never a
    record under another id than its own: a pass, signing out, a submit and
    a delete keep that, so the list of all entries has pairwise distinct ids
    after each of them. *)
Theorem local_store_keeps_one_record_per_id (s : State W) :
  keyed (local s) →
  (∀ token onLine,
     keyed (local (runSync fetch localeCompare token onLine s))
     ∧ NoDup (map Entry.id
                (storage.getAllEntries
                   (local (runSync fetch localeCompare token onLine s)))))
  ∧ keyed (local (handleLogout s))
  ∧ (∀ requiredError form editingId shown id1 id2 now1 now2 token onLine,
       keyed (local (handleSubmit fetch localeCompare trim fromLocalInput
                       requiredError form editingId shown id1 id2 now1 now2
                       token onLine s)))
  ∧ (∀ entry id1 now1 token onLine,
       keyed (local (handleDelete fetch localeCompare entry id1 now1 token
                       onLine s))).
Proof.
  intros Hk. split; [|split; [|split]].
  - intros token onLine.
    pose proof (runSync_keyed token onLine s Hk) as Hk'.
    split; [done|]. apply getAllEntries_NoDup. by destruct Hk'.
  - split; [apply entries_keyed_empty|apply outbox_keyed_empty].
  - intros requiredError form editingId shown id1 id2 now1 now2 token onLine.
    destruct Hk as [He Ho]. unfold handleSubmit.
    destruct (fromLocalInput (Form.brewedAt form)) as [brewedAt|m]; [|done].
    destruct (bool_decide (trim (Form.beans form) = "")
              || bool_decide (trim (Form.brewMethod form) = "")); [done|].
    assert (∀ e i, keyed (local
              (runSync fetch localeCompare token onLine
                 (onStore (storage.putOutboxItem i)
                    (onStore (storage.putEntry e) (setError None s))))))
      as Hput.
    { intros e i. apply runSync_keyed. split; simpl.
      - by apply entries_keyed_insert.
      - by apply outbox_keyed_insert. }
    destruct editingId as [eid|]; [|apply Hput].
    destruct (bool_decide (eid = "")); [apply Hput|].
    destruct (find _ shown); [apply Hput|done].
  - intros entry id1 now1 token onLine. destruct Hk as [He Ho].
    unfold handleDelete. apply runSync_keyed. split; simpl.
    + by apply entries_keyed_delete.
    + by apply (outbox_keyed_insert _ (OutboxItem.mk id1 delete_ _ None now1)).
Qed.

End KeyedFacts.

Lemma unsynced_store_is_keyed : keyed unsynced_store.
Proof.
  split.
  - apply (entries_keyed_insert _ entry_e1), entries_keyed_empty.
  - apply (outbox_keyed_insert _ create_e1), (outbox_keyed_insert _ delete_e9),
      outbox_keyed_empty.
Defined.

Lemma local_store_keeps_one_record_per_id_witness :
  keyed (local (runSync scripted compareCodes (Some "token") true
                  (device unsynced_store rejected_then_listing)))
  ∧ storage.getAllEntries
      (local (runSync scripted compareCodes (Some "token") true
                (device unsynced_store rejected_then_listing)))
    = [entry_e1; toEntry server_e2].
Proof.
  split; [|vm_compute; reflexivity].
  exact (proj1 (proj1
    (local_store_keeps_one_record_per_id scripted compareCodes (fun x => x)
       (fun x => Ok x) (device unsynced_store rejected_then_listing)
       unsynced_store_is_keyed) (Some "token") true)).
Defined.

(** ** What the reconcile step leaves in the Local Store *)
Lemma NoDup_id_eq (l : list Entry.t) (x y : Entry.t) :
  NoDup (map Entry.id l) → x ∈ l → y ∈ l → Entry.id x = Entry.id y → x = y.
Proof.
  induction l as [|e l IH]; simpl; intros Hnd Hx Hy Hid.
  - by apply elem_of_nil in Hx.
  - apply NoDup_cons in Hnd as [He Hnd].
    apply elem_of_cons in Hx as [->|Hx]; apply elem_of_cons in Hy as [->|Hy].
    + done.
    + exfalso. apply He. rewrite Hid. by apply list_elem_of_fmap_2.
    + exfalso. apply He. rewrite <- Hid. by apply list_elem_of_fmap_2.
    + by apply IH.
Qed.

Section ReconcileFacts.
Context {W : Type}.
Variable fetch : Request → W → W * Result Response.

(** The entries store after a reconcile step, id by id. *)
Lemma syncFromServer_lookup (s : State W) (remoteEntries : list Entry.t)
    (w' : W) (k : string) :
  entries_keyed (entries (local s)) →
  NoDup (map Entry.id remoteEntries) →
  fetchEntries fetch (net s) = (w', Ok remoteEntries) →
  entries (local (syncFromServer fetch s).1) !! k
  = match entries (local s) !! k with
    | Some p =>
        if is_pending p then Some p
        else find (fun r => bool_decide (Entry.id r = k)) remoteEntries
    | None => find (fun r => bool_decide (Entry.id r = k)) remoteEntries
    end.
Proof.
  intros Hk Hnd Hfetch. rewrite syncFromServer_eq, Hfetch. simpl.
  set (merged := merge (storage.getAllEntries (local s)) remoteEntries).
  assert (∀ p, entries (local s) !! k = Some p → is_pending p = true →
            foldl (fun m entry => <[Entry.id entry := entry]> m)
              (∅ : gmap string Entry.t) merged !! k
            = Some p) as Hpending.
  { intros p Hp Hpend. apply putEntries_lookup_unique.
    - apply merge_pending; [done| |done]. by rewrite (Hk _ _ Hp).
    - by apply Hk.
    - intros x Hx Hid.
      destruct (merge_elem_of (local s) Hk remoteEntries x Hx) as [[Hxk _]|[_ Hno]].
      + rewrite Hid, Hp in Hxk. by injection Hxk.
      + rewrite Hid in Hno. specialize (Hno _ Hp). congruence. }
  assert ((∀ p, entries (local s) !! k = Some p → is_pending p = false) →
            foldl (fun m entry => <[Entry.id entry := entry]> m)
              (∅ : gmap string Entry.t) merged !! k
            = find (fun r => bool_decide (Entry.id r = k)) remoteEntries)
    as Hremote.
  { intros Hno.
    destruct (find _ remoteEntries) as [r|] eqn:Hfind.
    - apply find_some in Hfind as [Hr Hid].
      apply list_elem_of_In in Hr. apply bool_decide_eq_true_1 in Hid.
      assert (chosen (local s) r = r) as Hchosen.
      { unfold chosen. rewrite pendingMap_get by done. rewrite Hid.
        destruct (entries (local s) !! k) as [p|] eqn:Hp; [|done].
        by rewrite (Hno p eq_refl). }
      apply putEntries_lookup_unique; [|done|].
      + rewrite <- Hchosen. by apply merge_remote.
      + intros x Hx Hxid.
        destruct (merge_elem_of (local s) Hk remoteEntries x Hx)
          as [[Hxk Hxp]|[Hxr _]].
        * rewrite Hxid in Hxk. rewrite (Hno _ Hxk) in Hxp. done.
        * apply (NoDup_id_eq remoteEntries); [done..|congruence].
    - rewrite putEntries_lookup_other; [apply lookup_empty|].
      intros x Hx Hxid.
      destruct (merge_elem_of (local s) Hk remoteEntries x Hx)
        as [[Hxk Hxp]|[Hxr _]].
      + rewrite Hxid in Hxk. rewrite (Hno _ Hxk) in Hxp. done.
      + apply list_elem_of_In in Hxr.
        pose proof (find_none _ _ Hfind x Hxr) as Hf. simpl in Hf.
        by apply bool_decide_eq_false_1 in Hf. }
  destruct (entries (local s) !! k) as [p|] eqn:Hp.
  - destruct (is_pending p) eqn:Hpend; [by apply Hpending|].
    apply Hremote. by intros p' [= <-].
  - apply Hremote. by intros p' [=].
Qed.

(** X6.  After a reconcile step whose listing succeeded (the listing has
    pairwise distinct ids), the Local Store holds under each id: the entry
    it held there before when that entry is pending; otherwise the entry of
    the listing with that id; and nothing when the listing has none.  So a
    synced entry that the server no longer lists is dropped, and a synced
    entry is replaced by the server's version. *)
Theorem reconcile_result (s : State W) (remoteEntries : list Entry.t) (w' : W)
    (k : string) :
  entries_keyed (entries (local s)) →
  NoDup (map Entry.id remoteEntries) →
  fetchEntries fetch (net s) = (w', Ok remoteEntries) →
  entries (local (syncFromServer fetch s).1) !! k
  = match entries (local s) !! k with
    | Some p =>
        if is_pending p then Some p
        else find (fun r => bool_decide (Entry.id r = k)) remoteEntries
    | None => find (fun r => bool_decide (Entry.id r = k)) remoteEntries
    end.
Proof. apply syncFromServer_lookup. Qed.

End ReconcileFacts.

Lemma mixed_store_keyed : entries_keyed (entries mixed_store).
Proof.
  apply (entries_keyed_insert _ entry_e1), (entries_keyed_insert _ entry_e3),
    entries_keyed_empty.
Defined.

Lemma listing_e1_e2_NoDup :
  NoDup (map Entry.id [toEntry server_e1; toEntry server_e2]).
Proof.
  apply NoDup_cons. split.
  - intros H. apply list_elem_of_singleton in H. discriminate H.
  - apply NoDup_singleton.
Defined.

Lemma reconcile_result_witness :
  fetchEntries scripted listing_e1_e2
  = ([], Ok [toEntry server_e1; toEntry server_e2])
  ∧ entries (local (syncFromServer scripted
                      (device mixed_store listing_e1_e2)).1) !! "e3" = None
  ∧ entries (local (syncFromServer scripted
                      (device mixed_store listing_e1_e2)).1) !! "e1"
    = Some entry_e1
  ∧ entries (local (syncFromServer scripted
                      (device mixed_store listing_e1_e2)).1) !! "e2"
    = Some (toEntry server_e2).
Proof.
  split; [reflexivity|]. split; [|split].
  - exact (reconcile_result scripted (device mixed_store listing_e1_e2)
             [toEntry server_e1; toEntry server_e2] [] "e3"
             mixed_store_keyed listing_e1_e2_NoDup eq_refl).
  - exact (reconcile_result scripted (device mixed_store listing_e1_e2)
             [toEntry server_e1; toEntry server_e2] [] "e1"
             mixed_store_keyed listing_e1_e2_NoDup eq_refl).
  - exact (reconcile_result scripted (device mixed_store listing_e1_e2)
             [toEntry server_e1; toEntry server_e2] [] "e2"
             mixed_store_keyed listing_e1_e2_NoDup eq_refl).
Defined.

(** ** A queued mutation is not lost *)
Section MutationFacts.
Context {W : Type}.
Variable fetch : Request → W → W * Result Response.
Variable localeCompare : string → string → Z.
Variable trim : string → string.
Variable fromLocalInput : string → Result string.

(** An item that is in the outbox store when a pass starts is still there
    when the pass ends, or the pass made a successful call with its
    request. *)
Lemma runSync_keeps_or_sends (token : option string) (onLine : bool)
    (s : State W) (k : string) (item : OutboxItem.t) (req : Request) :
  outbox_keyed (outbox (local s)) →
  outbox (local s) !! k = Some item →
  requestOf item = Some req →
  ∃ new,
    calls (runSync fetch localeCompare token onLine s) = calls s ++ new
    ∧ (outbox (local (runSync fetch localeCompare token onLine s)) !! k
       = Some item
       ∨ mkCall req true ∈ new).
Proof.
  intros Hk Hin Hreq.
  destruct (has_token token) eqn:Htok.
  2:{ exists []. unfold runSync. rewrite Htok. simpl. rewrite app_nil_r. eauto. }
  destruct onLine.
  2:{ exists []. unfold runSync. rewrite Htok. simpl. rewrite app_nil_r. eauto. }
  rewrite (runSync_eq fetch localeCompare token s Htok).
  set (s0 := setError None (setSyncState syncing s)).
  assert (outbox_keyed (outbox (local s0))) as Hk0 by exact Hk.
  destruct (processOutbox_outcome fetch localeCompare token s0 Hk0 Htok)
    as (Hsplit & Hcalls & Hstay & _).
  assert (item ∈ refreshOutbox localeCompare s0) as Hitem.
  { rewrite refreshOutbox_perm. apply getOutboxItems_elem_of. eauto. }
  rewrite Hsplit in Hitem.
  cbv zeta. fold s0.
  set (s1 := processOutbox fetch localeCompare token s0) in *.
  rewrite (syncFromServer_eq fetch s1).
  assert (calls s0 = calls s) as Hc0 by reflexivity.
  destruct (fetchEntries fetch (net s1)).2 as [l|m].
  - eexists. split.
    + cbn [calls setSyncState]. rewrite Hcalls, Hc0, <- !app_assoc. reflexivity.
    + cbn [local setSyncState storage.putEntries storage.clearEntries outbox].
      apply elem_of_app in Hitem as [Hitem|Hitem].
      * right. apply elem_of_app. left. by apply (callsOf_ran item).
      * left. rewrite <- (Hk _ _ Hin). by apply Hstay.
  - eexists. split.
    + cbn [calls setSyncState setError]. rewrite Hcalls, Hc0, <- !app_assoc.
      reflexivity.
    + cbn [local setSyncState setError].
      apply elem_of_app in Hitem as [Hitem|Hitem].
      * right. apply elem_of_app. left. by apply (callsOf_ran item).
      * left. rewrite <- (Hk _ _ Hin). by apply Hstay.
Qed.

(** X7.  A change made on the device is not lost silently, whatever the
    network does.  After [handleSubmit] of a valid form for a new entry, the
    create item of the entry is in the outbox store, or a create call with
    its payload succeeded.  After [handleSubmit] for an entry that is being
    edited, the same holds for the update item, which carries the id and
    [createdAt] of the entry; after [handleDelete], for the delete item. *)
Theorem mutations_are_queued_or_sent (s : State W) :
  outbox_keyed (outbox (local s)) →
  (∀ requiredError form shown id1 id2 now1 now2 token onLine brewedAt,
     fromLocalInput (Form.brewedAt form) = Ok brewedAt →
     trim (Form.beans form) ≠ "" →
     trim (Form.brewMethod form) ≠ "" →
     let newEntry :=
       Entry.mk id1 (trim (Form.beans form)) (trim (Form.brewMethod form))
         (trim (Form.notes form)) (Form.rating form) brewedAt now1 now1
         (Some pending) in
     let s' :=
       handleSubmit fetch localeCompare trim fromLocalInput requiredError form
         None shown id1 id2 now1 now2 token onLine s in
     ∃ new,
       calls s' = calls s ++ new
       ∧ (outbox (local s') !! id2
          = Some (OutboxItem.mk id2 create id1 (Some (toPayload newEntry)) now1)
          ∨ mkCall (POST_entries (toPayload newEntry)) true ∈ new))
  ∧ (∀ requiredError form eid previous shown id1 id2 now1 now2 token onLine
       brewedAt,
       fromLocalInput (Form.brewedAt form) = Ok brewedAt →
       trim (Form.beans form) ≠ "" →
       trim (Form.brewMethod form) ≠ "" →
       eid ≠ "" →
       find (fun entry => bool_decide (Entry.id entry = eid)) shown
       = Some previous →
       let updated :=
         edited previous (trim (Form.beans form)) (trim (Form.brewMethod form))
           (trim (Form.notes form)) (Form.rating form) brewedAt now1 in
       let s' :=
         handleSubmit fetch localeCompare trim fromLocalInput requiredError
           form (Some eid) shown id1 id2 now1 now2 token onLine s in
       Entry.id updated = eid
       ∧ Entry.createdAt updated = Entry.createdAt previous
       ∧ ∃ new,
           calls s' = calls s ++ new
           ∧ (outbox (local s') !! id1
              = Some (OutboxItem.mk id1 update eid (Some (toPayload updated))
                        now2)
              ∨ mkCall (PUT_entry eid (toPayload updated)) true ∈ new))
  ∧ (∀ entry id1 now1 token onLine,
       let s' :=
         handleDelete fetch localeCompare entry id1 now1 token onLine s in
       ∃ new,
         calls s' = calls s ++ new
         ∧ (outbox (local s') !! id1
            = Some (OutboxItem.mk id1 delete_ (Entry.id entry) None now1)
            ∨ mkCall (DELETE_entry (Entry.id entry)) true ∈ new)).
Proof.
  intros Hk.
  assert (∀ (i : OutboxItem.t) (e : LocalStore → LocalStore) token onLine req,
            requestOf i = Some req →
            (∀ l, outbox (e l) = outbox l) →
            ∃ new,
              calls (runSync fetch localeCompare token onLine
                       (onStore (storage.putOutboxItem i)
                          (onStore e (setError None s))))
              = calls s ++ new
              ∧ (outbox (local (runSync fetch localeCompare token onLine
                                  (onStore (storage.putOutboxItem i)
                                     (onStore e (setError None s)))))
                   !! OutboxItem.id i = Some i
                 ∨ mkCall req true ∈ new)) as Hqueued.
  { intros i e token onLine req Hreq He.
    destruct (runSync_keeps_or_sends token onLine
                (onStore (storage.putOutboxItem i) (onStore e (setError None s)))
                (OutboxItem.id i) i req) as (new & Hcalls & Hout).
    - cbn [local onStore setError storage.putOutboxItem outbox].
      rewrite He. by apply outbox_keyed_insert.
    - cbn [local onStore setError storage.putOutboxItem outbox].
      apply lookup_insert_eq.
    - done.
    - exists new. split; [exact Hcalls|exact Hout]. }
  split; [|split].
  - intros requiredError form shown id1 id2 now1 now2 token onLine brewedAt
      Hdate Hbeans Hmethod newEntry s'.
    subst s'. unfold handleSubmit. rewrite Hdate. cbv beta iota zeta.
    rewrite !bool_decide_eq_false_2 by done. cbn [orb]. cbv iota.
    fold newEntry.
    exact (Hqueued (OutboxItem.mk id2 create id1 (Some (toPayload newEntry)) now1)
             (storage.putEntry newEntry) token onLine _ eq_refl
             (fun l => eq_refl)).
  - intros requiredError form eid previous shown id1 id2 now1 now2 token onLine
      brewedAt Hdate Hbeans Hmethod Heid Hfind updated s'.
    split; [|split; [done|]].
    { apply find_some in Hfind as [_ H]. by apply bool_decide_eq_true_1 in H. }
    subst s'. unfold handleSubmit. rewrite Hdate. cbv beta iota zeta.
    rewrite !bool_decide_eq_false_2 by done. cbn [orb]. cbv iota.
    rewrite Hfind. cbv iota. fold updated.
    exact (Hqueued (OutboxItem.mk id1 update eid (Some (toPayload updated)) now2)
             (storage.putEntry updated) token onLine _ eq_refl
             (fun l => eq_refl)).
  - intros entry id1 now1 token onLine s'. subst s'. unfold handleDelete.
    cbv zeta.
    exact (Hqueued (OutboxItem.mk id1 delete_ (Entry.id entry) None now1)
             (storage.deleteEntry (Entry.id entry)) token onLine _ eq_refl
             (fun l => eq_refl)).
Qed.

End MutationFacts.

Lemma mutations_are_queued_or_sent_witness :
  ∃ new,
    calls (handleDelete scripted compareCodes entry_e1 "o2"
             "2024-05-02T11:00:00.000Z" (Some "token") true
             (device unsynced_store [])) = [] ++ new
    ∧ (outbox (local (handleDelete scripted compareCodes entry_e1 "o2"
                        "2024-05-02T11:00:00.000Z" (Some "token") true
                        (device unsynced_store []))) !! "o2"
       = Some (OutboxItem.mk "o2" delete_ "e1" None "2024-05-02T11:00:00.000Z")
       ∨ mkCall (DELETE_entry "e1") true ∈ new).
Proof.
  exact (proj2 (proj2
    (mutations_are_queued_or_sent scripted compareCodes (fun x => x)
       (fun x => Ok x) (device unsynced_store []) unsynced_store_keyed))
    entry_e1 "o2" "2024-05-02T11:00:00.000Z" (Some "token") true).
Defined.

(** ** [sortEntries] *)
Lemma compareBrewedAt_total (getTime : string → option Z) (a b : Entry.t) :
  compareBrewedAt getTime a b <= 0 ∨ compareBrewedAt getTime b a <= 0.
Proof.
  unfold compareBrewedAt.
  destruct (getTime (Entry.brewedAt a)), (getTime (Entry.brewedAt b)); lia.
Qed.

(** X8.  [sortEntries] returns the entries it was given, each as often as it
    was given, and, when every [brewedAt] is a date, in the order of the
    brew, the latest first. *)
Theorem sortEntries_latest_first (getTime : string → option Z)
    (l : list Entry.t) :
  (∀ e, e ∈ l → is_Some (getTime (Entry.brewedAt e))) →
  sortEntries getTime l ≡ₚ l
  ∧ Sorted (fun a b =>
              ∃ ta tb,
                getTime (Entry.brewedAt a) = Some ta
                ∧ getTime (Entry.brewedAt b) = Some tb
                ∧ tb <= ta)
           (sortEntries getTime l).
Proof.
  intros Hdates. unfold sortEntries. split; [apply sort_perm|].
  assert (∀ e, e ∈ sort (compareBrewedAt getTime) l →
            is_Some (getTime (Entry.brewedAt e))) as Hsorted.
  { intros e He. apply Hdates. by rewrite sort_perm in He. }
  pose proof (sort_sorted (compareBrewedAt getTime)
                (compareBrewedAt_total getTime) l) as Hs.
  induction Hs as [|a l' Hs IH Hhd]; [constructor|].
  constructor.
  - apply IH. intros e He. apply Hsorted. by right.
  - destruct Hhd as [|b l'' Hab]; constructor.
    destruct (Hsorted a) as [ta Hta]; [by left|].
    destruct (Hsorted b) as [tb Htb]; [right; by left|].
    exists ta, tb. split; [done|]. split; [done|].
    unfold compareBrewedAt in Hab. rewrite Hta, Htb in Hab. lia.
Qed.

Lemma sortEntries_latest_first_witness :
  sortEntries sample_getTime [entry_e3; entry_e1; toEntry server_e2]
  = [entry_e1; toEntry server_e2; entry_e3]
  ∧ sortEntries sample_getTime [entry_e3; entry_e1; toEntry server_e2]
    ≡ₚ [entry_e3; entry_e1; toEntry server_e2].
Proof.
  split; [vm_compute; reflexivity|].
  refine (proj1 (sortEntries_latest_first sample_getTime
                   [entry_e3; entry_e1; toEntry server_e2] _)).
  intros e He.
  apply elem_of_cons in He as [->|He]; [by eexists|].
  apply elem_of_cons in He as [->|He]; [by eexists|].
  apply list_elem_of_singleton in He as ->. by eexists.
Defined.

(** ** [urlBase64ToUint8Array] *)
Lemma length_list_ascii (s : string) :
  length (list_ascii_of_string s) = String.length s.
Proof. induction s as [|c s IH]; simpl; [done|]. by rewrite IH. Qed.

Lemma list_ascii_append (a b : string) :
  list_ascii_of_string (a +:+ b)
  = list_ascii_of_string a ++ list_ascii_of_string b.
Proof. induction a as [|c a IH]; simpl; [done|]. by rewrite IH. Qed.

Lemma replaceAll_chars (from to : ascii) (s : string) :
  list_ascii_of_string (replaceAll from to s)
  = map (fun c => if bool_decide (c = from) then to else c)
        (list_ascii_of_string s).
Proof. unfold replaceAll. apply list_ascii_of_string_of_list_ascii. Qed.

Lemma padded_length (n : nat) : ((n + (4 - n mod 4) mod 4) mod 4 = 0)%nat.
Proof.
  pose proof (Nat.div_mod_eq n 4) as Hn.
  pose proof (Nat.mod_upper_bound n 4) as Hr.
  destruct (n mod 4)%nat as [|[|[|[|r]]]] eqn:Hmod; [..|lia].
  - change ((4 - 0) mod 4)%nat with 0%nat.
    replace (n + 0)%nat with ((n / 4) * 4)%nat by lia. apply Nat.Div0.mod_mul.
  - change ((4 - 1) mod 4)%nat with 3%nat.
    replace (n + 3)%nat with ((n / 4 + 1) * 4)%nat by lia.
    apply Nat.Div0.mod_mul.
  - change ((4 - 2) mod 4)%nat with 2%nat.
    replace (n + 2)%nat with ((n / 4 + 1) * 4)%nat by lia.
    apply Nat.Div0.mod_mul.
  - change ((4 - 3) mod 4)%nat with 1%nat.
    replace (n + 1)%nat with ((n / 4 + 1) * 4)%nat by lia.
    apply Nat.Div0.mod_mul.
Qed.

(** X9.  The string that [urlBase64ToUint8Array] hands to [atob] has a
    length that is a multiple of 4 and has neither [-] nor [_] in it,
    whatever the key; when [atob] returns, the array has one byte for each
    character of what [atob] returned, and when [atob] throws, the function
    throws. *)
Theorem urlBase64_is_padded_and_standard (atob : string → Result string)
    (base64String : string) :
  (String.length (base64Of base64String) mod 4 = 0)%nat
  ∧ ("-"%char ∉ list_ascii_of_string (base64Of base64String))
  ∧ ("_"%char ∉ list_ascii_of_string (base64Of base64String))
  ∧ match atob (base64Of base64String) with
    | Ok rawData =>
        ∃ bytes,
          urlBase64ToUint8Array atob base64String = Ok bytes
          ∧ length bytes = String.length rawData
          ∧ Forall (fun b => 0 <= b < 256) bytes
    | Err m => urlBase64ToUint8Array atob base64String = Err m
    end.
Proof.
  split; [|split; [|split]].
  - rewrite <- length_list_ascii. unfold base64Of.
    rewrite !replaceAll_chars, !length_map, list_ascii_append, length_app.
    rewrite list_ascii_of_string_of_list_ascii, repeat_length, length_list_ascii.
    apply padded_length.
  - unfold base64Of. rewrite !replaceAll_chars.
    intros (c & Hc & Hin)%list_elem_of_fmap.
    apply list_elem_of_fmap in Hin as (c' & -> & _).
    destruct (bool_decide (c' = "-"%char)) eqn:H1; simpl in Hc.
    + discriminate Hc.
    + case_bool_decide; [discriminate Hc|].
      apply bool_decide_eq_false_1 in H1. congruence.
  - unfold base64Of. rewrite replaceAll_chars.
    intros (c & Hc & _)%list_elem_of_fmap.
    case_bool_decide; [discriminate Hc|congruence].
  - unfold urlBase64ToUint8Array.
    destruct (atob (base64Of base64String)) as [rawData|m]; simpl; [|done].
    eexists. split; [reflexivity|]. split.
    + by rewrite length_map, length_list_ascii.
    + apply Forall_forall. intros b (c & -> & _)%list_elem_of_fmap.
      pose proof (nat_ascii_bounded c). lia.
Qed.

(** * More of the backend *)

Lemma delete_first_split (id : string) (l : list backend.Entry.t) :
  match server.delete_first id l with
  | Some l' =>
      ∃ l1 e l2,
        l = l1 ++ e :: l2 ∧ backend.Entry.ID e = id
        ∧ (id ∉ map backend.Entry.ID l1) ∧ l' = l1 ++ l2
  | None => id ∉ map backend.Entry.ID l
  end.
Proof.
  induction l as [|entry l IH]; simpl; [apply not_elem_of_nil|].
  destruct (decide (backend.Entry.ID entry = id)) as [Heq|Hne].
  - exists [], entry, l. repeat split; [done|apply not_elem_of_nil].
  - destruct (server.delete_first id l) as [l'|]; simpl.
    + destruct IH as (l1 & e & l2 & -> & He & Hl1 & ->).
      exists (entry :: l1), e, l2. repeat split; [done|].
      simpl. apply not_elem_of_cons. by split.
    + apply not_elem_of_cons. by split.
Qed.

(** X10.  [Store.Delete] of the JSON-file server removes the first entry
    that has the id, and only that one, and reports [true]; the entry is
    gone from memory also when saving the file fails.  When no entry has the
    id it reports [false] and leaves the store as it is. *)
Theorem Store_Delete_removes_first_match (saveErr : option string) (id : string)
    (s : backend.Store) :
  let s' := (server.Store_Delete saveErr id s).1 in
  let found := (server.Store_Delete saveErr id s).2.1 in
  let err := (server.Store_Delete saveErr id s).2.2 in
  (found = true ↔ id ∈ map backend.Entry.ID (backend.entries s))
  ∧ backend.path s' = backend.path s
  ∧ if found
    then ∃ l1 e l2,
           backend.entries s = l1 ++ e :: l2
           ∧ backend.Entry.ID e = id
           ∧ (id ∉ map backend.Entry.ID l1)
           ∧ backend.entries s' = l1 ++ l2
           ∧ err = saveErr
    else s' = s ∧ err = None.
Proof.
  unfold server.Store_Delete.
  pose proof (delete_first_split id (backend.entries s)) as H.
  destruct (server.delete_first id (backend.entries s)) as [l'|].
  - destruct H as (l1 & e & l2 & Hl & He & Hl1 & ->).
    assert (id ∈ map backend.Entry.ID (backend.entries s)) as Hin.
    { rewrite Hl, map_app. apply elem_of_app. right. simpl. rewrite He. left. }
    destruct saveErr; simpl; (split; [done|split; [done|]]);
      by exists l1, e, l2.
  - simpl. split; [|done]. split; [done|]. intros Hin. by destruct H.
Qed.

Section StoreFacts.
Variable TrimSpace : string → string.
Variable IsLetter : ascii → bool.
Variable IsDigit : ascii → bool.

(** X11.  On the JSON-file server, creating an entry and then deleting the
    id that [Store.Create] returned gives back the store as it was, when no
    entry had that id before. *)
Theorem Store_Create_then_Delete (now fresh : string)
    (input : backend.EntryInput.t) (s s' : backend.Store)
    (entry : backend.Entry.t) :
  backend.Store_Create TrimSpace IsLetter IsDigit now fresh None input s
  = (s', (entry, None)) →
  backend.Entry.ID entry ∉ map backend.Entry.ID (backend.entries s) →
  server.Store_Delete None (backend.Entry.ID entry) s' = (s, (true, None)).
Proof.
  unfold backend.Store_Create.
  destruct (backend.normalizeID _ _ _ _) as [id [err|]]; [done|].
  intros [= <- <-] Hfresh. unfold server.Store_Delete. cbn [backend.entries].
  match goal with
  | |- context [server.delete_first ?i ?l] =>
      pose proof (delete_first_split i l) as H;
      destruct (server.delete_first i l) as [l'|]
  end.
  - destruct H as (l1 & e & l2 & Hl & He & Hl1 & ->).
    destruct l2 as [|x l2 _] using rev_ind.
    + apply app_inj_tail in Hl as [<- _]. rewrite app_nil_r. by destruct s.
    + rewrite app_comm_cons, app_assoc in Hl.
      apply app_inj_tail in Hl as [Hl _]. destruct Hfresh.
      rewrite Hl, map_app. apply elem_of_app. right. simpl. rewrite He. left.
  - destruct H. rewrite map_app. apply elem_of_app. right. simpl. left.
Qed.

End StoreFacts.

Lemma Store_Create_then_Delete_witness :
  server.Store_Delete None "0a"
    (backend.Store_Create backend.asciiTrimSpace backend.asciiIsLetter
       backend.asciiIsDigit "2024-03-01T10:00:00Z" "0a" None brew_january
       empty_Store).1
  = (empty_Store, (true, None)).
Proof.
  apply (Store_Create_then_Delete backend.asciiTrimSpace backend.asciiIsLetter
           backend.asciiIsDigit "2024-03-01T10:00:00Z" "0a" brew_january
           empty_Store _ january_entry).
  - reflexivity.
  - simpl. apply not_elem_of_nil.
Defined.

Lemma selected_key (userID id' : string) (r : backend.Row) :
  backend.selected userID id' r = true ↔ server.key r = (userID, id').
Proof.
  unfold backend.selected, server.key.
  rewrite andb_true_iff, !bool_decide_eq_true.
  split; [by intros [-> ->]|by intros [= -> ->]].
Qed.

Lemma sqlUpdate_keys (input : backend.EntryInput.t) (brewed updated : Z)
    (userID id' : string) (db : list backend.Row) :
  server.key <$> backend.sqlUpdate input brewed updated userID id' db
  = server.key <$> db.
Proof.
  unfold backend.sqlUpdate. induction db as [|r db IH]; [done|].
  simpl. f_equal; [by destruct (backend.selected userID id' r)|exact IH].
Qed.

Lemma sqlUpdate_elem_of (input : backend.EntryInput.t) (brewed updated : Z)
    (userID id' : string) (db : list backend.Row) (r : backend.Row) :
  r ∈ backend.sqlUpdate input brewed updated userID id' db
  ↔ ∃ x, x ∈ db
      ∧ r = if backend.selected userID id' x
            then backend.mkRow (backend.id x) (backend.user_id x)
                   (backend.EntryInput.Beans input)
                   (backend.EntryInput.BrewMethod input)
                   (backend.EntryInput.Notes input)
                   (backend.EntryInput.Rating input) brewed
                   (backend.created_at x) updated
            else x.
Proof.
  unfold backend.sqlUpdate. rewrite list_elem_of_In, in_map_iff.
  split; intros (x & H1 & H2); exists x.
  - by apply list_elem_of_In in H2.
  - by apply list_elem_of_In in H1.
Qed.

Lemma sqlUpdate_other (input : backend.EntryInput.t) (brewed updated : Z)
    (userID id' : string) (db : list backend.Row) (r : backend.Row) :
  server.key r ≠ (userID, id') →
  r ∈ backend.sqlUpdate input brewed updated userID id' db ↔ r ∈ db.
Proof.
  intros Hkey. rewrite sqlUpdate_elem_of. split.
  - intros (x & Hx & ->).
    destruct (backend.selected userID id' x) eqn:Hsel; [|done].
    apply selected_key in Hsel. by destruct Hkey.
  - intros Hr. exists r. split; [done|].
    destruct (backend.selected userID id' r) eqn:Hsel; [|done].
    apply selected_key in Hsel. by destruct Hkey.
Qed.

Lemma find_selected_None (userID id' : string) (db : list backend.Row) :
  find (backend.selected userID id') db = None →
  (userID, id') ∉ server.key <$> db.
Proof.
  intros Hfind (r & Hkey & Hin)%list_elem_of_fmap.
  apply list_elem_of_In in Hin.
  pose proof (find_none _ _ Hfind r Hin) as Hsel.
  symmetry in Hkey. apply selected_key in Hkey. congruence.
Qed.

Lemma find_selected_Some (userID id' : string) (db : list backend.Row)
    (old : backend.Row) :
  find (backend.selected userID id') db = Some old →
  old ∈ db ∧ server.key old = (userID, id').
Proof.
  intros [Hin Hsel]%find_some. split; [by apply list_elem_of_In|].
  by apply selected_key.
Qed.

Section SqlFacts.
Variable TrimSpace : string → string.
Variable IsLetter : ascii → bool.
Variable IsDigit : ascii → bool.
Variable parseRFC3339 : string → option Z.
Variable formatRFC3339 : Z → string.

(** What [upsertEntry] does to the table. *)
Lemma upsertEntry_spec (now : Z) (fresh : string)
    (db db' : list backend.Row) (userID : string)
    (input : backend.EntryInput.t) (entry : backend.Entry.t) :
  server.pk_unique db →
  server.upsertEntry TrimSpace IsLetter IsDigit parseRFC3339 formatRFC3339
    now fresh db userID input
  = (db', (entry, None)) →
  let normalized :=
    (backend.normalizeID TrimSpace IsLetter IsDigit
       (backend.EntryInput.ID input)).1 in
  let id := backend.Entry.ID entry in
  server.pk_unique db'
  ∧ id = (if decide (normalized = "") then fresh else normalized)
  ∧ (∃ row,
       row ∈ db'
       ∧ server.key row = (userID, id)
       ∧ entry = backend.rowEntry formatRFC3339 row
       ∧ backend.beans row = backend.EntryInput.Beans input
       ∧ backend.brew_method row = backend.EntryInput.BrewMethod input
       ∧ backend.notes row = backend.EntryInput.Notes input
       ∧ backend.rating row = backend.EntryInput.Rating input
       ∧ backend.updated_at row = now
       ∧ match find (backend.selected userID id) db with
         | Some old =>
             backend.created_at row = backend.created_at old
             ∧ length db' = length db
         | None =>
             backend.created_at row = now ∧ length db' = S (length db)
         end)
  ∧ (∀ r, server.key r ≠ (userID, id) → r ∈ db' ↔ r ∈ db).
Proof.
  intros Hpk. unfold server.upsertEntry.
  destruct (backend.normalizeID _ _ _ _) as [id0 [err|]]; [done|].
  cbn [fst]. set (id1 := if decide (id0 = "") then fresh else id0).
  destruct (find (backend.selected userID id1) db) as [old|] eqn:Hfind.
  - intros [= <- <-]. cbn [backend.rowEntry backend.Entry.ID backend.id].
    destruct (find_selected_Some _ _ _ _ Hfind) as [Hin Hkey].
    assert (backend.id old = id1) as Hid by (by injection Hkey).
    rewrite Hid, Hfind.
    split; [|split; [done|split]].
    + unfold server.pk_unique. by rewrite sqlUpdate_keys.
    + eexists. split; [|split; [|split; [reflexivity|]]].
      * apply sqlUpdate_elem_of. exists old. split; [done|].
        apply selected_key in Hkey. by rewrite Hkey, Hid.
      * unfold server.key. cbn. by injection Hkey as ->.
      * repeat split. unfold backend.sqlUpdate. by rewrite length_map.
    + intros r Hr. by apply sqlUpdate_other.
  - intros [= <- <-]. cbn [backend.rowEntry backend.Entry.ID backend.id].
    rewrite Hfind.
    split; [|split; [done|split]].
    + unfold server.pk_unique. rewrite fmap_app. apply NoDup_app.
      split; [done|]. split; [|apply NoDup_singleton].
      intros k Hk ->%list_elem_of_singleton.
      by apply (find_selected_None _ _ _ Hfind).
    + eexists. split; [|split; [|split; [reflexivity|]]].
      * apply elem_of_app. right. left.
      * done.
      * repeat split. rewrite length_app. simpl. lia.
    + intros r Hr. rewrite elem_of_app, list_elem_of_singleton. split.
      * intros [H| ->]; [done|]. by destruct Hr.
      * by left.
Qed.

(** X12.  [upsertEntry] of the SQL server keeps the primary key
    [(user_id, id)] unique.  The id is the normalized id of the input, or a
    new one when the input has none.  When the user has a row under the id,
    its columns are overwritten and its [created_at] stays; when not, a row
    is added with [created_at] the time of the call.  The entry returned is
    that row, and no row under another key changes. *)
Theorem upsertEntry_inserts_or_overwrites (now : Z) (fresh : string)
    (db db' : list backend.Row) (userID : string)
    (input : backend.EntryInput.t) (entry : backend.Entry.t) :
  server.pk_unique db →
  server.upsertEntry TrimSpace IsLetter IsDigit parseRFC3339 formatRFC3339
    now fresh db userID input
  = (db', (entry, None)) →
  let normalized :=
    (backend.normalizeID TrimSpace IsLetter IsDigit
       (backend.EntryInput.ID input)).1 in
  let id := backend.Entry.ID entry in
  server.pk_unique db'
  ∧ id = (if decide (normalized = "") then fresh else normalized)
  ∧ (∃ row,
       row ∈ db'
       ∧ server.key row = (userID, id)
       ∧ entry = backend.rowEntry formatRFC3339 row
       ∧ backend.beans row = backend.EntryInput.Beans input
       ∧ backend.brew_method row = backend.EntryInput.BrewMethod input
       ∧ backend.notes row = backend.EntryInput.Notes input
       ∧ backend.rating row = backend.EntryInput.Rating input
       ∧ backend.updated_at row = now
       ∧ match find (backend.selected userID id) db with
         | Some old =>
             backend.created_at row = backend.created_at old
             ∧ length db' = length db
         | None =>
             backend.created_at row = now ∧ length db' = S (length db)
         end)
  ∧ (∀ r, server.key r ≠ (userID, id) → r ∈ db' ↔ r ∈ db).
Proof. apply upsertEntry_spec. Qed.

End SqlFacts.

Lemma upsertEntry_inserts_or_overwrites_witness :
  server.pk_unique
    (server.upsertEntry backend.asciiTrimSpace backend.asciiIsLetter
       backend.asciiIsDigit (fun _ => None) (fun t => pretty t) 1714636800
       "0c" [row_x1] "u1" edit_x1).1.
Proof.
  exact (proj1 (upsertEntry_inserts_or_overwrites backend.asciiTrimSpace
                  backend.asciiIsLetter backend.asciiIsDigit (fun _ => None)
                  (fun t => pretty t) 1714636800 "0c" [row_x1] _ "u1" edit_x1
                  _ (NoDup_singleton (server.key row_x1)) eq_refl)).
Defined.

Lemma filter_not_selected_elem_of (userID id' : string) (db : list backend.Row)
    (r : backend.Row) :
  r ∈ filter (fun r => negb (backend.selected userID id' r)) db
  ↔ r ∈ db ∧ server.key r ≠ (userID, id').
Proof.
  rewrite list_elem_of_filter. split; intros [H1 H2].
  - split; [done|]. intros Hkey%selected_key. by rewrite Hkey in H1.
  - split; [|done]. apply Is_true_true, negb_true_iff.
    destruct (backend.selected userID id' r) eqn:Hsel; [|done].
    by apply selected_key in Hsel.
Qed.

Lemma rowsAffected_pos (userID id' : string) (db : list backend.Row) :
  (0 <? backend.rowsAffected userID id' db) = true
  ↔ (userID, id') ∈ server.key <$> db.
Proof.
  unfold backend.rowsAffected. rewrite Z.ltb_lt. split.
  - intros Hlen.
    destruct (filter (backend.selected userID id') db) as [|r l] eqn:Hf;
      [simpl in Hlen; lia|].
    assert (r ∈ filter (backend.selected userID id') db) as Hr
      by (rewrite Hf; left).
    apply list_elem_of_filter in Hr as [Hsel Hin].
    apply Is_true_true, selected_key in Hsel.
    apply list_elem_of_fmap. by exists r.
  - intros (r & Hkey & Hin)%list_elem_of_fmap.
    assert (r ∈ filter (backend.selected userID id') db) as Hr.
    { apply list_elem_of_filter. split; [|done].
      apply Is_true_true, selected_key. done. }
    destruct (filter (backend.selected userID id') db); simpl; [|lia].
    by apply elem_of_nil in Hr.
Qed.

Section SqlDeleteFacts.
Variable TrimSpace : string → string.
Variable IsLetter : ascii → bool.
Variable IsDigit : ascii → bool.

(** X13.  [deleteEntry] of the SQL server removes the row that the user has
    under the normalized id, and no other row; it reports [true] exactly
    when there was such a row.  Deleting the same id again reports [false]
    and changes nothing. *)
Theorem deleteEntry_removes_the_row (db db' : list backend.Row)
    (userID id0 : string) (found : bool) :
  server.deleteEntry TrimSpace IsLetter IsDigit db userID id0
  = (db', (found, None)) →
  let id := (backend.normalizeID TrimSpace IsLetter IsDigit id0).1 in
  (∀ r, r ∈ db' ↔ r ∈ db ∧ server.key r ≠ (userID, id))
  ∧ (found = true ↔ (userID, id) ∈ server.key <$> db)
  ∧ server.deleteEntry TrimSpace IsLetter IsDigit db' userID id0
    = (db', (false, None)).
Proof.
  unfold server.deleteEntry.
  destruct (backend.normalizeID _ _ _ _) as [id [err|]]; [done|].
  intros [= <- <-]. cbn [fst].
  split; [intros r; apply filter_not_selected_elem_of|].
  split; [apply rowsAffected_pos|].
  f_equal; [|f_equal].
  - induction db as [|r db IH]; [done|].
    rewrite filter_cons.
    destruct (decide (negb (backend.selected userID id r))) as [Hr|Hr].
    + rewrite filter_cons. destruct (decide _); [by f_equal|done].
    + done.
  - destruct (0 <? _) eqn:Hpos; [|done].
    apply rowsAffected_pos in Hpos.
    apply list_elem_of_fmap in Hpos as (r & Hkey & Hin).
    apply filter_not_selected_elem_of in Hin as [_ Hne]. by destruct Hne.
Qed.

End SqlDeleteFacts.

Lemma deleteEntry_removes_the_row_witness :
  server.deleteEntry backend.asciiTrimSpace backend.asciiIsLetter
    backend.asciiIsDigit [] "u1" " x1 "
  = ([], (false, None)).
Proof.
  exact (proj2 (proj2 (deleteEntry_removes_the_row backend.asciiTrimSpace
                         backend.asciiIsLetter backend.asciiIsDigit [row_x1]
                         [] "u1" " x1 " true eq_refl))).
Defined.

Lemma filter_user_sqlUpdate (input : backend.EntryInput.t) (brewed updated : Z)
    (userID id' other : string) (db : list backend.Row) :
  other ≠ userID →
  filter (fun r => bool_decide (backend.user_id r = other))
    (backend.sqlUpdate input brewed updated userID id' db)
  = filter (fun r => bool_decide (backend.user_id r = other)) db.
Proof.
  intros Hne. unfold backend.sqlUpdate.
  induction db as [|r db IH]; [done|].
  cbn [map]. rewrite !filter_cons, IH.
  destruct (backend.selected userID id' r) eqn:Hsel; [|done].
  apply selected_key in Hsel. injection Hsel as Hu _.
  cbn [backend.user_id]. rewrite Hu.
  destruct (decide (bool_decide (userID = other))) as [H|H].
  - apply Is_true_true, bool_decide_eq_true in H. by destruct Hne.
  - done.
Qed.

Lemma filter_user_delete (userID id' other : string) (db : list backend.Row) :
  other ≠ userID →
  filter (fun r => bool_decide (backend.user_id r = other))
    (filter (fun r => negb (backend.selected userID id' r)) db)
  = filter (fun r => bool_decide (backend.user_id r = other)) db.
Proof.
  intros Hne. induction db as [|r db IH]; [done|].
  rewrite (filter_cons _ r db).
  destruct (decide (negb (backend.selected userID id' r))) as [Hr|Hr].
  - by rewrite !filter_cons, IH.
  - rewrite IH, filter_cons.
    destruct (decide (bool_decide (backend.user_id r = other))) as [H|H];
      [|done].
    apply Is_true_true, bool_decide_eq_true in H.
    apply Is_true_false, negb_false_iff, selected_key in Hr.
    injection Hr as Hu _. congruence.
Qed.

Section ServeFacts.
Variable TrimSpace : string → string.
Variable IsLetter : ascii → bool.
Variable IsDigit : ascii → bool.
Variable parseRFC3339 : string → option Z.
Variable formatRFC3339 : Z → string.
Variable Now : nat → Z.
Variable newID : nat → string.
Variable authRoutes : Request → server.Server → server.Server * Response.
Variable readJSON : EntryPayload.t → option string.
Variable arrives : string → option string.
Variable otherRoutes : Request → Response.

Lemma upsertEntry_other_users (now : Z) (fresh : string)
    (db : list backend.Row) (userID other : string)
    (input : backend.EntryInput.t) :
  other ≠ userID →
  filter (fun r => bool_decide (backend.user_id r = other))
    (server.upsertEntry TrimSpace IsLetter IsDigit parseRFC3339 formatRFC3339
       now fresh db userID input).1
  = filter (fun r => bool_decide (backend.user_id r = other)) db.
Proof.
  intros Hne. unfold server.upsertEntry.
  destruct (backend.normalizeID _ _ _ _) as [id0 [err|]]; [done|].
  destruct (find _ db) as [old|]; cbn [fst].
  - by apply filter_user_sqlUpdate.
  - rewrite filter_app, filter_cons, filter_nil. cbn [backend.user_id].
    destruct (decide (bool_decide (userID = other))) as [H|H].
    + apply Is_true_true, bool_decide_eq_true in H. by destruct Hne.
    + apply app_nil_r.
Qed.

Lemma updateEntry_other_users (now : Z) (db : list backend.Row)
    (userID id0 other : string) (input : backend.EntryInput.t) :
  other ≠ userID →
  filter (fun r => bool_decide (backend.user_id r = other))
    (backend.updateEntry TrimSpace IsLetter IsDigit parseRFC3339 formatRFC3339
       now backend.quiet db userID id0 input).1
  = filter (fun r => bool_decide (backend.user_id r = other)) db.
Proof.
  intros Hne. unfold backend.updateEntry.
  destruct (backend.normalizeID _ _ _ _) as [id' [err|]]; [done|].
  cbn [backend.execErr backend.meanwhile backend.scanErr backend.quiet].
  destruct (_ =? 0); cbn [fst]; by apply filter_user_sqlUpdate.
Qed.

Lemma deleteEntry_other_users (db : list backend.Row)
    (userID id0 other : string) :
  other ≠ userID →
  filter (fun r => bool_decide (backend.user_id r = other))
    (server.deleteEntry TrimSpace IsLetter IsDigit db userID id0).1
  = filter (fun r => bool_decide (backend.user_id r = other)) db.
Proof.
  intros Hne. unfold server.deleteEntry.
  destruct (backend.normalizeID _ _ _ _) as [id' [err|]]; [done|].
  cbn [fst]. by apply filter_user_delete.
Qed.

(** The table after a request is the table before, or the table that the
    one statement of the handler leaves. *)
Lemma serve_table (userID : string) (req : Request) (srv : server.Server) :
  server.entryRoute req = true →
  let db' :=
    server.table
      (server.serve TrimSpace IsLetter IsDigit parseRFC3339 formatRFC3339 Now
         newID authRoutes readJSON arrives otherRoutes userID req srv).1 in
  db' = server.table srv
  ∨ (∃ body,
       req = POST_entries body
       ∧ server.validateEntry TrimSpace IsLetter IsDigit parseRFC3339
           (server.decode body) = None
       ∧ db' = (server.upsertEntry TrimSpace IsLetter IsDigit parseRFC3339
                  formatRFC3339 (Now (server.served srv))
                  (newID (server.served srv)) (server.table srv) userID
                  (server.decode body)).1)
  ∨ (∃ sent id body,
       req = PUT_entry sent body
       ∧ server.validateEntry TrimSpace IsLetter IsDigit parseRFC3339
           (server.decode body) = None
       ∧ db' = (backend.updateEntry TrimSpace IsLetter IsDigit parseRFC3339
                  formatRFC3339 (Now (server.served srv)) backend.quiet
                  (server.table srv) userID id (server.decode body)).1)
  ∨ (∃ sent id,
       req = DELETE_entry sent
       ∧ db' = (server.deleteEntry TrimSpace IsLetter IsDigit
                  (server.table srv) userID id).1).
Proof.
  intros Hroute. destruct req as [|body|sent body|sent| |]; try done;
    unfold server.serve.
  - by left.
  - destruct (readJSON body); [by left|].
    destruct (server.validateEntry _ _ _ _ _) eqn:Hvalid; [by left|].
    right. left. exists body. split; [done|]. split; [done|].
    by destruct (server.upsertEntry _ _ _ _ _ _ _ _ _ _)
      as [db [entry [err|]]].
  - destruct (server.pathId _ _ _ _ sent) as [id|]; [|by left].
    destruct (decide (id = "")); [by left|].
    destruct (readJSON body); [by left|].
    destruct (server.validateEntry _ _ _ _ _) eqn:Hvalid; [by left|].
    right. right. left. exists sent, id, body. split; [done|]. split; [done|].
    by destruct (backend.updateEntry _ _ _ _ _ _ _ _ _ _ _)
      as [db [[entry [|]] [err|]]].
  - destruct (server.pathId _ _ _ _ sent) as [id|]; [|by left].
    destruct (decide (id = "")); [by left|].
    right. right. right. exists sent, id. split; [done|].
    by destruct (server.deleteEntry _ _ _ _ _ _) as [db [[|] [err|]]].
Qed.

(** X14.  The entry routes of the SQL server keep the users apart: a
    request served for one user leaves the rows of every other user, and so
    the listing of every other user, as they were. *)
Theorem serve_leaves_other_users_alone (userID other : string) (req : Request)
    (srv : server.Server) :
  server.entryRoute req = true →
  other ≠ userID →
  let srv' :=
    (server.serve TrimSpace IsLetter IsDigit parseRFC3339 formatRFC3339 Now
       newID authRoutes readJSON arrives otherRoutes userID req srv).1 in
  filter (fun r => bool_decide (backend.user_id r = other)) (server.table srv')
  = filter (fun r => bool_decide (backend.user_id r = other)) (server.table srv)
  ∧ backend.listEntries formatRFC3339 (server.table srv') other
    = backend.listEntries formatRFC3339 (server.table srv) other.
Proof.
  intros Hroute Hne srv'.
  assert (filter (fun r => bool_decide (backend.user_id r = other))
            (server.table srv')
          = filter (fun r => bool_decide (backend.user_id r = other))
              (server.table srv)) as Hrows.
  { destruct (serve_table userID req srv Hroute)
      as [H|[(body & _ & _ & H)
            |[(sent & id & body & _ & _ & H)|(sent & id & _ & H)]]];
      fold srv' in H; rewrite H.
    - done.
    - by apply upsertEntry_other_users.
    - by apply updateEntry_other_users.
    - by apply deleteEntry_other_users. }
  split; [done|]. unfold backend.listEntries. by rewrite Hrows.
Qed.

(** X15.  The listing of the SQL server holds the rows of the user, each
    once, and no row of another user, by [brewed_at], the latest first. *)
Theorem listEntries_own_rows_latest_first (db : list backend.Row)
    (userID : string) :
  ∃ rows,
    backend.listEntries formatRFC3339 db userID
    = map (backend.rowEntry formatRFC3339) rows
    ∧ rows ≡ₚ filter (fun r => bool_decide (backend.user_id r = userID)) db
    ∧ (∀ r, r ∈ rows ↔ r ∈ db ∧ backend.user_id r = userID)
    ∧ Sorted (fun a b => backend.brewed_at b <= backend.brewed_at a) rows.
Proof.
  destruct (listEntries_sorted formatRFC3339 db userID)
    as (rows & Heq & Hperm & Hsorted).
  exists rows. split; [done|]. split; [done|]. split; [|done].
  intros r. rewrite Hperm, list_elem_of_filter.
  split; intros [H1 H2]; split; try done.
  - by apply Is_true_true, bool_decide_eq_true in H1.
  - by apply Is_true_true, bool_decide_eq_true.
Qed.

Lemma validateEntry_None (input : backend.EntryInput.t) :
  server.validateEntry TrimSpace IsLetter IsDigit parseRFC3339 input = None →
  (backend.normalizeID TrimSpace IsLetter IsDigit
     (backend.EntryInput.ID input)).2 = None
  ∧ TrimSpace (backend.EntryInput.Beans input) ≠ ""
  ∧ TrimSpace (backend.EntryInput.BrewMethod input) ≠ ""
  ∧ is_Some (parseRFC3339 (backend.EntryInput.BrewedAt input))
  ∧ 0 <= backend.EntryInput.Rating input <= 5.
Proof.
  unfold server.validateEntry.
  destruct (backend.normalizeID _ _ _ _).2; [done|].
  destruct (decide (TrimSpace (backend.EntryInput.Beans input) = ""));
    [done|].
  destruct (decide (TrimSpace (backend.EntryInput.BrewMethod input) = ""));
    [done|].
  destruct (decide (TrimSpace (backend.EntryInput.BrewedAt input) = ""));
    [done|].
  destruct (parseRFC3339 _) as [t|]; [|done].
  destruct (_ <? 0) eqn:Hlo; [done|].
  destruct (5 <? _) eqn:Hhi; [done|].
  intros _. apply Z.ltb_ge in Hlo, Hhi. by eauto 10.
Qed.

Lemma sqlUpdate_valid (input : backend.EntryInput.t) (brewed updated : Z)
    (userID id' : string) (db : list backend.Row) :
  server.validateEntry TrimSpace IsLetter IsDigit parseRFC3339 input = None →
  Forall (server.valid_row TrimSpace) db →
  Forall (server.valid_row TrimSpace)
    (backend.sqlUpdate input brewed updated userID id' db).
Proof.
  intros (_ & Hb & Hm & _ & Hr)%validateEntry_None Hdb.
  unfold backend.sqlUpdate. induction Hdb as [|r db Hrow Hdb IH];
    [constructor|].
  cbn [map]. constructor; [|done].
  by destruct (backend.selected userID id' r).
Qed.

Lemma serve_pk_unique (userID : string) (req : Request)
    (srv : server.Server) :
  server.entryRoute req = true →
  server.pk_unique (server.table srv) →
  server.pk_unique
    (server.table
       (server.serve TrimSpace IsLetter IsDigit parseRFC3339 formatRFC3339 Now
          newID authRoutes readJSON arrives otherRoutes userID req srv).1).
Proof.
  intros Hroute Hpk.
  set (srv' :=
         (server.serve TrimSpace IsLetter IsDigit parseRFC3339 formatRFC3339
            Now newID authRoutes readJSON arrives otherRoutes userID req srv).1).
  destruct (serve_table userID req srv Hroute)
    as [H|[(body & _ & _ & H)
          |[(sent & id & body & _ & _ & H)|(sent & id & _ & H)]]];
    fold srv' in H; rewrite H; clear H.
  - done.
  - unfold server.upsertEntry.
    destruct (backend.normalizeID _ _ _ _) as [id0 [err|]]; [done|].
    destruct (find _ _) as [old|] eqn:Hfind; cbn [fst].
    + unfold server.pk_unique. by rewrite sqlUpdate_keys.
    + unfold server.pk_unique. rewrite fmap_app. apply NoDup_app.
      split; [done|]. split; [|apply NoDup_singleton].
      intros k Hk ->%list_elem_of_singleton.
      by apply (find_selected_None _ _ _ Hfind).
  - unfold backend.updateEntry.
    destruct (backend.normalizeID _ _ _ _) as [id' [err|]]; [done|].
    cbn [backend.execErr backend.meanwhile backend.scanErr backend.quiet].
    destruct (_ =? 0); cbn [fst]; unfold server.pk_unique;
      by rewrite sqlUpdate_keys.
  - unfold server.deleteEntry.
    destruct (backend.normalizeID _ _ _ _) as [id' [err|]]; [done|].
    cbn [fst]. unfold server.pk_unique.
    eapply sublist_NoDup; [exact Hpk|apply fmap_sublist, sublist_filter].
Qed.

(** X16.  The entry routes of the SQL server keep the table well formed:
    no two rows under one key [(user_id, id)], and in every row [beans] and
    [brew_method] not blank and [rating] between 0 and 5.  A request whose
    body does not pass [validateEntry] writes nothing. *)
Theorem serve_keeps_table_well_formed (userID : string) (req : Request)
    (srv : server.Server) :
  server.entryRoute req = true →
  server.pk_unique (server.table srv) →
  Forall (server.valid_row TrimSpace) (server.table srv) →
  let srv' :=
    (server.serve TrimSpace IsLetter IsDigit parseRFC3339 formatRFC3339 Now
       newID authRoutes readJSON arrives otherRoutes userID req srv).1 in
  server.pk_unique (server.table srv')
  ∧ Forall (server.valid_row TrimSpace) (server.table srv')
  ∧ (∀ body,
       (req = POST_entries body ∨ ∃ id, req = PUT_entry id body) →
       is_Some (server.validateEntry TrimSpace IsLetter IsDigit parseRFC3339
                  (server.decode body)) →
       server.table srv' = server.table srv).
Proof.
  intros Hroute Hpk Hvalid srv'. split; [|split].
  - by apply serve_pk_unique.
  - destruct (serve_table userID req srv Hroute)
      as [H|[(body & _ & Hok & H)
            |[(sent & id & body & _ & Hok & H)|(sent & id & _ & H)]]];
      fold srv' in H; rewrite H; clear H.
    + done.
    + unfold server.upsertEntry.
      destruct (backend.normalizeID _ _ _ _) as [id0 [err|]]; [done|].
      destruct (find _ _) as [old|] eqn:Hfind; cbn [fst].
      * by apply sqlUpdate_valid.
      * apply Forall_app. split; [done|]. constructor; [|constructor].
        by apply validateEntry_None in Hok as (_ & Hb & Hm & _ & Hr).
    + unfold backend.updateEntry.
      destruct (backend.normalizeID _ _ _ _) as [id' [err|]]; [done|].
      cbn [backend.execErr backend.meanwhile backend.scanErr backend.quiet].
      destruct (_ =? 0); cbn [fst]; by apply sqlUpdate_valid.
    + unfold server.deleteEntry.
      destruct (backend.normalizeID _ _ _ _) as [id' [err|]]; [done|].
      cbn [fst]. rewrite Forall_forall in Hvalid |- *.
      intros r [_ Hr]%list_elem_of_filter. by apply Hvalid.
  - intros body Hreq [err Herr]. subst srv'. unfold server.serve.
    destruct Hreq as [->|[id ->]].
    + destruct (readJSON body); [done|]. by rewrite Herr.
    + destruct (server.pathId _ _ _ _ id) as [id'|]; [|done].
      destruct (decide (id' = "")); [done|].
      destruct (readJSON body); [done|]. by rewrite Herr.
Qed.

End ServeFacts.

Lemma serve_leaves_other_users_alone_witness :
  backend.listEntries (fun t => pretty t)
    (server.table
       (server.serve backend.asciiTrimSpace backend.asciiIsLetter
          backend.asciiIsDigit (fun _ => None) (fun t => pretty t)
          (fun _ => 1714636800) (fun _ => "0c")
          (fun _ srv => (srv, server.failure 404 "not found"))
          (fun _ => None) sample_arrives method_not_allowed "u2"
          (DELETE_entry "x1") (server.mkServer [row_x1] 0)).1) "u1"
  = backend.listEntries (fun t => pretty t) [row_x1] "u1".
Proof.
  refine (proj2 (serve_leaves_other_users_alone backend.asciiTrimSpace
                   backend.asciiIsLetter backend.asciiIsDigit (fun _ => None)
                   (fun t => pretty t) (fun _ => 1714636800) (fun _ => "0c")
                   (fun _ srv => (srv, server.failure 404 "not found"))
          (fun _ => None) sample_arrives method_not_allowed "u2"
                   "u1" (DELETE_entry "x1") (server.mkServer [row_x1] 0)
                   eq_refl _)).
  discriminate.
Defined.

Lemma row_x1_valid : server.valid_row backend.asciiTrimSpace row_x1.
Proof. split; [discriminate|]. split; [discriminate|]. simpl. lia. Defined.

Lemma serve_keeps_table_well_formed_witness :
  server.pk_unique
    (server.table
       (server.serve backend.asciiTrimSpace backend.asciiIsLetter
          backend.asciiIsDigit (fun _ => Some 1714550400) (fun t => pretty t)
          (fun _ => 1714636800) (fun _ => "0c")
          (fun _ srv => (srv, server.failure 404 "not found"))
          (fun _ => None) sample_arrives method_not_allowed "u1"
          (POST_entries payload_e1) (server.mkServer [row_x1] 0)).1).
Proof.
  refine (proj1 (serve_keeps_table_well_formed backend.asciiTrimSpace
                   backend.asciiIsLetter backend.asciiIsDigit
                   (fun _ => Some 1714550400) (fun t => pretty t)
                   (fun _ => 1714636800) (fun _ => "0c")
                   (fun _ srv => (srv, server.failure 404 "not found"))
          (fun _ => None) sample_arrives method_not_allowed "u1"
                   (POST_entries payload_e1) (server.mkServer [row_x1] 0)
                   eq_refl (NoDup_singleton (server.key row_x1)) _)).
  constructor; [exact row_x1_valid|constructor].
Defined.

(** * The device in front of the SQL server *)

Section NetFacts.
Context {W : Type}.
Variable fetch : Request → W → W * Result Response.

Lemma requestOf_entryRoute (item : OutboxItem.t) (req : Request) :
  requestOf item = Some req → server.entryRoute req = true.
Proof.
  unfold requestOf.
  destruct (OutboxItem.action item), (OutboxItem.payload item);
    by intros [= <-].
Qed.

Lemma callRemote_net (item : OutboxItem.t) (s : State W) :
  net (callRemote fetch item s).1
  = match requestOf item with
    | Some req => (fetch req (net s)).1
    | None => net s
    end.
Proof.
  unfold callRemote, requestOf.
  destruct (OutboxItem.action item), (OutboxItem.payload item) as [payload|];
    try reflexivity; rewrite remote_eq; cbn [fst net].
  - unfold createEntry. by destruct (fetch _ (net s)).
  - unfold updateEntry. by destruct (fetch _ (net s)).
  - unfold deleteEntryRemote. by destruct (fetch _ (net s)).
  - unfold deleteEntryRemote. by destruct (fetch _ (net s)).
Qed.

Lemma drainItem_net (item : OutboxItem.t) (s : State W) :
  net (drainItem fetch item s).1
  = match requestOf item with
    | Some req => (fetch req (net s)).1
    | None => net s
    end.
Proof.
  rewrite <- callRemote_net. unfold drainItem.
  destruct (callRemote fetch item s) as [s1 [[e|]|m]]; reflexivity.
Qed.

Lemma drain_net_invariant (P : W → Prop) (items : list OutboxItem.t)
    (s : State W) :
  (∀ req w, server.entryRoute req = true → P w → P (fetch req w).1) →
  P (net s) → P (net (drain fetch items s)).
Proof.
  intros Hstep. revert s.
  induction items as [|item rest IH]; intros s Hs; [done|].
  cbn [drain]. pose proof (drainItem_net item s) as Hnet.
  assert (P (net (drainItem fetch item s).1)) as Hs'.
  { rewrite Hnet. destruct (requestOf item) as [req|] eqn:Hreq; [|done].
    apply Hstep; [|done]. by apply (requestOf_entryRoute item). }
  destruct (drainItem fetch item s) as [s' [u|m]]; [by apply IH|done].
Qed.

End NetFacts.

Lemma pk_unique_ids (db : list backend.Row) (userID : string) :
  server.pk_unique db →
  NoDup (backend.id
           <$> filter (fun r => bool_decide (backend.user_id r = userID)) db).
Proof.
  unfold server.pk_unique. induction db as [|r db IH]; [constructor|].
  rewrite fmap_cons. intros [Hr Hdb]%NoDup_cons. rewrite filter_cons.
  destruct (decide (bool_decide (backend.user_id r = userID))) as [Hu|Hu];
    [|by apply IH].
  rewrite fmap_cons. apply NoDup_cons. split; [|by apply IH].
  intros (x & Hid & [Hxu Hx]%list_elem_of_filter)%list_elem_of_fmap.
  apply Hr, list_elem_of_fmap. exists x. split; [|done].
  apply Is_true_true, bool_decide_eq_true in Hu, Hxu.
  unfold server.key. congruence.
Qed.

Lemma normalizeID_fixed (TrimSpace : string → string)
    (IsLetter IsDigit : ascii → bool) (id : string) :
  backend.normalizeID TrimSpace IsLetter IsDigit id = (id, None) →
  id ≠ "" →
  TrimSpace id ≠ "".
Proof.
  unfold backend.normalizeID. intros Hnorm Hid Hblank.
  rewrite Hblank in Hnorm. rewrite decide_True in Hnorm by done.
  by injection Hnorm.
Qed.

Lemma sqlUpdate_none (input : backend.EntryInput.t) (brewed updated : Z)
    (userID id' : string) (db : list backend.Row) :
  (userID, id') ∉ server.key <$> db →
  backend.sqlUpdate input brewed updated userID id' db = db.
Proof.
  intros Hno. unfold backend.sqlUpdate.
  induction db as [|r db IH]; [done|].
  rewrite fmap_cons in Hno. apply not_elem_of_cons in Hno as [Hr Hdb].
  cbn [map]. rewrite IH by done.
  destruct (backend.selected userID id' r) eqn:Hsel; [|done].
  apply selected_key in Hsel. by destruct Hr.
Qed.

Lemma rowsAffected_none (userID id' : string) (db : list backend.Row) :
  (userID, id') ∉ server.key <$> db →
  (backend.rowsAffected userID id' db =? 0) = true.
Proof.
  intros Hno. apply Z.eqb_eq.
  destruct (0 <? backend.rowsAffected userID id' db) eqn:Hpos.
  - apply rowsAffected_pos in Hpos. by destruct Hno.
  - apply Z.ltb_ge in Hpos. unfold backend.rowsAffected in *. lia.
Qed.

Section EndToEnd.
Variable TrimSpace : string → string.
Variable IsLetter : ascii → bool.
Variable IsDigit : ascii → bool.
Variable parseRFC3339 : string → option Z.
Variable formatRFC3339 : Z → string.
Variable Now : nat → Z.
Variable newID : nat → string.
Variable authRoutes : Request → server.Server → server.Server * Response.
Variable readJSON : EntryPayload.t → option string.
Variable arrives : string → option string.
Variable otherRoutes : Request → Response.
Variable localeCompare : string → string → Z.
Variable userID : string.

Local Abbreviation fetch :=
  (server.reachable TrimSpace IsLetter IsDigit parseRFC3339 formatRFC3339 Now
     newID authRoutes readJSON arrives otherRoutes userID).

Lemma fetchEntries_reachable (srv : server.Server) :
  fetchEntries fetch srv
  = (server.answered (server.table srv) srv,
     Ok (map toEntry
           (map server.encode
              (backend.listEntries formatRFC3339 (server.table srv) userID)))).
Proof. reflexivity. Qed.

Lemma reachable_pk_unique (req : Request) (srv : server.Server) :
  server.entryRoute req = true →
  server.pk_unique (server.table srv) →
  server.pk_unique (server.table (fetch req srv).1).
Proof.
  intros Hroute Hpk. unfold server.reachable.
  pose proof (serve_pk_unique TrimSpace IsLetter IsDigit parseRFC3339
                formatRFC3339 Now newID authRoutes readJSON arrives
                otherRoutes userID req srv Hroute Hpk)
    as H.
  by destruct (server.serve _ _ _ _ _ _ _ _ _ _ _).
Qed.

Lemma listing_rows (db : list backend.Row) :
  ∃ rows,
    map toEntry
      (map server.encode (backend.listEntries formatRFC3339 db userID))
    = map (server.onDevice formatRFC3339) rows
    ∧ (∀ r, r ∈ rows ↔ r ∈ db ∧ backend.user_id r = userID)
    ∧ (server.pk_unique db → NoDup (map backend.id rows)).
Proof.
  destruct (listEntries_sorted formatRFC3339 db userID)
    as (rows & Heq & Hperm & _).
  exists rows. split; [|split].
  - rewrite Heq, !map_map. done.
  - intros r. rewrite Hperm, list_elem_of_filter.
    split; intros [H1 H2]; split; try done.
    + by apply Is_true_true, bool_decide_eq_true in H1.
    + by apply Is_true_true, bool_decide_eq_true.
  - intros Hpk. change (NoDup (backend.id <$> rows)). rewrite Hperm.
    by apply pk_unique_ids.
Qed.

Lemma listing_find (db : list backend.Row) (k : string) :
  match find (fun e => bool_decide (Entry.id e = k))
          (map toEntry
             (map server.encode (backend.listEntries formatRFC3339 db userID)))
  with
  | Some e =>
      ∃ r, r ∈ db ∧ server.key r = (userID, k)
           ∧ e = server.onDevice formatRFC3339 r
  | None => (userID, k) ∉ server.key <$> db
  end.
Proof.
  destruct (listing_rows db) as (rows & -> & Hrows & _).
  destruct (find _ _) as [e|] eqn:Hfind.
  - apply find_some in Hfind as [Hin Hid].
    apply in_map_iff in Hin as (r & <- & Hr).
    apply list_elem_of_In, Hrows in Hr as [Hr Hu].
    apply bool_decide_eq_true in Hid. cbn in Hid.
    exists r. split; [done|]. split; [|done]. unfold server.key. congruence.
  - intros (r & Hkey & Hr)%list_elem_of_fmap.
    injection Hkey as Hu Hid.
    assert (r ∈ rows) as Hin by (by apply Hrows).
    apply list_elem_of_In in Hin.
    pose proof (find_none _ _ Hfind _
                  (in_map (server.onDevice formatRFC3339) _ _ Hin)) as Hno.
    apply bool_decide_eq_false in Hno. cbn in Hno. congruence.
Qed.

(** X17.  The device in front of the SQL server, reachable, signed in as
    the user of the token.  A pass ends [idle], and then the entries store
    and the table agree id by id: an entry on the device is pending, or it
    is the row that the user has under its id, as the server sends it; and
    an id that the device does not hold is an id under which the user has
    no row. *)
Theorem pass_mirrors_server (token : option string)
    (s : State server.Server) :
  has_token token = true →
  keyed (local s) →
  server.pk_unique (server.table (net s)) →
  let s' := runSync fetch localeCompare token true s in
  syncState s' = idle
  ∧ server.pk_unique (server.table (net s'))
  ∧ ∀ k,
      match entries (local s') !! k with
      | Some e =>
          Entry.id e = k
          ∧ (is_pending e = true
             ∨ ∃ r, r ∈ server.table (net s')
                    ∧ server.key r = (userID, k)
                    ∧ e = server.onDevice formatRFC3339 r)
      | None => (userID, k) ∉ server.key <$> server.table (net s')
      end.
Proof.
  intros Htok Hk Hpk s'. subst s'. rewrite runSync_eq by done. cbv zeta.
  set (s1 := processOutbox fetch localeCompare token
               (setError None (setSyncState syncing s))).
  assert (s1 = drain fetch
                 (refreshOutbox localeCompare
                    (setError None (setSyncState syncing s)))
                 (setError None (setSyncState syncing s))) as Hs1.
  { unfold s1, processOutbox. by rewrite Htok. }
  assert (keyed (local s1)) as [Hke Hko].
  { rewrite Hs1. by apply drain_keyed. }
  assert (server.pk_unique (server.table (net s1))) as Hpk1.
  { rewrite Hs1.
    apply (drain_net_invariant fetch
             (fun srv => server.pk_unique (server.table srv))); [|done].
    intros req w. apply reachable_pk_unique. }
  pose proof (fetchEntries_reachable (net s1)) as Hfetch.
  destruct (listing_rows (server.table (net s1))) as (rows & Hrows & _ & Hnd).
  assert (∀ k,
            entries (local (syncFromServer fetch s1).1) !! k
            = match entries (local s1) !! k with
              | Some p =>
                  if is_pending p then Some p
                  else find (fun r => bool_decide (Entry.id r = k))
                         (map toEntry
                            (map server.encode
                               (backend.listEntries formatRFC3339
                                  (server.table (net s1)) userID)))
              | None =>
                  find (fun r => bool_decide (Entry.id r = k))
                    (map toEntry
                       (map server.encode
                          (backend.listEntries formatRFC3339
                             (server.table (net s1)) userID)))
              end) as Hlook.
  { intros k. eapply (syncFromServer_lookup fetch s1 _ _ k Hke); [|exact Hfetch].
    rewrite Hrows, map_map. cbn. by apply Hnd. }
  pose proof (syncFromServer_eq fetch s1) as Heq.
  rewrite Hfetch in Heq. cbn [fst snd] in Heq.
  rewrite Heq in Hlook |- *. cbn [fst] in Hlook.
  cbn [setSyncState syncState net local server.answered server.table].
  split; [done|]. split; [done|]. intros k. rewrite Hlook.
  pose proof (listing_find (server.table (net s1)) k) as Hfind.
  destruct (entries (local s1) !! k) as [p|] eqn:Hp.
  - destruct (is_pending p) eqn:Hpend.
    + split; [by apply Hke|by left].
    + destruct (find _ _) as [e|]; [|done].
      destruct Hfind as (r & Hr & Hkey & ->).
      split; [by injection Hkey|]. right. by exists r.
  - destruct (find _ _) as [e|]; [|done].
    destruct Hfind as (r & Hr & Hkey & ->).
    split; [by injection Hkey|]. right. by exists r.
Qed.

Lemma upsertEntry_no_error (now : Z) (fresh : string) (db : list backend.Row)
    (input : backend.EntryInput.t) :
  server.validateEntry TrimSpace IsLetter IsDigit parseRFC3339 input = None →
  (server.upsertEntry TrimSpace IsLetter IsDigit parseRFC3339 formatRFC3339
     now fresh db userID input).2.2 = None.
Proof.
  intros (Hid & _)%validateEntry_None. unfold server.upsertEntry.
  destruct (backend.normalizeID _ _ _ _) as [id0 [err|]]; [done|].
  by destruct (find _ db).
Qed.

(** The [try] block for a create, in front of the server. *)
Lemma drainItem_create (item : OutboxItem.t)
    (payload : EntryPayload.t) (s : State server.Server) :
  OutboxItem.action item = create →
  OutboxItem.payload item = Some payload →
  readJSON payload = None →
  let s' := (drainItem fetch item s).1 in
  match server.validateEntry TrimSpace IsLetter IsDigit parseRFC3339
          (server.decode payload) with
  | Some err =>
      (drainItem fetch item s).2 = Err err
      ∧ local s' = local s
      ∧ server.table (net s') = server.table (net s)
  | None =>
      ∃ db' e,
        server.upsertEntry TrimSpace IsLetter IsDigit parseRFC3339
          formatRFC3339 (Now (server.served (net s)))
          (newID (server.served (net s))) (server.table (net s)) userID
          (server.decode payload)
        = (db', (e, None))
        ∧ (drainItem fetch item s).2 = Ok tt
        ∧ server.table (net s') = db'
        ∧ entries (local s')
          = <[backend.Entry.ID e := toEntry (server.encode e)]>
              (entries (local s))
        ∧ outbox (local s')
          = delete (OutboxItem.id item) (outbox (local s))
  end.
Proof.
  intros Hact Hpay Hread s'. subst s'. unfold drainItem, callRemote.
  rewrite Hact, Hpay, remote_eq.
  unfold createEntry, server.reachable, server.serve. rewrite Hread.
  destruct (server.validateEntry _ _ _ _ _) as [err|] eqn:Hvalid.
  - done.
  - pose proof (upsertEntry_no_error (Now (server.served (net s)))
                  (newID (server.served (net s))) (server.table (net s))
                  _ Hvalid) as Hok.
    destruct (server.upsertEntry _ _ _ _ _ _ _ _ _ _) as [db' [e err]].
    cbn in Hok. subst err. by exists db', e.
Qed.

(** X18.  A queued create in front of the SQL server, its body within
    the limit of [readJSON].  When the payload does not pass
    [validateEntry], the call fails with the message of the validation, and
    the Local Store and the table stay as they are.  When it passes,
    [upsertEntry] runs; its entry is put into the entries store as the
    server sent it, under the id that the server gave it, and the item
    leaves the outbox store. *)
Theorem queued_create_end_to_end (item : OutboxItem.t)
    (payload : EntryPayload.t) (s : State server.Server) :
  OutboxItem.action item = create →
  OutboxItem.payload item = Some payload →
  readJSON payload = None →
  let s' := (drainItem fetch item s).1 in
  match server.validateEntry TrimSpace IsLetter IsDigit parseRFC3339
          (server.decode payload) with
  | Some err =>
      (drainItem fetch item s).2 = Err err
      ∧ local s' = local s
      ∧ server.table (net s') = server.table (net s)
  | None =>
      ∃ db' e,
        server.upsertEntry TrimSpace IsLetter IsDigit parseRFC3339
          formatRFC3339 (Now (server.served (net s)))
          (newID (server.served (net s))) (server.table (net s)) userID
          (server.decode payload)
        = (db', (e, None))
        ∧ (drainItem fetch item s).2 = Ok tt
        ∧ server.table (net s') = db'
        ∧ entries (local s')
          = <[backend.Entry.ID e := toEntry (server.encode e)]>
              (entries (local s))
        ∧ outbox (local s')
          = delete (OutboxItem.id item) (outbox (local s))
  end.
Proof. apply drainItem_create. Qed.

(** The [try] block for a delete, in front of the server. *)
Lemma drainItem_delete (item : OutboxItem.t)
    (a : string) (s : State server.Server) :
  OutboxItem.action item = delete_ →
  server.pathId TrimSpace IsLetter IsDigit arrives (OutboxItem.entryId item)
  = Some a →
  a ≠ "" →
  TrimSpace a ≠ "" →
  let s' := (drainItem fetch item s).1 in
  let id := (backend.normalizeID TrimSpace IsLetter IsDigit a).1 in
  match (backend.normalizeID TrimSpace IsLetter IsDigit a).2 with
  | Some _ =>
      (drainItem fetch item s).2 = Err "failed to delete entry"
      ∧ local s' = local s
      ∧ server.table (net s') = server.table (net s)
  | None =>
      (drainItem fetch item s).2 = Ok tt
      ∧ entries (local s') = entries (local s)
      ∧ outbox (local s') = delete (OutboxItem.id item) (outbox (local s))
      ∧ (∀ r, r ∈ server.table (net s')
              ↔ r ∈ server.table (net s) ∧ server.key r ≠ (userID, id))
  end.
Proof.
  intros Hact Hpath Ha Hblank s' id. subst s' id. unfold drainItem, callRemote.
  rewrite Hact.
  destruct (OutboxItem.payload item) as [p|];
    rewrite remote_eq;
    unfold deleteEntryRemote, server.reachable, server.serve;
    rewrite Hpath;
    rewrite decide_False by done; unfold server.deleteEntry;
    (destruct (backend.normalizeID _ _ _ _) as [id [err|]]; [done|]);
    cbn [fst snd];
    (destruct (0 <? _); cbn; (split; [done|]); (split; [done|]);
     (split; [done|]); intros r; apply filter_not_selected_elem_of).
Qed.

(** X19.  A queued delete in front of the SQL server.  What it does is
    decided by the id that the handler reads, which is the id of the item
    when [normalizeID] accepts that, and otherwise what the URL made from it
    parses to; let it not be blank.  When [normalizeID] accepts it, the
    item is drained whether the user has a row under it or not: afterwards
    the user has no row under the normalized id, no other row has changed,
    the entries store is as it was and the item has left the outbox store.
    When [normalizeID] refuses it, the call fails and nothing changes. *)
Theorem queued_delete_end_to_end (item : OutboxItem.t)
    (a : string) (s : State server.Server) :
  OutboxItem.action item = delete_ →
  server.pathId TrimSpace IsLetter IsDigit arrives (OutboxItem.entryId item)
  = Some a →
  a ≠ "" →
  TrimSpace a ≠ "" →
  let s' := (drainItem fetch item s).1 in
  let id := (backend.normalizeID TrimSpace IsLetter IsDigit a).1 in
  match (backend.normalizeID TrimSpace IsLetter IsDigit a).2 with
  | Some _ =>
      (drainItem fetch item s).2 = Err "failed to delete entry"
      ∧ local s' = local s
      ∧ server.table (net s') = server.table (net s)
  | None =>
      (drainItem fetch item s).2 = Ok tt
      ∧ entries (local s') = entries (local s)
      ∧ outbox (local s') = delete (OutboxItem.id item) (outbox (local s))
      ∧ (∀ r, r ∈ server.table (net s')
              ↔ r ∈ server.table (net s) ∧ server.key r ≠ (userID, id))
  end.
Proof. apply drainItem_delete. Qed.

(** X20.  A queued update for an entry under whose id the user has no row
    on the SQL server is not accepted: the server answers 404, the drain
    stops at the item with the message of the server and sends nothing
    after it, and the Local Store and the table stay as they are, so the
    next pass meets the same item in front of the same table. *)
Theorem queued_update_without_row_blocks (item : OutboxItem.t)
    (payload : EntryPayload.t) (rest : list OutboxItem.t)
    (s : State server.Server) :
  OutboxItem.action item = update →
  OutboxItem.payload item = Some payload →
  OutboxItem.entryId item ≠ "" →
  readJSON payload = None →
  server.validateEntry TrimSpace IsLetter IsDigit parseRFC3339
    (server.decode payload) = None →
  (backend.normalizeID TrimSpace IsLetter IsDigit
     (OutboxItem.entryId item)).2 = None →
  (userID,
   (backend.normalizeID TrimSpace IsLetter IsDigit
      (OutboxItem.entryId item)).1) ∉ server.key <$> server.table (net s) →
  let s' := drain fetch (item :: rest) s in
  error s' = Some "entry not found"
  ∧ local s' = local s
  ∧ server.table (net s') = server.table (net s)
  ∧ calls s'
    = calls s ++ [mkCall (PUT_entry (OutboxItem.entryId item) payload) false].
Proof.
  intros Hact Hpay Hid Hread Hvalid Hnorm Hrow s'. subst s'.
  cbn [drain]. unfold drainItem, callRemote.
  rewrite Hact, Hpay, remote_eq.
  unfold updateEntry, server.reachable, server.serve, server.pathId.
  rewrite Hnorm.
  rewrite decide_False by done. rewrite Hread, Hvalid. unfold backend.updateEntry.
  cbn [backend.execErr backend.meanwhile backend.scanErr backend.quiet].
  destruct (backend.normalizeID _ _ _ _) as [id [err|]]; [done|].
  cbn [fst] in Hrow.
  rewrite rowsAffected_none, sqlUpdate_none by done. done.
Qed.

Lemma syncFromServer_reachable (s1 : State server.Server) :
  entries_keyed (entries (local s1)) →
  server.pk_unique (server.table (net s1)) →
  syncFromServer fetch s1
  = (mkState
       (storage.putEntries
          (merge (storage.getAllEntries (local s1))
             (map toEntry
                (map server.encode
                   (backend.listEntries formatRFC3339
                      (server.table (net s1)) userID))))
          (storage.clearEntries (local s1)))
       (syncState s1) (error s1)
       (server.answered (server.table (net s1)) (net s1))
       (calls s1 ++ [mkCall GET_entries true]),
     Ok tt)
  ∧ ∀ k,
      entries (local (syncFromServer fetch s1).1) !! k
      = match entries (local s1) !! k with
        | Some p =>
            if is_pending p then Some p
            else find (fun r => bool_decide (Entry.id r = k))
                   (map toEntry
                      (map server.encode
                         (backend.listEntries formatRFC3339
                            (server.table (net s1)) userID)))
        | None =>
            find (fun r => bool_decide (Entry.id r = k))
              (map toEntry
                 (map server.encode
                    (backend.listEntries formatRFC3339
                       (server.table (net s1)) userID)))
        end.
Proof.
  intros Hke Hpk1.
  pose proof (fetchEntries_reachable (net s1)) as Hfetch.
  destruct (listing_rows (server.table (net s1))) as (rows & Hrows & _ & Hnd).
  split.
  - rewrite syncFromServer_eq, Hfetch. reflexivity.
  - intros k. eapply (syncFromServer_lookup fetch s1 _ _ k Hke); [|exact Hfetch].
    rewrite Hrows, map_map. cbn. by apply Hnd.
Qed.

Lemma pk_unique_eq (db : list backend.Row) (r r' : backend.Row) :
  server.pk_unique db → r ∈ db → r' ∈ db → server.key r = server.key r' →
  r = r'.
Proof.
  unfold server.pk_unique. induction db as [|x db IH]; intros Hnd Hr Hr' Hkey.
  - by apply elem_of_nil in Hr.
  - rewrite fmap_cons in Hnd. apply NoDup_cons in Hnd as [Hx Hnd].
    apply elem_of_cons in Hr as [->|Hr]; apply elem_of_cons in Hr' as [->|Hr'].
    + done.
    + destruct Hx. rewrite Hkey. by apply list_elem_of_fmap_2.
    + destruct Hx. rewrite <- Hkey. by apply list_elem_of_fmap_2.
    + by apply IH.
Qed.

Lemma getAll_singleton {V} (k : string) (v : V) : getAll (<[k := v]> ∅) = [v].
Proof.
  pose proof (getAll_perm (<[k := v]> (∅ : gmap string V))) as H.
  rewrite insert_empty, map_to_list_singleton in H.
  by apply Permutation_singleton_r in H.
Qed.

(** The [try] block for an update of an entry that the user has a row
    for. *)
Lemma drainItem_update (item : OutboxItem.t) (payload : EntryPayload.t)
    (id : string) (old : backend.Row) (s : State server.Server) :
  OutboxItem.action item = update →
  OutboxItem.payload item = Some payload →
  OutboxItem.entryId item ≠ "" →
  readJSON payload = None →
  server.validateEntry TrimSpace IsLetter IsDigit parseRFC3339
    (server.decode payload) = None →
  backend.normalizeID TrimSpace IsLetter IsDigit (OutboxItem.entryId item)
  = (id, None) →
  find (backend.selected userID id) (server.table (net s)) = Some old →
  let brewed :=
    default backend.zeroTime (parseRFC3339 (EntryPayload.brewed_at payload)) in
  let now := Now (server.served (net s)) in
  let row :=
    backend.mkRow (backend.id old) (backend.user_id old)
      (EntryPayload.beans payload) (EntryPayload.brew_method payload)
      (EntryPayload.notes payload) (EntryPayload.rating payload) brewed
      (backend.created_at old) now in
  let s' := (drainItem fetch item s).1 in
  (drainItem fetch item s).2 = Ok tt
  ∧ server.table (net s')
    = backend.sqlUpdate (server.decode payload) brewed now userID id
        (server.table (net s))
  ∧ row ∈ server.table (net s')
  ∧ server.key row = (userID, id)
  ∧ entries (local s')
    = <[id := server.onDevice formatRFC3339 row]> (entries (local s))
  ∧ outbox (local s') = delete (OutboxItem.id item) (outbox (local s)).
Proof.
  intros Hact Hpay Hid Hread Hvalid Hnorm Hfind brewed now row s'. subst s'.
  destruct (find_selected_Some _ _ _ _ Hfind) as [Hin Hkey].
  assert (row ∈ backend.sqlUpdate (server.decode payload) brewed now userID id
                  (server.table (net s))) as Hrow.
  { apply sqlUpdate_elem_of. exists old. split; [done|].
    apply selected_key in Hkey. by rewrite Hkey. }
  unfold drainItem, callRemote. rewrite Hact, Hpay, remote_eq.
  unfold updateEntry, server.reachable, server.serve, server.pathId.
  rewrite Hnorm. cbn [snd].
  rewrite decide_False by done. rewrite Hread, Hvalid.
  unfold backend.updateEntry. rewrite Hnorm.
  cbn [backend.execErr backend.meanwhile backend.scanErr backend.quiet].
  rewrite (rowsAffected_find _ _ _ _ Hfind).
  rewrite (sqlUpdate_find _ _ _ _ _ _ _ Hfind).
  cbn -[backend.sqlUpdate]. fold brewed. fold now.
  split; [done|]. split; [done|]. split; [done|].
  split; [exact Hkey|]. split; [|done].
  injection Hkey as _ Hi. unfold server.onDevice, row. cbn. by rewrite Hi.
Qed.

(** A pass over an outbox store that holds one item, which the server
    accepts. *)
Lemma single_item_pass (token : option string) (item : OutboxItem.t)
    (sA sC : State server.Server) :
  has_token token = true →
  outbox (local sA) = <[OutboxItem.id item := item]> ∅ →
  drainItem fetch item (setError None (setSyncState syncing sA))
  = (sC, Ok tt) →
  entries_keyed (entries (local sC)) →
  server.pk_unique (server.table (net sA)) →
  let s' := runSync fetch localeCompare token true sA in
  syncState s' = idle
  ∧ error s' = None
  ∧ outbox (local s') = ∅
  ∧ server.table (net s') = server.table (net sC)
  ∧ server.pk_unique (server.table (net sC))
  ∧ ∀ k,
      entries (local s') !! k
      = match entries (local sC) !! k with
        | Some p =>
            if is_pending p then Some p
            else find (fun r => bool_decide (Entry.id r = k))
                   (map toEntry
                      (map server.encode
                         (backend.listEntries formatRFC3339
                            (server.table (net sC)) userID)))
        | None =>
            find (fun r => bool_decide (Entry.id r = k))
              (map toEntry
                 (map server.encode
                    (backend.listEntries formatRFC3339
                       (server.table (net sC)) userID)))
        end.
Proof.
  intros Htok Hout Hitem HkeC Hpk s'. subst s'.
  rewrite runSync_eq by done. cbv zeta.
  set (sB := setError None (setSyncState syncing sA)) in *.
  assert (refreshOutbox localeCompare sB = [item]) as Hitems.
  { unfold refreshOutbox, storage.getOutboxItems, sB.
    cbn [local setError setSyncState]. by rewrite Hout, getAll_singleton. }
  unfold processOutbox. rewrite Htok, Hitems. cbn [negb drain].
  assert (server.pk_unique (server.table (net sC))) as HpkC.
  { pose proof (drainItem_net fetch item sB) as Hnet. rewrite Hitem in Hnet.
    cbn [fst] in Hnet. rewrite Hnet.
    destruct (requestOf item) as [req|] eqn:Hreq; [|done].
    apply reachable_pk_unique; [|done]. by apply (requestOf_entryRoute item). }
  rewrite Hitem.
  apply drainItem_Ok in Hitem as (Houtbox & _ & _ & Herr & _).
  destruct (syncFromServer_reachable sC HkeC HpkC) as [Heq Hlook].
  rewrite Heq in Hlook |- *. cbn [fst] in Hlook.
  cbn [setSyncState syncState error net local outbox server.answered
       server.table storage.putEntries storage.clearEntries].
  split; [done|]. split; [by rewrite Herr|]. split; [|done].
  rewrite Houtbox. unfold sB. cbn [local setError setSyncState].
  rewrite Hout. apply map_eq. intros k.
  destruct (decide (k = OutboxItem.id item)) as [->|Hne].
  - by rewrite lookup_delete_eq, lookup_empty.
  - by rewrite lookup_delete_ne, lookup_insert_ne by done.
Qed.

(** X22.  An entry deleted on a device that is signed in and on line,
    with nothing queued, in front of the SQL server; the id of the entry is
    one that [normalizeID] leaves as it is.  The pass that [handleDelete]
    starts ends [idle] without error and with the outbox store empty;
    the user then has no row under the id, no other row has changed, and
    the entries store holds nothing under the id. *)
Theorem delete_online_reaches_server (entry : Entry.t) (id1 now1 : string)
    (token : option string) (s : State server.Server) :
  has_token token = true →
  keyed (local s) →
  outbox (local s) = ∅ →
  server.pk_unique (server.table (net s)) →
  Entry.id entry ≠ "" →
  backend.normalizeID TrimSpace IsLetter IsDigit (Entry.id entry)
  = (Entry.id entry, None) →
  let s' := handleDelete fetch localeCompare entry id1 now1 token true s in
  syncState s' = idle
  ∧ error s' = None
  ∧ outbox (local s') = ∅
  ∧ ((userID, Entry.id entry) ∉ server.key <$> server.table (net s'))
  ∧ entries (local s') !! Entry.id entry = None
  ∧ ∀ r, server.key r ≠ (userID, Entry.id entry) →
         r ∈ server.table (net s') ↔ r ∈ server.table (net s).
Proof.
  intros Htok [Hke Hko] Hout Hpk Hid Hnorm s'. subst s'. unfold handleDelete.
  cbv zeta.
  set (item := OutboxItem.mk id1 delete_ (Entry.id entry) None now1).
  set (sA := onStore (storage.putOutboxItem item)
               (onStore (storage.deleteEntry (Entry.id entry))
                  (setError None s))).
  set (sB := setError None (setSyncState syncing sA)).
  assert (server.pathId TrimSpace IsLetter IsDigit arrives
            (OutboxItem.entryId item) = Some (Entry.id entry)) as Hpath.
  { unfold server.pathId. cbn [OutboxItem.entryId item]. by rewrite Hnorm. }
  pose proof (drainItem_delete item (Entry.id entry) sB eq_refl Hpath Hid
                (normalizeID_fixed _ _ _ _ Hnorm Hid)) as Hdelete.
  cbv zeta in Hdelete. rewrite Hnorm in Hdelete. cbn [fst snd] in Hdelete.
  destruct Hdelete as (Hres & Hentries & _ & Hrows).
  destruct (drainItem fetch item sB) as [sC r] eqn:Hitem.
  cbn [fst snd] in Hres, Hentries, Hrows. subst r.
  assert (outbox (local sA) = <[OutboxItem.id item := item]> ∅) as HoutA.
  { unfold sA. cbn [local outbox setError onStore storage.putOutboxItem
                    storage.deleteEntry].
    by rewrite Hout. }
  assert (entries (local sC) = delete (Entry.id entry) (entries (local s)))
    as HentC by (by rewrite Hentries).
  assert (entries_keyed (entries (local sC))) as HkeC.
  { rewrite HentC. by apply entries_keyed_delete. }
  destruct (single_item_pass token item sA sC Htok HoutA Hitem HkeC Hpk)
    as (Hsync & Herr & Houtbox & Htable & _ & Hlook).
  split; [done|]. split; [done|]. split; [done|]. rewrite Htable.
  assert ((userID, Entry.id entry) ∉ server.key <$> server.table (net sC))
    as Hgone.
  { intros (r & Hkey & Hr)%list_elem_of_fmap. apply Hrows in Hr as [_ Hne].
    by destruct Hne. }
  split; [done|]. split.
  - rewrite Hlook, HentC, lookup_delete_eq.
    pose proof (listing_find (server.table (net sC)) (Entry.id entry))
      as Hfind.
    destruct (find _ _) as [x|]; [|done].
    destruct Hfind as (r & Hr & Hkey & _). destruct Hgone.
    apply list_elem_of_fmap. by exists r.
  - intros r Hr. rewrite Hrows. unfold sB, sA.
    cbn [net setError setSyncState onStore].
    split; [by intros [H _]|by intros H].
Qed.

Section SubmitOnline.
Variable trim : string → string.
Variable fromLocalInput : string → Result string.

(** X21.  A new entry submitted on a device that is signed in and on
    line, with nothing queued, in front of the SQL server.  When the body
    passes [readJSON] and [validateEntry], the pass that [handleSubmit]
    starts ends [idle] without error and with the outbox store empty; the
    user then has a row with the trimmed fields of the form, under the
    normalized id of the entry (a new id when that is empty), and the
    entries store holds that row, synced, under its id. *)
Theorem submit_online_reaches_server (requiredError : string) (form : Form.t)
    (shown : list Entry.t) (id1 id2 now1 now2 : string)
    (token : option string) (brewedAt : string) (s : State server.Server) :
  has_token token = true →
  keyed (local s) →
  outbox (local s) = ∅ →
  server.pk_unique (server.table (net s)) →
  fromLocalInput (Form.brewedAt form) = Ok brewedAt →
  trim (Form.beans form) ≠ "" →
  trim (Form.brewMethod form) ≠ "" →
  let newEntry :=
    Entry.mk id1 (trim (Form.beans form)) (trim (Form.brewMethod form))
      (trim (Form.notes form)) (Form.rating form) brewedAt now1 now1
      (Some pending) in
  readJSON (toPayload newEntry) = None →
  server.validateEntry TrimSpace IsLetter IsDigit parseRFC3339
    (server.decode (toPayload newEntry)) = None →
  let s' :=
    handleSubmit fetch localeCompare trim fromLocalInput requiredError form
      None shown id1 id2 now1 now2 token true s in
  let normalized := (backend.normalizeID TrimSpace IsLetter IsDigit id1).1 in
  syncState s' = idle
  ∧ error s' = None
  ∧ outbox (local s') = ∅
  ∧ ∃ row,
      row ∈ server.table (net s')
      ∧ backend.user_id row = userID
      ∧ backend.id row
        = (if decide (normalized = "") then newID (server.served (net s))
           else normalized)
      ∧ backend.beans row = trim (Form.beans form)
      ∧ backend.brew_method row = trim (Form.brewMethod form)
      ∧ backend.notes row = trim (Form.notes form)
      ∧ backend.rating row = Form.rating form
      ∧ entries (local s') !! backend.id row
        = Some (server.onDevice formatRFC3339 row).
Proof.
  intros Htok [Hke Hko] Hout Hpk Hdate Hb Hm newEntry Hread Hvalid s'
    normalized.
  subst s'. unfold handleSubmit. rewrite Hdate.
  rewrite !bool_decide_eq_false_2 by done. cbv beta iota zeta. cbn [orb].
  fold newEntry.
  set (item := OutboxItem.mk id2 create (Entry.id newEntry)
                 (Some (toPayload newEntry)) now1).
  set (sA := onStore (storage.putOutboxItem item)
               (onStore (storage.putEntry newEntry) (setError None s))).
  rewrite runSync_eq by done. cbv zeta.
  set (sB := setError None (setSyncState syncing sA)).
  assert (refreshOutbox localeCompare sB = [item]) as Hitems.
  { unfold refreshOutbox, storage.getOutboxItems, sB, sA.
    cbn [local outbox setError setSyncState onStore storage.putOutboxItem
         storage.putEntry].
    rewrite Hout. cbn [OutboxItem.id item]. by rewrite getAll_singleton. }
  unfold processOutbox. rewrite Htok, Hitems. cbn [negb drain].
  pose proof (drainItem_create item (toPayload newEntry) sB eq_refl eq_refl
                Hread) as Hcreate.
  cbv zeta in Hcreate. rewrite Hvalid in Hcreate.
  destruct Hcreate as (db' & e & Hup & Hres & Htable & Hentries & Houtbox).
  destruct (upsertEntry_spec TrimSpace IsLetter IsDigit parseRFC3339
              formatRFC3339 _ _ _ _ _ _ _ Hpk Hup)
    as (Hpk' & Hide & (row & Hrow & Hkey & He & Hrb & Hrm & Hrn & Hrr & _) & _).
  destruct (drainItem fetch item sB) as [sC r] eqn:Hitem.
  cbn [fst snd] in Hres, Htable, Hentries, Houtbox. subst r.
  apply drainItem_Ok in Hitem as (_ & _ & _ & Herr & _).
  assert (entries_keyed (entries (local sC))) as HkeC.
  { rewrite Hentries. apply (entries_keyed_insert _ (toEntry (server.encode e))).
    by apply (entries_keyed_insert _ newEntry). }
  assert (server.pk_unique (server.table (net sC))) as HpkC
    by (by rewrite Htable).
  destruct (syncFromServer_reachable sC HkeC HpkC) as [Heq Hlook].
  specialize (Hlook (backend.Entry.ID e)).
  rewrite Heq in Hlook |- *. cbn [fst] in Hlook.
  cbn [setSyncState syncState error net local outbox server.answered
       server.table storage.putEntries storage.clearEntries].
  split; [done|]. split; [by rewrite Herr|]. split.
  { rewrite Houtbox. unfold sB, sA.
    cbn [local outbox setError setSyncState onStore storage.putOutboxItem
         storage.putEntry OutboxItem.id item].
    rewrite Hout. apply map_eq. intros k.
    destruct (decide (k = id2)) as [->|Hne].
    - by rewrite lookup_delete_eq, lookup_empty.
    - by rewrite lookup_delete_ne, lookup_insert_ne by done. }
  exists row. rewrite Htable.
  assert (backend.id row = backend.Entry.ID e) as Hrid by (by rewrite He).
  split; [done|]. split; [by injection Hkey|]. split.
  { rewrite Hrid. exact Hide. }
  split; [done|]. split; [done|]. split; [done|]. split; [done|].
  rewrite Hrid, <- Htable. etransitivity; [exact Hlook|].
  rewrite Hentries, lookup_insert_eq.
  pose proof (listing_find (server.table (net sC)) (backend.Entry.ID e))
    as Hfind.
  change (is_pending (toEntry (server.encode e))) with false. cbv iota.
  destruct (find _ _) as [x|].
  - destruct Hfind as (r & Hr & Hrkey & ->). rewrite Htable in Hr.
    f_equal. f_equal. apply (pk_unique_eq db'); [done..|congruence].
  - destruct Hfind. rewrite Htable. apply list_elem_of_fmap. by exists row.
Qed.

(** X23.  An entry edited on a device that is signed in and on line, with
    nothing queued, in front of the SQL server; the user has a row under
    the id, which [normalizeID] leaves as it is.  When the body passes
    [readJSON] and [validateEntry], the pass that [handleSubmit] starts ends
    [idle] without error and with the outbox store empty; the row of the
    user under the id then has the trimmed fields of the form, the
    [created_at] it had and the time of the request as [updated_at], and
    the entries store holds that row, synced, under the id. *)
Theorem edit_online_reaches_server (requiredError : string) (form : Form.t)
    (eid : string) (previous : Entry.t) (shown : list Entry.t)
    (id1 id2 now1 now2 : string) (token : option string) (brewedAt : string)
    (old : backend.Row) (s : State server.Server) :
  has_token token = true →
  keyed (local s) →
  outbox (local s) = ∅ →
  server.pk_unique (server.table (net s)) →
  fromLocalInput (Form.brewedAt form) = Ok brewedAt →
  trim (Form.beans form) ≠ "" →
  trim (Form.brewMethod form) ≠ "" →
  eid ≠ "" →
  find (fun entry => bool_decide (Entry.id entry = eid)) shown
  = Some previous →
  let updated :=
    edited previous (trim (Form.beans form)) (trim (Form.brewMethod form))
      (trim (Form.notes form)) (Form.rating form) brewedAt now1 in
  readJSON (toPayload updated) = None →
  server.validateEntry TrimSpace IsLetter IsDigit parseRFC3339
    (server.decode (toPayload updated)) = None →
  backend.normalizeID TrimSpace IsLetter IsDigit eid = (eid, None) →
  find (backend.selected userID eid) (server.table (net s)) = Some old →
  let s' :=
    handleSubmit fetch localeCompare trim fromLocalInput requiredError form
      (Some eid) shown id1 id2 now1 now2 token true s in
  syncState s' = idle
  ∧ error s' = None
  ∧ outbox (local s') = ∅
  ∧ ∃ row,
      row ∈ server.table (net s')
      ∧ server.key row = (userID, eid)
      ∧ backend.beans row = trim (Form.beans form)
      ∧ backend.brew_method row = trim (Form.brewMethod form)
      ∧ backend.notes row = trim (Form.notes form)
      ∧ backend.rating row = Form.rating form
      ∧ backend.created_at row = backend.created_at old
      ∧ backend.updated_at row = Now (server.served (net s))
      ∧ entries (local s') !! eid = Some (server.onDevice formatRFC3339 row).
Proof.
  intros Htok [Hke Hko] Hout Hpk Hdate Hb Hm Heid Hshown updated Hread Hvalid
    Hnorm Hold s'.
  subst s'. unfold handleSubmit. rewrite Hdate.
  rewrite !bool_decide_eq_false_2 by done. cbv beta iota zeta. cbn [orb].
  rewrite Hshown. fold updated.
  set (item := OutboxItem.mk id1 update eid (Some (toPayload updated)) now2).
  set (sA := onStore (storage.putOutboxItem item)
               (onStore (storage.putEntry updated) (setError None s))).
  set (sB := setError None (setSyncState syncing sA)).
  pose proof (drainItem_update item (toPayload updated) eid old sB eq_refl
                eq_refl Heid Hread Hvalid Hnorm Hold) as Hupdate.
  cbv zeta in Hupdate.
  destruct Hupdate as (Hres & Htable & Hrow & Hkey & Hentries & _).
  destruct (drainItem fetch item sB) as [sC r] eqn:Hitem.
  cbn [fst snd] in Hres, Htable, Hrow, Hkey, Hentries. subst r.
  assert (outbox (local sA) = <[OutboxItem.id item := item]> ∅) as HoutA.
  { unfold sA. cbn [local outbox setError onStore storage.putOutboxItem
                    storage.putEntry].
    by rewrite Hout. }
  assert (entries_keyed (entries (local sC))) as HkeC.
  { rewrite Hentries. intros k e. destruct (decide (k = eid)) as [->|Hne].
    - rewrite lookup_insert_eq. intros [= <-]. cbn. by injection Hkey.
    - rewrite lookup_insert_ne by done.
      exact (entries_keyed_insert _ updated Hke k e). }
  destruct (single_item_pass token item sA sC Htok HoutA Hitem HkeC Hpk)
    as (Hsync & Herr & Houtbox & Htable' & HpkC & Hlook).
  split; [done|]. split; [done|]. split; [done|].
  eexists. rewrite Htable'.
  split; [exact Hrow|]. split; [exact Hkey|].
  split; [done|]. split; [done|]. split; [done|]. split; [done|].
  split; [done|]. split; [done|].
  rewrite Hlook, Hentries, lookup_insert_eq.
  pose proof (listing_find (server.table (net sC)) eid) as Hfind.
  match goal with
  | |- context [is_pending ?x] => change (is_pending x) with false
  end.
  cbv iota. destruct (find _ (map toEntry _)) as [x|].
  - destruct Hfind as (r & Hr & Hrkey & ->).
    f_equal. f_equal. apply (pk_unique_eq (server.table (net sC)));
      [done..|congruence].
  - destruct Hfind. apply list_elem_of_fmap. eexists. split; [|exact Hrow].
    by rewrite Hkey.
Qed.

End SubmitOnline.

End EndToEnd.

Lemma pass_mirrors_server_witness :
  syncState
    (runSync (sample_network "u1") compareCodes (Some "token") true
       (on_server unsynced_store server_x1))
  = idle.
Proof.
  exact (proj1 (pass_mirrors_server backend.asciiTrimSpace
                  backend.asciiIsLetter backend.asciiIsDigit
                  (fun _ => Some 1714550400) (fun t => pretty t)
                  (fun _ => 1714636800) (fun _ => "0c")
       no_route (fun _ => None) sample_arrives method_not_allowed
                  compareCodes
                  "u1" (Some "token") (on_server unsynced_store server_x1)
                  eq_refl unsynced_store_is_keyed
                  (NoDup_singleton (server.key row_x1)))).
Defined.

Lemma queued_create_end_to_end_witness :
  ∃ db' e,
    server.upsertEntry backend.asciiTrimSpace backend.asciiIsLetter
      backend.asciiIsDigit (fun _ => Some 1714550400) (fun t => pretty t)
      1714636800 "0c" [row_x1] "u1" (server.decode payload_e1)
    = (db', (e, None))
    ∧ (drainItem (sample_network "u1") create_e1
         (on_server unsynced_store server_x1)).2 = Ok tt
    ∧ server.table
        (net (drainItem (sample_network "u1") create_e1
                (on_server unsynced_store server_x1)).1) = db'
    ∧ entries
        (local (drainItem (sample_network "u1") create_e1
                  (on_server unsynced_store server_x1)).1)
      = <[backend.Entry.ID e := toEntry (server.encode e)]>
          (entries unsynced_store)
    ∧ outbox
        (local (drainItem (sample_network "u1") create_e1
                  (on_server unsynced_store server_x1)).1)
      = delete "o1" (outbox unsynced_store).
Proof.
  exact (queued_create_end_to_end backend.asciiTrimSpace
           backend.asciiIsLetter backend.asciiIsDigit
           (fun _ => Some 1714550400) (fun t => pretty t)
           (fun _ => 1714636800) (fun _ => "0c")
       no_route (fun _ => None) sample_arrives method_not_allowed "u1" create_e1
           payload_e1 (on_server unsynced_store server_x1) eq_refl eq_refl
           eq_refl).
Defined.

Lemma queued_delete_end_to_end_witness :
  (drainItem (sample_network "u1") delete_x1_query
     (on_server unsynced_store server_x1)).2 = Ok tt
  ∧ entries
      (local (drainItem (sample_network "u1") delete_x1_query
                (on_server unsynced_store server_x1)).1)
    = entries unsynced_store
  ∧ outbox
      (local (drainItem (sample_network "u1") delete_x1_query
                (on_server unsynced_store server_x1)).1)
    = delete "o10" (outbox unsynced_store)
  ∧ (∀ r, r ∈ server.table
                (net (drainItem (sample_network "u1") delete_x1_query
                        (on_server unsynced_store server_x1)).1)
          ↔ r ∈ [row_x1] ∧ server.key r ≠ ("u1", "x1")).
Proof.
  refine (queued_delete_end_to_end backend.asciiTrimSpace
            backend.asciiIsLetter backend.asciiIsDigit
            (fun _ => Some 1714550400) (fun t => pretty t)
            (fun _ => 1714636800) (fun _ => "0c") no_route (fun _ => None)
            sample_arrives method_not_allowed "u1" delete_x1_query "x1"
            (on_server unsynced_store server_x1) eq_refl eq_refl _ _).
  - discriminate.
  - intros H. vm_compute in H. discriminate H.
Defined.

Lemma queued_update_without_row_blocks_witness :
  error (drain (sample_network "u1") [update_e7; delete_e9]
           (on_server unsynced_store server_x1))
  = Some "entry not found".
Proof.
  refine (proj1 (queued_update_without_row_blocks backend.asciiTrimSpace
                   backend.asciiIsLetter backend.asciiIsDigit
                   (fun _ => Some 1714550400) (fun t => pretty t)
                   (fun _ => 1714636800) (fun _ => "0c")
       no_route (fun _ => None) sample_arrives method_not_allowed "u1"
                   update_e7 _ [delete_e9]
                   (on_server unsynced_store server_x1) eq_refl eq_refl _
                   eq_refl eq_refl eq_refl _)).
  - discriminate.
  - cbn. intros H%list_elem_of_singleton. discriminate H.
Defined.

Lemma submit_online_reaches_server_witness :
  outbox
    (local
       (handleSubmit (sample_network "u1") compareCodes backend.asciiTrimSpace
          (fun value => Ok (value +:+ ":00.000Z")) "Beans and method are required"
          form_kenya None [] "e5" "o5" "2024-05-04T09:00:00.000Z"
          "2024-05-04T09:00:00.001Z" (Some "token") true
          (on_server (mkStore ∅ ∅) server_x1)))
  = ∅.
Proof.
  refine (proj1 (proj2 (proj2
    (submit_online_reaches_server backend.asciiTrimSpace backend.asciiIsLetter
       backend.asciiIsDigit (fun _ => Some 1714550400) (fun t => pretty t)
       (fun _ => 1714636800) (fun _ => "0c")
       no_route (fun _ => None) sample_arrives method_not_allowed
       compareCodes "u1" backend.asciiTrimSpace
       (fun value => Ok (value +:+ ":00.000Z")) "Beans and method are required"
       form_kenya [] "e5" "o5" "2024-05-04T09:00:00.000Z"
       "2024-05-04T09:00:00.001Z" (Some "token") "2024-04-01T08:00:00.000Z"
       (on_server (mkStore ∅ ∅) server_x1) eq_refl
       (conj entries_keyed_empty outbox_keyed_empty) eq_refl
       (NoDup_singleton (server.key row_x1)) eq_refl _ _ eq_refl eq_refl)))).
  - intros H. vm_compute in H. discriminate H.
  - intros H. vm_compute in H. discriminate H.
Defined.

Lemma delete_online_reaches_server_witness :
  entries
    (local
       (handleDelete (sample_network "u1") compareCodes entry_x1 "o6"
          "2024-05-04T09:00:00.000Z" (Some "token") true
          (on_server (mkStore ∅ ∅) server_x1)))
  !! "x1" = None.
Proof.
  refine (proj1 (proj2 (proj2 (proj2 (proj2
    (delete_online_reaches_server backend.asciiTrimSpace backend.asciiIsLetter
       backend.asciiIsDigit (fun _ => Some 1714550400) (fun t => pretty t)
       (fun _ => 1714636800) (fun _ => "0c")
       no_route (fun _ => None) sample_arrives method_not_allowed
       compareCodes "u1" entry_x1 "o6" "2024-05-04T09:00:00.000Z"
       (Some "token") (on_server (mkStore ∅ ∅) server_x1) eq_refl
       (conj entries_keyed_empty outbox_keyed_empty) eq_refl
       (NoDup_singleton (server.key row_x1)) _ eq_refl)))))).
  discriminate.
Defined.

Lemma edit_online_reaches_server_witness :
  outbox
    (local
       (handleSubmit (sample_network "u1") compareCodes backend.asciiTrimSpace
          (fun value => Ok (value +:+ ":00.000Z"))
          "Beans and method are required" form_kenya (Some "x1") [entry_x1]
          "o7" "o8" "2024-05-04T09:00:00.000Z" "2024-05-04T09:00:00.001Z"
          (Some "token") true (on_server (mkStore ∅ ∅) server_x1)))
  = ∅.
Proof.
  refine (proj1 (proj2 (proj2
    (edit_online_reaches_server backend.asciiTrimSpace backend.asciiIsLetter
       backend.asciiIsDigit (fun _ => Some 1714550400) (fun t => pretty t)
       (fun _ => 1714636800) (fun _ => "0c")
       no_route (fun _ => None) sample_arrives method_not_allowed
       compareCodes "u1" backend.asciiTrimSpace
       (fun value => Ok (value +:+ ":00.000Z"))
       "Beans and method are required" form_kenya "x1" entry_x1 [entry_x1]
       "o7" "o8" "2024-05-04T09:00:00.000Z" "2024-05-04T09:00:00.001Z"
       (Some "token") "2024-04-01T08:00:00.000Z" row_x1
       (on_server (mkStore ∅ ∅) server_x1) eq_refl
       (conj entries_keyed_empty outbox_keyed_empty) eq_refl
       (NoDup_singleton (server.key row_x1)) eq_refl _ _ _ eq_refl eq_refl
       eq_refl eq_refl eq_refl)))).
  - intros H. vm_compute in H. discriminate H.
  - intros H. vm_compute in H. discriminate H.
  - discriminate.
Defined.
